(** * Page decoration of ams-xwalk: scripts/scripts.js

    A shallow embedding of the section decoration pipeline of
    [scripts/scripts.js]: the child grouper ([groupChildren]), the colour
    scheme analyser ([parseColor], [getRelativeLuminance], [getColorScheme],
    [setColorScheme]), the section metadata interpreter
    ([getSectionMetadata], [handleSectionMetadata] and its handlers) and the
    link decorator ([decorateHash], [localizeUrl], [decorateLink],
    [decorateLinks]).

    Conventions of the embedding.
    - A JavaScript string is a [string]; its characters stand for code
      units in the range U+0000..U+00FF.
    - A DOM element is a value of [Element]: its own data (tag name,
      content attributes, inline style declarations, dataset) and the list
      of its child nodes.  A function that mutates an element returns the
      element after the mutation.
    - Platform services that the script calls but does not define (the URL
      parser, the resolution of [a.href], [getComputedStyle], the
      exponentiation of numbers, and the helpers imported from aem.js) are
      variables of the sections that use them. *)

From Stdlib Require Import Bool Arith Lia List String Ascii ZArith NArith.
From Stdlib Require Import Numbers.DecimalString.
From Stdlib Require Import Floats.PrimFloat Floats.SpecFloat Floats.FloatOps.
Import ListNotations.

Set Warnings "-inexact-float".

Local Open Scope string_scope.
Local Open Scope list_scope.

(** ** JavaScript strings *)

Module JS.

(** [s.startsWith(p)] *)
Definition startsWith (s p : string) : bool := String.prefix p s.

(** [s.slice(n)] for [0 <= n] *)
Fixpoint drop (n : nat) (s : string) : string :=
  match n, s with
  | O, _ => s
  | S n', String _ s' => drop n' s'
  | S _, EmptyString => EmptyString
  end.

(** [s.includes(sub)] *)
Fixpoint includes (s sub : string) : bool :=
  startsWith s sub ||
  match s with
  | EmptyString => false
  | String _ s' => includes s' sub
  end.

Fixpoint rev_onto (s acc : string) : string :=
  match s with
  | EmptyString => acc
  | String c s' => rev_onto s' (String c acc)
  end.

Definition rev (s : string) : string := rev_onto s EmptyString.

(** [s.endsWith(suf)] *)
Definition endsWith (s suf : string) : bool := startsWith (rev s) (rev suf).

(** [s.replace(pat, rep)] with a string pattern: the first occurrence
    only; the replacement texts of the script contain no [$]. *)
Fixpoint replace (s pat rep : string) : string :=
  if startsWith s pat then (rep ++ drop (String.length pat) s)%string
  else match s with
       | EmptyString => EmptyString
       | String c s' => String c (replace s' pat rep)
       end.

(** [s.replaceAll(pat, rep)] for a non-empty pattern; [skip] counts the
    characters of a match that are still to be consumed. *)
Fixpoint replaceAll_from (skip : nat) (s pat rep : string) : string :=
  match s with
  | EmptyString => EmptyString
  | String c s' =>
      match skip with
      | S k => replaceAll_from k s' pat rep
      | O =>
          if startsWith s pat
          then (rep ++ replaceAll_from (String.length pat - 1) s' pat rep)%string
          else String c (replaceAll_from O s' pat rep)
      end
  end.

Definition replaceAll (s pat rep : string) : string :=
  replaceAll_from O s pat rep.

(** [s.split(sep)] for a non-empty separator; [cur] is the piece being
    read, reversed. *)
Fixpoint split_from (skip : nat) (cur : string) (s sep : string)
  : list string :=
  match s with
  | EmptyString => [rev cur]
  | String c s' =>
      match skip with
      | S k => split_from k cur s' sep
      | O =>
          if startsWith s sep
          then rev cur :: split_from (String.length sep - 1) EmptyString s' sep
          else split_from O (String c cur) s' sep
      end
  end.

Definition split (s sep : string) : list string :=
  split_from O EmptyString s sep.

(** White space and line terminators of ECMAScript below U+0100: what
    [trim] strips and what [\s] matches. *)
Definition isWhiteSpace (c : ascii) : bool :=
  let n := nat_of_ascii c in
  ((9 <=? n) && (n <=? 13) || (n =? 32) || (n =? 160))%nat.

Fixpoint trimStart (s : string) : string :=
  match s with
  | EmptyString => EmptyString
  | String c s' => if isWhiteSpace c then trimStart s' else s
  end.

(** [s.trim()] *)
Definition trim (s : string) : string := rev (trimStart (rev (trimStart s))).

Definition lowerChar (c : ascii) : ascii :=
  let n := nat_of_ascii c in
  if ((65 <=? n) && (n <=? 90)
      || (192 <=? n) && (n <=? 222) && negb (n =? 215))%nat
  then ascii_of_nat (n + 32) else c.

(** [s.toLowerCase()] *)
Fixpoint toLowerCase (s : string) : string :=
  match s with
  | EmptyString => EmptyString
  | String c s' => String (lowerChar c) (toLowerCase s')
  end.

(** [l.join(sep)] *)
Definition join (sep : string) (l : list string) : string :=
  String.concat sep l.

(** Truthiness of a string: the empty string is the only falsy one. *)
Definition truthy (s : string) : bool := negb (s =? "").

Definition isDigit (c : ascii) : bool :=
  let n := nat_of_ascii c in ((48 <=? n) && (n <=? 57))%nat.

End JS.

(** ** The DOM *)

(** Association lists stand for the attribute list, the inline style
    declarations and the dataset of an element, and for the own properties
    of a plain object; a key occurs at most once, and a write to an
    existing key keeps its position. *)
Module Assoc.

Fixpoint get {V} (k : string) (l : list (string * V)) : option V :=
  match l with
  | [] => None
  | (k', v) :: r => if k' =? k then Some v else get k r
  end.

Fixpoint set {V} (k : string) (v : V) (l : list (string * V))
  : list (string * V) :=
  match l with
  | [] => [(k, v)]
  | (k', v') :: r => if k' =? k then (k, v) :: r else (k', v') :: set k v r
  end.

Definition keys {V} (l : list (string * V)) : list string := map fst l.

End Assoc.

Record ElementData : Type := mkData {
  tagName : string;
  attributes : list (string * string);
  style : list (string * string);
  dataset : list (string * string)
}.

Inductive Element : Type :=
| mkElement (props : ElementData) (childNodes : list Node)
with Node : Type :=
| TextNode (data : string)
| ElementNode (e : Element).

Definition props (e : Element) : ElementData :=
  match e with mkElement d _ => d end.

Definition childNodes (e : Element) : list Node :=
  match e with mkElement _ ns => ns end.

Definition withProps (f : ElementData -> ElementData) (e : Element) : Element :=
  mkElement (f (props e)) (childNodes e).

Definition withChildNodes (f : list Node -> list Node) (e : Element) : Element :=
  mkElement (props e) (f (childNodes e)).

Definition getAttribute (name : string) (e : Element) : option string :=
  Assoc.get name (attributes (props e)).

Definition setAttribute (name value : string) (e : Element) : Element :=
  withProps (fun d => mkData (tagName d) (Assoc.set name value (attributes d))
                             (style d) (dataset d)) e.

(** [e.style[prop] = value]: the declaration is recorded as assigned. *)
Definition setStyle (prop value : string) (e : Element) : Element :=
  withProps (fun d => mkData (tagName d) (attributes d)
                             (Assoc.set prop value (style d)) (dataset d)) e.

(** [e.dataset[prop] = value] *)
Definition setDataset (prop value : string) (e : Element) : Element :=
  withProps (fun d => mkData (tagName d) (attributes d) (style d)
                             (Assoc.set prop value (dataset d))) e.

(** [e.className] *)
Definition className (e : Element) : string :=
  match getAttribute "class" e with Some c => c | None => "" end.

Definition setClassName (c : string) (e : Element) : Element :=
  setAttribute "class" c e.

Definition upperChar (c : ascii) : ascii :=
  let n := nat_of_ascii c in
  if ((97 <=? n) && (n <=? 122))%nat then ascii_of_nat (n - 32) else c.

Fixpoint asciiUpper (s : string) : string :=
  match s with
  | EmptyString => EmptyString
  | String c s' => String (upperChar c) (asciiUpper s')
  end.

(** [document.createElement(name)] in an HTML document: [tagName] is the
    name in upper case. *)
Definition createElement (name : string) : Element :=
  mkElement (mkData (asciiUpper name) [] [] []) [].

Fixpoint elementsOf (ns : list Node) : list Element :=
  match ns with
  | [] => []
  | TextNode _ :: r => elementsOf r
  | ElementNode e :: r => e :: elementsOf r
  end.

(** [e.children], also [e.querySelectorAll(':scope > *')] *)
Definition children (e : Element) : list Element := elementsOf (childNodes e).

(** [parent.append(child)] and [parent.appendChild(child)] for a child that
    is not in [parent] yet. *)
Definition append (child : Element) (parent : Element) : Element :=
  withChildNodes (fun ns => ns ++ [ElementNode child]) parent.

(** [parent.prepend(child)] *)
Definition prepend (child : Element) (parent : Element) : Element :=
  withChildNodes (fun ns => ElementNode child :: ns) parent.

(** [e.textContent] *)
Fixpoint textContent (e : Element) : string :=
  match e with
  | mkElement _ ns =>
      (fix go (l : list Node) : string :=
         match l with
         | [] => ""
         | TextNode s :: r => (s ++ go r)%string
         | ElementNode c :: r => (textContent c ++ go r)%string
         end) ns
  end.

(** The first element with the given tag name among the descendants of [e],
    in document order: [e.querySelector(tag)]. *)
Fixpoint querySelectorTag (tag : string) (e : Element) : option Element :=
  match e with
  | mkElement _ ns =>
      (fix go (l : list Node) : option Element :=
         match l with
         | [] => None
         | TextNode _ :: r => go r
         | ElementNode c :: r =>
             if tagName (props c) =? tag then Some c
             else match querySelectorTag tag c with
                  | Some x => Some x
                  | None => go r
                  end
         end) ns
  end.

(** All elements with the given tag name among the descendants of [e], in
    document order: [e.querySelectorAll(tag)]. *)
Fixpoint querySelectorAllTag (tag : string) (e : Element) : list Element :=
  match e with
  | mkElement _ ns =>
      (fix go (l : list Node) : list Element :=
         match l with
         | [] => []
         | TextNode _ :: r => go r
         | ElementNode c :: r =>
             (if tagName (props c) =? tag then [c] else [])
               ++ querySelectorAllTag tag c ++ go r
         end) ns
  end.

(** *** Class lists *)

Module ClassList.

(** ASCII white space, the separators of a class attribute. *)
Definition isAsciiSpace (c : ascii) : bool :=
  let n := nat_of_ascii c in
  ((n =? 9) || (n =? 10) || (n =? 12) || (n =? 13) || (n =? 32))%nat.

(** The maximal runs of characters that are no white space, in order:
    a character that is followed by another one of its run goes in front
    of the first piece of the rest. *)
Fixpoint pieces (s : string) : list string :=
  match s with
  | EmptyString => []
  | String c s' =>
      if isAsciiSpace c then pieces s'
      else
        match s' with
        | EmptyString => [String c ""]
        | String c' _ =>
            if isAsciiSpace c' then String c "" :: pieces s'
            else match pieces s' with
                 | t :: rest => String c t :: rest
                 | [] => [String c ""]
                 end
        end
  end.

Definition mem (t : string) (l : list string) : bool :=
  existsb (String.eqb t) l.

Fixpoint dedup (seen : list string) (l : list string) : list string :=
  match l with
  | [] => []
  | t :: r => if mem t seen then dedup seen r else t :: dedup (t :: seen) r
  end.

(** The token set of a class attribute: an ordered set. *)
Definition tokens (cls : string) : list string := dedup [] (pieces cls).

(** [e.classList.contains(t)] *)
Definition contains (t : string) (e : Element) : bool :=
  mem t (tokens (className e)).

Fixpoint hasSpace (s : string) : bool :=
  match s with
  | EmptyString => false
  | String c s' => isAsciiSpace c || hasSpace s'
  end.

(** A token that [add] and [remove] accept; on any other they throw
    (SyntaxError on the empty token, InvalidCharacterError on white
    space) before they change anything. *)
Definition validToken (t : string) : bool :=
  negb (t =? "") && negb (hasSpace t).

Fixpoint addTokens (ts : list string) (set : list string) : list string :=
  match ts with
  | [] => set
  | t :: r => addTokens r (if mem t set then set else set ++ [t])
  end.

Definition removeTokens (ts : list string) (set : list string)
  : list string :=
  filter (fun t => negb (mem t ts)) set.

(** The update steps: nothing is written when the element has no class
    attribute and the set is empty. *)
Definition update (set : list string) (e : Element) : Element :=
  match getAttribute "class" e, set with
  | None, [] => e
  | _, _ => setClassName (JS.join " " set) e
  end.

(** What [add] and [remove] do once their tokens are accepted. *)
Definition put (ts : list string) (e : Element) : Element :=
  update (addTokens ts (tokens (className e))) e.

Definition discard (ts : list string) (e : Element) : Element :=
  update (removeTokens ts (tokens (className e))) e.

(** [e.classList.add(...ts)]; [None] is the exception. *)
Definition add (ts : list string) (e : Element) : option Element :=
  if forallb validToken ts then Some (put ts e) else None.

(** [e.classList.remove(...ts)]; [None] is the exception. *)
Definition remove (ts : list string) (e : Element) : option Element :=
  if forallb validToken ts then Some (discard ts e) else None.

End ClassList.

(** ** Child grouper *)

(** The last element of a list: [currentGroup] of [groupChildren] is, from
    the first push on, the group pushed last. *)
Fixpoint lastGroup (groups : list Element) : option Element :=
  match groups with
  | [] => None
  | [g] => Some g
  | _ :: r => lastGroup r
  end.

(** [currentGroup.append(child)]: the group pushed last receives the child. *)
Fixpoint appendToLast (child : Element) (groups : list Element)
  : list Element :=
  match groups with
  | [] => []
  | [g] => [append child g]
  | g :: r => g :: appendToLast child r
  end.

Definition isDiv (child : Element) : bool := tagName (props child) =? "DIV".

(** The body of [for (const child of children)] in [groupChildren];
    [groups] is the array built so far. *)
Definition groupStep (groups : list Element) (child : Element)
  : list Element :=
  let currentGroup := lastGroup groups in
  let startNew :=
    match currentGroup with
    | None => true
    | Some g =>
        negb (Bool.eqb (ClassList.contains "block-content" g) (isDiv child))
    end in
  let groups' :=
    if startNew
    then groups ++ [setClassName
                      (if isDiv child then "block-content" else "default-content")
                      (createElement "div")]
    else groups in
  appendToLast child groups'.

(** The children that [groupChildren] works on: the element children of
    the section that do not carry the class section-metadata. *)
Definition contentChildren (section : Element) : list Element :=
  filter (fun child => negb (ClassList.contains "section-metadata" child))
         (children section).

(** [child.tagName === 'DIV' && child.className] *)
Definition isBlock (child : Element) : bool :=
  isDiv child && JS.truthy (className child).

(** [groupChildren(section)]: the wrappers it returns. *)
Definition groupChildren (section : Element) : list Element :=
  let children := contentChildren section in
  if (List.length children =? 0)%nat then []
  else
    let hasBlocks := existsb isBlock children in
    if negb hasBlocks then
      let defaultWrapper := setClassName "default-content" (createElement "div") in
      [fold_left (fun w child => append child w) children defaultWrapper]
    else
      fold_left groupStep children [].

(** The section once [groupChildren] has returned: [append] has moved the
    grouped children out of it, the metadata elements and the text nodes
    stay. *)
Definition sectionAfterGrouping (section : Element) : Element :=
  withChildNodes
    (filter (fun n => match n with
                      | TextNode _ => true
                      | ElementNode c => ClassList.contains "section-metadata" c
                      end))
    section.

(** ** The platform *)

(** The fields of a [URL] object that the script reads. *)
Record URL : Type := mkURL {
  href : string;
  origin : string;
  hostname : string;
  pathname : string;
  search : string;
  hash : string
}.

(** What the script takes from the browser and from aem.js. *)
Class Platform : Type := {
  (** [new URL(s)]; [None] when the constructor throws *)
  URL_parse : string -> option URL;
  (** [new URL(s, window.location.href)]; [None] when it throws *)
  URL_parseInPage : string -> option URL;
  (** the value that the [href] and [src] getters return for a content
      attribute: the attribute resolved against the document base *)
  resolveURL : string -> string;
  (** [getComputedStyle(e).background] *)
  computedBackground : Element -> string;
  (** [x ** y] on numbers *)
  pow : float -> float -> float;
  (** [decorateButtons(a)] of aem.js, on the anchor it is given *)
  decorateButtons : Element -> Element;
  (** [toCamelCase(name)] of aem.js *)
  toCamelCase : string -> string
}.

(** ** Colour scheme analyser *)

Record RGB : Type := mkRGB { r : float; g : float; b : float }.

Module RgbRegex.

(** [\d+], greedy: the digits read and the rest. *)
Fixpoint digits (s : string) : string * string :=
  match s with
  | EmptyString => ("", "")
  | String c s' =>
      if JS.isDigit c
      then let (d, rest) := digits s' in (String c d, rest)
      else ("", s)
  end.

(** [\s*], greedy *)
Definition spaces (s : string) : string := JS.trimStart s.

Definition expect (c : ascii) (s : string) : option string :=
  match s with
  | String c' s' => if Ascii.eqb c c' then Some s' else None
  | EmptyString => None
  end.

(** [/rgb\((\d+),\s*(\d+),\s*(\d+)\)/] anchored at the start of [s]: the
    three capture groups.  A digit run is followed by a character that
    is no digit and a white space run by one that is no white space, so
    the greedy reading is the only one that can succeed. *)
Definition matchHere (s : string) : option (string * string * string) :=
  if JS.startsWith s "rgb(" then
    let (d1, s1) := digits (JS.drop 4 s) in
    if d1 =? "" then None else
    match expect "," s1 with
    | None => None
    | Some s1' =>
        let (d2, s2) := digits (spaces s1') in
        if d2 =? "" then None else
        match expect "," s2 with
        | None => None
        | Some s2' =>
            let (d3, s3) := digits (spaces s2') in
            if d3 =? "" then None else
            match expect ")" s3 with
            | None => None
            | Some _ => Some (d1, d2, d3)
            end
        end
    end
  else None.

(** [str.match(re)]: the leftmost match. *)
Fixpoint exec (s : string) : option (string * string * string) :=
  match matchHere s with
  | Some m => Some m
  | None =>
      match s with
      | EmptyString => None
      | String _ s' => exec s'
      end
  end.

End RgbRegex.

(** The integer that a string of decimal digits denotes. *)
Fixpoint digitsValue (acc : Z) (s : string) : Z :=
  match s with
  | EmptyString => acc
  | String c s' => digitsValue (10 * acc + (Z.of_nat (nat_of_ascii c) - 48)) s'
  end.

(** The number nearest to an integer (ties to even). *)
Definition numberOfZ (z : Z) : float := SF2Prim (binary_normalize 53 1024 z 0 false).

(** [parseInt(s, 10)] on a non-empty string of digits *)
Definition parseInt10 (s : string) : float := numberOfZ (digitsValue 0 s).

Definition lightScheme : string := "light-scheme".
Definition darkScheme : string := "dark-scheme".

Section ColorScheme.

Context {P : Platform}.

Definition parseColor (section : Element) : option RGB :=
  let computedBg := computedBackground section in
  match RgbRegex.exec computedBg with
  | None => None
  | Some (m1, m2, m3) =>
      Some (mkRGB (parseInt10 m1) (parseInt10 m2) (parseInt10 m3))
  end.

(** The gamma correction of one channel. *)
Definition linearize (c : float) : float :=
  (if c <=? 0.03928 then c / 12.92 else pow ((c + 0.055) / 1.055) 2.4)%float.

Definition getRelativeLuminance (rgb : RGB) : float :=
  (let rsRGB := r rgb / 255 in
   let gsRGB := g rgb / 255 in
   let bsRGB := b rgb / 255 in
   let rLinear := linearize rsRGB in
   let gLinear := linearize gsRGB in
   let bLinear := linearize bsRGB in
   0.2126 * rLinear + 0.7152 * gLinear + 0.0722 * bLinear)%float.

(** [None] is [null]. *)
Definition getColorScheme (section : Element) : option string :=
  match parseColor section with
  | None => None
  | Some rgb =>
      Some (if (0.5 <? getRelativeLuminance rgb)%float
            then lightScheme else darkScheme)
  end.

(** The callback of [forEach] in [setColorScheme]; both calls take fixed,
    valid tokens and throw nothing. *)
Definition applyScheme (scheme : string) (el : Element) : Element :=
  ClassList.put [scheme] (ClassList.discard [lightScheme; darkScheme] el).

Definition mapChildren (f : Element -> Element) (e : Element) : Element :=
  withChildNodes
    (map (fun n => match n with
                   | TextNode s => TextNode s
                   | ElementNode c => ElementNode (f c)
                   end))
    e.

Definition setColorScheme (section : Element) : Element :=
  match getColorScheme section with
  | None => section
  | Some scheme => mapChildren (applyScheme scheme) section
  end.

End ColorScheme.

(** ** Section metadata interpreter *)

(** One value of the metadata object: [{ content, text }].  [content] is
    the cell as it is when the table is read; nothing between that and its
    uses changes the cell or what is below it. *)
Record Entry : Type := mkEntry { content : Element; text : string }.

Definition Metadata : Type := list (string * Entry).

(** [rdx[key] = value] on a plain object: an own property, apart from the
    key [__proto__], whose setter replaces the prototype and leaves the own
    properties as they are. *)
Definition objectSet (key : string) (value : Entry) (rdx : Metadata)
  : Metadata :=
  if key =? "__proto__" then rdx else Assoc.set key value rdx.

(** The callback of [reduce] in [getSectionMetadata]. *)
Definition metadataStep (rdx : Metadata) (row : Node) : Metadata :=
  match row with
  | TextNode _ => rdx
  | ElementNode rowEl =>
      match children rowEl with
      | cell0 :: cell1 :: _ =>
          let key := JS.toLowerCase (JS.trim (textContent cell0)) in
          let content := cell1 in
          let text := JS.toLowerCase (JS.trim (textContent content)) in
          if JS.truthy key then objectSet key (mkEntry content text) rdx
          else rdx
      | _ => rdx
      end
  end.

Definition getSectionMetadata (el : Element) : Metadata :=
  fold_left metadataStep (childNodes el) [].

(** [metadata[key]?.text] when it is truthy. *)
Definition metadataText (key : string) (metadata : Metadata) : option string :=
  match Assoc.get key metadata with
  | Some e => if JS.truthy (text e) then Some (text e) else None
  | None => None
  end.

(** An array index: the canonical decimal form of an integer below
    [2^32 - 1]. *)
Definition arrayIndex (key : string) : option N :=
  match key with
  | EmptyString => None
  | String c rest =>
      if forallb JS.isDigit (list_ascii_of_string key)
         && (negb (Ascii.eqb c "0") || (rest =? ""))
      then let v := Z.to_N (digitsValue 0 key) in
           if (v <? 4294967295)%N then Some v else None
      else None
  end.

Fixpoint insertIndex (k : N * string) (l : list (N * string))
  : list (N * string) :=
  match l with
  | [] => [k]
  | k' :: r => if (fst k <? fst k')%N then k :: l else k' :: insertIndex k r
  end.

(** [Object.keys(o)]: the array indices in ascending order, then the other
    keys in the order of their creation. *)
Definition objectKeys (o : Metadata) : list string :=
  let ks := Assoc.keys o in
  let idx := fold_right
               (fun k acc => match arrayIndex k with
                             | Some n => insertIndex (n, k) acc
                             | None => acc
                             end) [] ks in
  map snd idx
  ++ filter (fun k => match arrayIndex k with Some _ => false | None => true end) ks.

Definition specialKeys : list string :=
  ["style"; "grid"; "gap"; "spacing"; "container"; "background-image";
   "background-image-mobile"; "background"; "background-block";
   "background-block-image"; "background-block-image-mobile";
   "object-fit-block"; "object-position-block"].

(** [MEDIA_QUERIES.*.media]: the media queries as [matchMedia] serialises
    them. *)
Definition mediaMobile : string := "(max-width: 599px)".
Definition mediaTablet : string := "(min-width: 600px) and (max-width: 899px)".
Definition mediaDesktop : string := "(min-width: 900px)".

Definition numberToString (n : N) : string :=
  NilEmpty.string_of_uint (N.to_uint n).

(** A string or [null], as a condition. *)
Definition truthyOpt (o : option string) : bool :=
  match o with
  | Some s => JS.truthy s
  | None => false
  end.

(** A step on an element that may throw: [Threw s] carries the element as
    the exception leaves it. *)
Inductive Result : Type :=
| Ok (s : Element)
| Threw (s : Element).

Section Metadata.

Context {P : Platform}.

(** [None]: [new URL] has thrown. *)
Definition createSource (src : string) (width : N) (mediaQuery : string)
  : option Element :=
  match URL_parseInPage src with
  | None => None
  | Some u =>
      let source := createElement "source" in
      let source := setAttribute "type" "image/webp" source in
      let source :=
        setAttribute "srcset"
          (pathname u ++ "?width=" ++ numberToString width
             ++ "&format=webply&optimize=medium")%string source in
      Some (setAttribute "media" mediaQuery source)
  end.

(** [img.src]: the empty string without the attribute. *)
Definition imgSrc (img : Element) : string :=
  match getAttribute "src" img with
  | Some v => resolveURL v
  | None => ""
  end.

(** [None] is [null]. *)
Definition extractImageUrl (content : Element) : option string :=
  match querySelectorTag "IMG" content with
  | Some img => if JS.truthy (imgSrc img) then Some (imgSrc img) else None
  | None => None
  end.

(** [None]: [createSource] has thrown, before [section] was touched.  The
    [onload] handler, which runs when the image has loaded, is not part of
    the model. *)
Definition handleBackgroundImages (desktopUrl mobileUrl : option string)
  (section : Element) : option Element :=
  match desktopUrl with
  | None => Some section
  | Some desktop =>
      if negb (JS.truthy desktop) then Some section else
      let newPic := ClassList.put ["bg-images"] (createElement "picture") in
      let first :=
        match mobileUrl with
        | Some mobile =>
            if JS.truthy mobile then createSource mobile 600 mediaMobile
            else createSource desktop 899 mediaTablet
        | None => createSource desktop 899 mediaTablet
        end in
      match first with
      | None => None
      | Some source1 =>
          let newPic := append source1 newPic in
          match createSource desktop 1920 mediaDesktop with
          | None => None
          | Some source2 =>
              let newPic := append source2 newPic in
              let newImg := createElement "img" in
              let newImg := setAttribute "alt" "" newImg in
              let newImg := setClassName "section-img" newImg in
              let newImg := setAttribute "loading" "lazy" newImg in
              let defaultImgUrl :=
                if truthyOpt mobileUrl
                then match mobileUrl with Some m => m | None => desktop end
                else desktop in
              let newImg := setAttribute "src" defaultImgUrl newImg in
              let newPic := append newImg newPic in
              let section := ClassList.put ["has-bg-images"] section in
              Some (prepend newPic section)
          end
      end
  end.

Definition handleBackground (background : Entry) (section : Element)
  : Element :=
  let color := text background in
  if JS.truthy color then
    let section :=
      setStyle "background"
        (if JS.startsWith color "color-token"
         then ("var(" ++ JS.replace color "color-token" "--color" ++ ")")%string
         else color)
        section in
    setColorScheme section
  else section.

(** [None]: [classList.add] has thrown and the promise of [handleStyle]
    is rejected. *)
Definition handleStyle (text : string) (section : Element) : option Element :=
  let styles := map (fun style => JS.replaceAll style " " "-")
                    (JS.split text ", ") in
  ClassList.add styles section.

(** [handleLayout] is called without [await]: when its second
    [classList.add] throws, its promise is rejected, nobody looks at it,
    and the section stays as the first one left it. *)
Definition handleLayout (text : string) (section : Element) (type : string)
  : Element :=
  if text =? "0" then section else
  let section :=
    if type =? "grid" then ClassList.put ["grid"] section else section in
  match ClassList.add [(type ++ "-" ++ text)%string] section with
  | Some section' => section'
  | None => section
  end.

End Metadata.

(** *** Elements inside a document *)

(** An element of a document is named by the path that leads to it from
    the root: the indices, in [childNodes], of its ancestors and of itself. *)
Definition Path : Type := list nat.

Fixpoint elementAt (p : Path) (e : Element) : option Element :=
  match p with
  | [] => Some e
  | i :: p' =>
      match nth_error (childNodes e) i with
      | Some (ElementNode c) => elementAt p' c
      | _ => None
      end
  end.

Fixpoint updateNth (i : nat) (f : Element -> Element) (ns : list Node)
  : list Node :=
  match ns, i with
  | [], _ => []
  | ElementNode c :: r, O => ElementNode (f c) :: r
  | n :: r, O => n :: r
  | n :: r, S i' => n :: updateNth i' f r
  end.

Fixpoint removeNth (i : nat) (ns : list Node) : list Node :=
  match ns, i with
  | [], _ => []
  | _ :: r, O => r
  | n :: r, S i' => n :: removeNth i' r
  end.

Definition updateChild (i : nat) (f : Element -> Element) (e : Element)
  : Element :=
  withChildNodes (updateNth i f) e.

Fixpoint updateAt (p : Path) (f : Element -> Element) (e : Element) : Element :=
  match p with
  | [] => f e
  | i :: p' => updateChild i (updateAt p' f) e
  end.

(** [el.remove()] for the element at [p]; the root has no parent and stays. *)
Fixpoint removeAt (p : Path) (e : Element) : Element :=
  match p with
  | [] => e
  | i :: p' =>
      match p' with
      | [] => withChildNodes (removeNth i) e
      | _ :: _ => updateChild i (removeAt p') e
      end
  end.

(** [el.closest('.section')] for the element at [p]: the path of the
    nearest element with the class among the element and its ancestors, and
    the path from there to the element. *)
Fixpoint closestSection (p : Path) (e : Element) : option (Path * Path) :=
  let here := if ClassList.contains "section" e then Some ([], p) else None in
  match p with
  | [] => here
  | i :: p' =>
      match nth_error (childNodes e) i with
      | Some (ElementNode c) =>
          match closestSection p' c with
          | Some (sp, rel) => Some (i :: sp, rel)
          | None => here
          end
      | _ => here
      end
  end.

(** The path of an element after [parent.prepend(x)] on the element that
    the path starts from. *)
Definition afterPrepend (rel : Path) : Path :=
  match rel with
  | [] => []
  | i :: rest => S i :: rest
  end.

(** [section.querySelectorAll(':scope > div.block-content')], as indices
    into [childNodes]. *)
Fixpoint blockContentsFrom (i : nat) (ns : list Node) : list nat :=
  match ns with
  | [] => []
  | ElementNode c :: rest =>
      (if isDiv c && ClassList.contains "block-content" c then [i] else [])
        ++ blockContentsFrom (S i) rest
  | TextNode _ :: rest => blockContentsFrom (S i) rest
  end.

Definition blockContents (section : Element) : list nat :=
  blockContentsFrom 0 (childNodes section).

(** [blockContents.forEach(f)] *)
Definition forEachBlock (idxs : list nat) (f : Element -> Element)
  (section : Element) : Element :=
  fold_left (fun s i => updateChild i f s) idxs section.

(** [blockContents.forEach(f)] for an [f] that may throw: the first
    exception ends the loop. *)
Fixpoint forEachBlockExc (idxs : list nat) (f : Element -> option Element)
  (section : Element) : Result :=
  match idxs with
  | [] => Ok section
  | i :: rest =>
      match nth_error (childNodes section) i with
      | Some (ElementNode c) =>
          match f c with
          | Some c' => forEachBlockExc rest f (updateChild i (fun _ => c') section)
          | None => Threw section
          end
      | _ => forEachBlockExc rest f section
      end
  end.

(** The path of [el] after a picture has been prepended to each of the
    block-content groups [idxs]. *)
Definition afterBlockPrepend (idxs : list nat) (rel : Path) : Path :=
  match rel with
  | i :: j :: rest => if existsb (Nat.eqb i) idxs then i :: S j :: rest else rel
  | _ => rel
  end.

(** How a call of the asynchronous [handleSectionMetadata] ends, with the
    document as it leaves it. *)
Inductive Outcome : Type :=
| Fulfilled (doc : Element)
| Rejected (doc : Element).

Section SectionMetadata.

Context {P : Platform}.

Definition metadataImage (key : string) (metadata : Metadata)
  : option string :=
  match Assoc.get key metadata with
  | Some e => extractImageUrl (content e)
  | None => None
  end.

Definition layoutIfSet (key : string) (metadata : Metadata)
  (section : Element) : Element :=
  match metadataText key metadata with
  | Some t => handleLayout t section key
  | None => section
  end.

(** The catch-all: every key that is not special becomes a data
    attribute. *)
Definition setDataAttributes (metadata : Metadata) (section : Element)
  : Element :=
  fold_left
    (fun s key =>
       if existsb (String.eqb key) specialKeys then s
       else match Assoc.get key metadata with
            | Some e => setDataset (toCamelCase key) (text e) s
            | None => s
            end)
    (objectKeys metadata) section.

(** The block-content part of [handleSectionMetadata]; [rel] is the path
    of [el] below the section. *)
Definition handleBlockContents (metadata : Metadata) (rel : Path)
  (section : Element) : Result * Path :=
  let idxs := blockContents section in
  if (0 <? List.length idxs)%nat then
    let section :=
      match Assoc.get "background-block" metadata with
      | Some e =>
          if JS.truthy (text e)
          then forEachBlock idxs (handleBackground e) section
          else section
      | None => section
      end in
    let desktopBlockBgImg := metadataImage "background-block-image" metadata in
    let mobileBlockBgImg :=
      metadataImage "background-block-image-mobile" metadata in
    let images :=
      if truthyOpt desktopBlockBgImg || truthyOpt mobileBlockBgImg
      then (forEachBlockExc idxs
              (handleBackgroundImages desktopBlockBgImg mobileBlockBgImg)
              section,
            if truthyOpt desktopBlockBgImg
            then afterBlockPrepend idxs rel else rel)
      else (Ok section, rel) in
    match images with
    | (Threw s, rel') => (Threw s, rel')
    | (Ok section, rel') =>
        let section :=
          match metadataText "object-fit-block" metadata with
          | Some t => forEachBlock idxs (setDataset "objectFit" t) section
          | None => section
          end in
        let section :=
          match metadataText "object-position-block" metadata with
          | Some t => forEachBlock idxs (setDataset "objectPosition" t) section
          | None => section
          end in
        (Ok section, rel')
    end
  else (Ok section, rel).

(** What [handleSectionMetadata] does to the section it has found, from
    the handling of the special keys to the block-content part. *)
Definition applyMetadata (metadata : Metadata) (rel : Path)
  (section : Element) : Result * Path :=
  let styled :=
    match metadataText "style" metadata with
    | Some t => handleStyle t section
    | None => Some section
    end in
  match styled with
  | None => (Threw section, rel)
  | Some section =>
      let section := layoutIfSet "grid" metadata section in
      let section := layoutIfSet "gap" metadata section in
      let section := layoutIfSet "spacing" metadata section in
      let section := layoutIfSet "container" metadata section in
      let section :=
        match Assoc.get "background" metadata with
        | Some e =>
            if JS.truthy (text e) then handleBackground e section else section
        | None => section
        end in
      let section := setDataAttributes metadata section in
      let desktopBgImg := metadataImage "background-image" metadata in
      let mobileBgImg := metadataImage "background-image-mobile" metadata in
      let images :=
        if truthyOpt desktopBgImg || truthyOpt mobileBgImg
        then (handleBackgroundImages desktopBgImg mobileBgImg section,
              if truthyOpt desktopBgImg then afterPrepend rel else rel)
        else (Some section, rel) in
      match images with
      | (None, rel') => (Threw section, rel')
      | (Some section, rel') => handleBlockContents metadata rel' section
      end
  end.

(** [handleSectionMetadata(el)] for the element at [el] in [doc].  The
    continuation after [await] is run at once: the model follows one call
    on its own.  A path that names no element of [doc] is no call of the
    script; the document is returned as it is. *)
Definition handleSectionMetadata (doc : Element) (el : Path) : Outcome :=
  match closestSection el doc with
  | None => Fulfilled doc
  | Some (sp, rel) =>
      match elementAt sp doc with
      | None => Fulfilled doc
      | Some section =>
          match elementAt rel section with
          | None => Fulfilled doc
          | Some elv =>
              let metadata := getSectionMetadata elv in
              match applyMetadata metadata rel section with
              | (Threw section', _) =>
                  Rejected (updateAt sp (fun _ => section') doc)
              | (Ok section', rel') =>
                  Fulfilled (removeAt (sp ++ rel')
                               (updateAt sp (fun _ => section') doc))
              end
          end
      end
  end.

End SectionMetadata.

(** ** Link decorator *)

(** The configuration that [setConfig] assembles, as far as the link
    decorator reads it: [locales] lists the keys of the locales object,
    [localePrefix] is [config.locale.prefix], a widget pattern is an object
    with one key. *)
Record Config : Type := mkConfig {
  hostnames : list string;
  locales : list string;
  localePrefix : string;
  widgets : list (string * string)
}.

(** What [config.log] is called with. *)
Inductive LogEntry : Type :=
| LogMessage (s : string)
| LogException.

(** The three ways [localizeUrl] ends. *)
Inductive Localized : Type :=
| NotLocalized
| LocalizedTo (u : URL)
| LocalizeThrew.

(** Where the steps of [decorateLink] before the widgets end. *)
Inductive Prepared : Type :=
| Ready (a : Element) (dnb : bool)
| Failed (a : Element).

(** What a call of [decorateLink] leaves: the anchor after the call,
    whether the anchor is returned ([false]: [null] is), and the calls of
    [config.log]. *)
Record LinkResult : Type := mkLinkResult {
  anchor : Element;
  isWidget : bool;
  logged : list LogEntry
}.

Definition couldNotDecorate : list LogEntry :=
  [LogMessage "Could not decorate link"; LogException].

Section Links.

Context {P : Platform}.

(** [a.href] *)
Definition getHref (a : Element) : string :=
  match getAttribute "href" a with
  | Some v => resolveURL v
  | None => ""
  end.

(** [a.href = v] *)
Definition setHref (v : string) (a : Element) : Element :=
  setAttribute "href" v a.

(** [findHash(name)] inside [decorateHash] *)
Definition findHash (hash name : string) (a : Element) : Element * bool :=
  let found := JS.includes hash name in
  (if found then setHref (JS.replace (getHref a) name "") a else a, found).

(** [decorateHash(a, url)]: the anchor, [dnt] and [dnb]; the two are
    [undefined], hence falsy, when the function returns [{}]. *)
Definition decorateHash (a : Element) (url : URL) : Element * bool * bool :=
  let hash := hash url in
  if negb (JS.truthy hash) || (hash =? "#") then (a, false, false)
  else
    let (a, blank) := findHash hash "#_blank" a in
    let a := if blank then setAttribute "target" "_blank" a else a in
    let (a, dnt) := findHash hash "#_dnt" a in
    let (a, dnb) := findHash hash "#_dnb" a in
    (a, dnt, dnb).

Definition localizeUrl (config : Config) (url : URL) : Localized :=
  if localePrefix config =? "" then NotLocalized
  else if JS.startsWith (pathname url) (localePrefix config ++ "/")%string
  then NotLocalized
  else
    let localized :=
      existsb (fun key => negb (key =? "")
                          && JS.startsWith (pathname url) (key ++ "/")%string)
              (locales config) in
    if localized then NotLocalized
    else match URL_parse (origin url ++ localePrefix config ++ pathname url
                            ++ search url ++ hash url)%string with
         | Some u => LocalizedTo u
         | None => LocalizeThrew
         end.

(** The first pattern whose text the href includes: where
    [config.widgets.some] stops. *)
Fixpoint firstWidget (href : string) (patterns : list (string * string))
  : option string :=
  match patterns with
  | [] => None
  | (key, value) :: rest =>
      if JS.includes href value then Some key else firstWidget href rest
  end.

(** The widget part of [decorateLink], after [decorateButtons]. *)
Definition classifyWidget (config : Config) (dnb : bool) (a : Element)
  : LinkResult :=
  if dnb then mkLinkResult a false []
  else
    match firstWidget (getHref a) (widgets config) with
    | None => mkLinkResult a false []
    | Some key =>
        match ClassList.add [key; "auto-block"] a with
        | Some a' => mkLinkResult a' true []
        | None => mkLinkResult a false couldNotDecorate
        end
    end.

(** The part of [decorateLink] between the parsing of the href and the
    widgets: the host, the hash, the locale, the buttons.  [Ready a dnb] is
    the anchor that the widget part receives, [Failed a] the anchor at the
    moment [localizeUrl] throws. *)
Definition prepareLink (config : Config) (a : Element) (url : URL)
  : Prepared :=
  let hostMatch :=
    existsb (fun host => JS.endsWith (hostname url) host)
            (hostnames config) in
  let a :=
    if hostMatch then setHref (JS.replace (getHref a) (origin url) "") a
    else a in
  let '(a, dnt, dnb) := decorateHash a url in
  if dnt then Ready (decorateButtons a) dnb
  else match localizeUrl config url with
       | NotLocalized => Ready (decorateButtons a) dnb
       | LocalizedTo localized =>
           Ready (decorateButtons (setHref (href localized) a)) dnb
       | LocalizeThrew => Failed a
       end.

(** [decorateLink(config, a)]: every exception inside [try] ends in the
    two calls of [config.log] and in [return null]. *)
Definition decorateLink (config : Config) (a : Element) : LinkResult :=
  match URL_parse (getHref a) with
  | None => mkLinkResult a false couldNotDecorate
  | Some url =>
      match prepareLink config a url with
      | Failed a => mkLinkResult a false couldNotDecorate
      | Ready a dnb => classifyWidget config dnb a
      end
  end.

(** The anchors of [el] after [decorateLinks(el)] and what was logged for
    each, in document order. *)
Definition decorateAnchors (config : Config) (el : Element)
  : list LinkResult :=
  map (decorateLink config) (querySelectorAllTag "A" el).

(** The callback of [reduce] in [decorateLinks]. *)
Definition collectWidget (config : Config) (acc : list Element) (a : Element)
  : list Element :=
  let decorated := decorateLink config a in
  if isWidget decorated then acc ++ [anchor decorated] else acc.

(** [decorateLinks(el)], with the configuration that [getConfig] returns:
    the array it returns. *)
Definition decorateLinks (config : Config) (el : Element) : list Element :=
  fold_left (collectWidget config) (querySelectorAllTag "A" el) [].

End Links.

(** ** A platform to run the model on

    [Reference.platform] behaves as a browser does on a page at
    [https://www.example.com/] without style sheets, for URLs of the forms
    [scheme://host:port/path?query#fragment] and [scheme:path] and for
    references relative to the root of the site; it is the platform of the
    worked examples below. *)

Module Reference.

Definition isAlpha (c : ascii) : bool :=
  let n := nat_of_ascii c in
  ((65 <=? n) && (n <=? 90) || (97 <=? n) && (n <=? 122))%nat.

Definition isSchemeChar (c : ascii) : bool :=
  isAlpha c || JS.isDigit c
  || Ascii.eqb c "+" || Ascii.eqb c "-" || Ascii.eqb c ".".

(** The text before the first character that [stop] accepts, and the
    text from that character on. *)
Fixpoint breakAt (stop : ascii -> bool) (s : string) : string * string :=
  match s with
  | EmptyString => ("", "")
  | String c s' =>
      if stop c then ("", s)
      else let (l, rest) := breakAt stop s' in (String c l, rest)
  end.

(** The scheme of an absolute URL and what follows its colon. *)
Definition scheme (s : string) : option (string * string) :=
  match s with
  | String c _ =>
      if isAlpha c then
        match breakAt (fun x => negb (isSchemeChar x)) s with
        | (sch, String ":" rest) => Some (sch, rest)
        | _ => None
        end
      else None
  | EmptyString => None
  end.

(** The characters of a host name and of a port. *)
Definition isHostChar (c : ascii) : bool :=
  isAlpha c || JS.isDigit c
  || Ascii.eqb c "." || Ascii.eqb c "-" || Ascii.eqb c ":".

Definition orEmpty (mark : string) (s : string) : string :=
  if s =? mark then "" else s.

Definition parse (s : string) : option URL :=
  match scheme s with
  | None => None
  | Some (sch, rest) =>
      let (beforeHash, hashPart) := breakAt (Ascii.eqb "#") rest in
      let (beforeQuery, queryPart) := breakAt (Ascii.eqb "?") beforeHash in
      if JS.startsWith beforeQuery "//" then
        let (authority, path) :=
          breakAt (Ascii.eqb "/") (JS.drop 2 beforeQuery) in
        if (authority =? "")
           || negb (forallb isHostChar (list_ascii_of_string authority))
        then None else
        let path := if path =? "" then "/" else path in
        let org := (sch ++ "://" ++ authority)%string in
        Some (mkURL (org ++ path ++ queryPart ++ hashPart)%string
                    org
                    (fst (breakAt (Ascii.eqb ":") authority))
                    path
                    (orEmpty "?" queryPart)
                    (orEmpty "#" hashPart))
      else
        Some (mkURL s "null" "" beforeQuery
                    (orEmpty "?" queryPart) (orEmpty "#" hashPart))
  end.

Definition base : string := "https://www.example.com".

Definition resolve (s : string) : string :=
  match parse s with
  | Some u => href u
  | None =>
      match scheme s with
      | Some _ => s
      | None =>
          if JS.startsWith s "/" then (base ++ s)%string
          else (base ++ "/" ++ s)%string
      end
  end.

Definition parseInPage (s : string) : option URL := parse (resolve s).

(** Without style sheets the computed background is the inline one when
    that is an [rgb(...)] colour, and transparent otherwise. *)
Definition computed (e : Element) : string :=
  let rest := " none repeat scroll 0% 0% / auto padding-box border-box" in
  match Assoc.get "background" (style (props e)) with
  | Some v => if JS.startsWith v "rgb("
              then (v ++ rest)%string
              else ("rgba(0, 0, 0, 0)" ++ rest)%string
  | None => ("rgba(0, 0, 0, 0)" ++ rest)%string
  end.

(** Exponentiation of a base [x >= 0] by an exponent [y >= 0]: the whole
    part of [y] by repeated multiplication, its binary fraction by
    repeated square roots. *)
Fixpoint powWhole (fuel : nat) (x y acc : float) : float * float :=
  match fuel with
  | O => (acc, y)
  | S fuel' =>
      if (1 <=? y)%float then powWhole fuel' x (y - 1)%float (acc * x)%float
      else (acc, y)
  end.

Fixpoint powFraction (fuel : nat) (root y acc : float) : float :=
  match fuel with
  | O => acc
  | S fuel' =>
      let root' := PrimFloat.sqrt root in
      let y2 := (y * 2)%float in
      if (1 <=? y2)%float
      then powFraction fuel' root' (y2 - 1)%float (acc * root')%float
      else powFraction fuel' root' y2 acc
  end.

Definition power (x y : float) : float :=
  let (acc, fraction) := powWhole 64 x y 1%float in
  powFraction 60 x fraction acc.

(** [-x] becomes [X] for a small letter [x]; [pending] tells that a
    hyphen has been read and not written yet. *)
Fixpoint camelFrom (pending : bool) (s : string) : string :=
  match s with
  | EmptyString => if pending then "-" else ""
  | String c s' =>
      if pending then
        if ((97 <=? nat_of_ascii c) && (nat_of_ascii c <=? 122))%nat
        then String (upperChar c) (camelFrom false s')
        else if Ascii.eqb c "-" then String "-" (camelFrom true s')
        else String "-" (String c (camelFrom false s'))
      else if Ascii.eqb c "-" then camelFrom true s'
      else String c (camelFrom false s')
  end.

Definition camel (s : string) : string := camelFrom false s.

#[export] Instance platform : Platform := {
  URL_parse := parse;
  URL_parseInPage := parseInPage;
  resolveURL := resolve;
  computedBackground := computed;
  pow := power;
  decorateButtons := fun a => a;
  toCamelCase := camel
}.

End Reference.

(** ** Attributes of instrumentation *)

Fixpoint removeKey {V} (k : string) (l : list (string * V))
  : list (string * V) :=
  match l with
  | [] => []
  | (k', v) :: rest =>
      if k' =? k then removeKey k rest else (k', v) :: removeKey k rest
  end.

(** [e.removeAttribute(name)] *)
Definition removeAttribute (name : string) (e : Element) : Element :=
  withProps (fun d => mkData (tagName d) (removeKey name (attributes d))
                             (style d) (dataset d)) e.

(** [[...e.attributes].map(({ nodeName }) => nodeName)] *)
Definition attributeNames (e : Element) : list string :=
  Assoc.keys (attributes (props e)).

(** The callback of [forEach] in [moveAttributes]; [to] is [None] when the
    target is [null], which the optional chaining allows.  The two
    elements are different ones and neither is inside the other. *)
Definition moveAttribute (state : Element * option Element) (attr : string)
  : Element * option Element :=
  let (from, to) := state in
  match getAttribute attr from with
  | Some value =>
      if JS.truthy value
      then (removeAttribute attr from, option_map (setAttribute attr value) to)
      else state
  | None => state
  end.

(** [moveAttributes(from, to, attributes)]: the two elements after the
    call; [attributes] is [None] when the argument is left out. *)
Definition moveAttributes (from : Element) (to : option Element)
  (attributes : option (list string)) : Element * option Element :=
  let attributes :=
    match attributes with
    | Some names => names
    | None => attributeNames from
    end in
  fold_left moveAttribute attributes (from, to).

Definition isInstrumentation (attr : string) : bool :=
  JS.startsWith attr "data-aue-" || JS.startsWith attr "data-richtext-".

Definition moveInstrumentation (from : Element) (to : option Element)
  : Element * option Element :=
  moveAttributes from to (Some (filter isInstrumentation (attributeNames from))).

(** ** Locale and configuration *)

(** A value of the locales object, [{ lang: 'en' }]; [lang] is [None]
    when the property is missing. *)
Record Locale : Type := mkLocale { lang : option string }.

(** [Object.keys(o)] for any plain object: the array indices in ascending
    order, then the other keys in the order of their creation. *)
Definition ownKeys {V} (o : list (string * V)) : list string :=
  let ks := Assoc.keys o in
  let idx := fold_right
               (fun k acc => match arrayIndex k with
                             | Some n => insertIndex (n, k) acc
                             | None => acc
                             end) [] ks in
  map snd idx
  ++ filter (fun k => match arrayIndex k with Some _ => false | None => true end)
            ks.

(** Where a stable sort with the comparator [(a, b) => b.length - a.length]
    puts [x] among elements sorted before it: in front of the first one that
    is shorter. *)
Fixpoint insertByLength (x : string) (sorted : list string) : list string :=
  match sorted with
  | [] => [x]
  | y :: rest =>
      if (String.length y <? String.length x)%nat then x :: sorted
      else y :: insertByLength x rest
  end.

(** [matches.sort((a, b) => b.length - a.length)] *)
Definition sortByLength (matches : list string) : list string :=
  fold_left (fun sorted x => insertByLength x sorted) matches [].

(** The names that every plain object inherits from [Object.prototype]. *)
Definition inheritedNames : list string :=
  ["constructor"; "__defineGetter__"; "__defineSetter__"; "hasOwnProperty";
   "__lookupGetter__"; "__lookupSetter__"; "isPrototypeOf";
   "propertyIsEnumerable"; "toString"; "valueOf"; "__proto__";
   "toLocaleString"].

(** [locales[prefix]]: an own property, or an inherited one, which has no
    [lang] and nothing to spread, or [undefined], which is [None]. *)
Definition localeOf (prefix : string) (locales : list (string * Locale))
  : option Locale :=
  match Assoc.get prefix locales with
  | Some l => Some l
  | None =>
      if existsb (String.eqb prefix) inheritedNames then Some (mkLocale None)
      else None
  end.

(** What [getLocale] returns, [{ prefix, ...locales[prefix] }], and the
    value it has assigned to [document.documentElement.lang], if any. *)
Record LocaleResult : Type := mkLocaleResult {
  prefix : string;
  localeLang : option string;
  documentLang : option string
}.

(** [getLocale(locales)] on a page whose [window.location.pathname] is
    [pathname] and whose metadata [locale], as [getMetadata] of aem.js reads
    it, is [metaLocale], the empty string when there is none.  [None]: the
    access [locales[prefix].lang] has thrown. *)
Definition getLocale (pathname metaLocale : string)
  (locales : list (string * Locale)) : option LocaleResult :=
  let matches :=
    filter (fun locale => JS.startsWith pathname (locale ++ "/")%string)
           (ownKeys locales) in
  let prefix :=
    if JS.truthy metaLocale then metaLocale
    else match sortByLength matches with
         | longest :: _ => longest
         | [] => ""
         end in
  match localeOf prefix locales with
  | None => None
  | Some l =>
      Some (mkLocaleResult prefix (lang l)
              (match lang l with
               | Some code => if JS.truthy code then Some code else None
               | None => None
               end))
  end.

(** The argument of [setConfig], as far as the link decorator depends on
    it; [confLocales] is [None] when the property is missing, as it is in
    the default argument [{}]. *)
Record Conf : Type := mkConf {
  confHostnames : list string;
  confLocales : option (list (string * Locale));
  confWidgets : list (string * string)
}.

(** The default argument of [setConfig]. *)
Definition emptyConf : Conf := mkConf [] None [].

(** The variable [config] of the closure that [setConfig] and [getConfig]
    share; [None] before the first assignment. *)
Definition ConfigStore : Type := option Config.

(** The object that [setConfig] builds; [None]: [getLocale] has thrown, on
    [Object.keys(undefined)] or on [locales[prefix].lang]. *)
Definition buildConfig (pathname metaLocale : string) (conf : Conf)
  : option Config :=
  match confLocales conf with
  | None => None
  | Some locales =>
      match getLocale pathname metaLocale locales with
      | None => None
      | Some locale =>
          Some (mkConfig (confHostnames conf) (ownKeys locales)
                         (prefix locale) (confWidgets conf))
      end
  end.

(** [setConfig(conf)]: the store after the call and the result, [None]
    when the call throws, which leaves the store as it was. *)
Definition setConfig (pathname metaLocale : string) (conf : Conf)
  (store : ConfigStore) : ConfigStore * option Config :=
  match buildConfig pathname metaLocale conf with
  | Some config => (Some config, Some config)
  | None => (store, None)
  end.

(** [getConfig()]: [config || setConfig()] *)
Definition getConfig (pathname metaLocale : string) (store : ConfigStore)
  : ConfigStore * option Config :=
  match store with
  | Some config => (store, Some config)
  | None => setConfig pathname metaLocale emptyConf store
  end.

(** ** Sections *)

(** The first statements of the callback of [decorateSections]: the groups
    of [groupChildren] are appended to the section, from which the grouped
    children have gone, and the section gets the class section. *)
Definition wrapSection (section : Element) : Element :=
  let groups := groupChildren section in
  let section :=
    fold_left (fun s group => append group s) groups
              (sectionAfterGrouping section) in
  ClassList.put ["section"] section.

(** ** Labels of links and eager images *)

(** The first element that [p] accepts among the descendants of [e], in
    document order: [e.querySelector(selector)]. *)
Fixpoint querySelectorBy (p : Element -> bool) (e : Element)
  : option Element :=
  match e with
  | mkElement _ ns =>
      (fix go (l : list Node) : option Element :=
         match l with
         | [] => None
         | TextNode _ :: rest => go rest
         | ElementNode c :: rest =>
             if p c then Some c
             else match querySelectorBy p c with
                  | Some x => Some x
                  | None => go rest
                  end
         end) ns
  end.

(** [span.icon] *)
Definition isSpanIcon (e : Element) : bool :=
  (tagName (props e) =? "SPAN") && ClassList.contains "icon" e.

(** The value of [label] when [a11yLinks] sets the attribute; [None] is
    [undefined]. *)
Definition a11yLabel (link : Element) : option string :=
  let label := textContent link in
  if negb (JS.truthy label) then
    match querySelectorBy isSpanIcon link with
    | Some icon =>
        match nth_error (ClassList.tokens (className icon)) 1 with
        | Some cls => nth_error (JS.split cls "-") 1
        | None => None
        end
    | None => Some label
    end
  else Some label.

(** An argument of [setAttribute] as the string it is converted to. *)
Definition toAttributeValue (v : option string) : string :=
  match v with
  | Some s => s
  | None => "undefined"
  end.

(** The callback of [forEach] in [a11yLinks]. *)
Definition labelLink (link : Element) : Element :=
  setAttribute "aria-label" (toAttributeValue (a11yLabel link)) link.

(** [a11yLinks(main)]: every anchor below [main] gets its label.  A label
    depends on the text and on the classes below the anchor, which no label
    changes, so the order of the anchors does not matter. *)
Fixpoint a11yLinks (main : Element) : Element :=
  match main with
  | mkElement d ns =>
      mkElement d
        ((fix go (l : list Node) : list Node :=
            match l with
            | [] => []
            | TextNode s :: rest => TextNode s :: go rest
            | ElementNode c :: rest =>
                ElementNode
                  (if tagName (props c) =? "A"
                   then setAttribute "aria-label"
                          (toAttributeValue (a11yLabel c)) (a11yLinks c)
                   else a11yLinks c)
                  :: go rest
            end) ns)
  end.

(** What [eagerLoad] does to the image it has found. *)
Definition makeEager (img : Element) : Element :=
  setAttribute "fetchpriority" "high" (removeAttribute "loading" img).

(** The first element with the given tag name among the descendants of
    [e] replaced by its image under [f]; [None] when there is none. *)
Fixpoint updateFirstTag (tag : string) (f : Element -> Element) (e : Element)
  : option Element :=
  match e with
  | mkElement d ns =>
      option_map (mkElement d)
        ((fix go (l : list Node) : option (list Node) :=
            match l with
            | [] => None
            | TextNode s :: rest => option_map (cons (TextNode s)) (go rest)
            | ElementNode c :: rest =>
                if tagName (props c) =? tag
                then Some (ElementNode (f c) :: rest)
                else match updateFirstTag tag f c with
                     | Some c' => Some (ElementNode c' :: rest)
                     | None => option_map (cons (ElementNode c)) (go rest)
                     end
            end) ns)
  end.

(** [decorateArea({ area })]: the first image of the area is loaded
    eagerly. *)
Definition decorateArea (area : Element) : Element :=
  match updateFirstTag "IMG" makeEager area with
  | Some area' => area'
  | None => area
  end.

(** ** Vocabulary of the properties *)

(** The configuration with the root locale as the current one. *)
Definition rootLocale (config : Config) : Config :=
  mkConfig (hostnames config) (locales config) "" (widgets config).

(** The fragment of the URL carries the do-not-translate directive, as
    [decorateHash] finds it. *)
Definition doNotTranslate (url : URL) : bool :=
  JS.truthy (hash url) && negb (hash url =? "#")
  && JS.includes (hash url) "#_dnt".

(** The fragment of the URL carries the do-not-block directive, as
    [decorateHash] finds it. *)
Definition doNotBlock (url : URL) : bool :=
  JS.truthy (hash url) && negb (hash url =? "#")
  && JS.includes (hash url) "#_dnb".

(** The path of the URL starts with the current locale or with another
    configured one, as [localizeUrl] tests it. *)
Definition localePrefixed (config : Config) (url : URL) : bool :=
  JS.startsWith (pathname url) (localePrefix config ++ "/")%string
  || existsb (fun key => negb (key =? "")
                         && JS.startsWith (pathname url) (key ++ "/")%string)
             (locales config).

(** The number of places in a sequence of classifications where the
    classification differs from the one before; [b] is the classification
    before the first one of [l]. *)
Fixpoint changes (b : bool) (l : list bool) : nat :=
  match l with
  | [] => 0
  | x :: rest => (if Bool.eqb b x then 0 else 1) + changes x rest
  end.

(** The number of classification transitions along a list of children. *)
Definition transitions (classify : Element -> bool) (cs : list Element) : nat :=
  match map classify cs with
  | [] => 0
  | x :: rest => changes x rest
  end.

(** The wrapper that [groupChildren] builds for a run of children. *)
Definition wrapper (block : bool) (members : list Element) : Element :=
  fold_left (fun w child => append child w) members
    (setClassName (if block then "block-content" else "default-content")
                  (createElement "div")).

(** The runs of a list of children: maximal stretches of neighbours that
    agree on [isDiv].  [b] and [cur] are the run being read. *)
Fixpoint runsFrom (b : bool) (cur : list Element) (cs : list Element)
  : list (bool * list Element) :=
  match cs with
  | [] => [(b, cur)]
  | c :: rest =>
      if Bool.eqb b (isDiv c) then runsFrom b (cur ++ [c]) rest
      else (b, cur) :: runsFrom (isDiv c) [c] rest
  end.

Definition runs (cs : list Element) : list (bool * list Element) :=
  match cs with
  | [] => []
  | c :: rest => runsFrom (isDiv c) [c] rest
  end.

Definition allChars (p : ascii -> bool) (s : string) : bool :=
  forallb p (list_ascii_of_string s).

(** The text [rgb(d1,w1 d2,w2 d3)] of three runs of digits, with white
    space [w1] and [w2] after the commas. *)
Definition rgbText (d1 w1 d2 w2 d3 : string) : string :=
  ("rgb(" ++ d1 ++ "," ++ w1 ++ d2 ++ "," ++ w2 ++ d3 ++ ")")%string.

(** [s] contains the form [rgb(r,g,b)] with the digits [d1], [d2], [d3]. *)
Definition rgbFormIn (s d1 d2 d3 : string) : Prop :=
  exists pre w1 w2 post : string,
    s = (pre ++ rgbText d1 w1 d2 w2 d3 ++ post)%string
    /\ d1 <> "" /\ d2 <> "" /\ d3 <> ""
    /\ allChars JS.isDigit d1 = true
    /\ allChars JS.isDigit d2 = true
    /\ allChars JS.isDigit d3 = true
    /\ allChars JS.isWhiteSpace w1 = true
    /\ allChars JS.isWhiteSpace w2 = true.

Definition containsRgbForm (s : string) : Prop :=
  exists d1 d2 d3 : string, rgbFormIn s d1 d2 d3.

(** The key under which [getSectionMetadata] files a row, if it files it. *)
Definition rowKey (row : Node) : option string :=
  match row with
  | TextNode _ => None
  | ElementNode rowEl =>
      match children rowEl with
      | cell0 :: _ :: _ =>
          let key := JS.toLowerCase (JS.trim (textContent cell0)) in
          if JS.truthy key then Some key else None
      | _ => None
      end
  end.

(** A token set as the class list keeps it: valid tokens, each once. *)
Definition wellFormed (set : list string) : Prop :=
  Forall (fun t => ClassList.validToken t = true) set /\ NoDup set.

(** The text does not begin with a character that [p] accepts. *)
Definition stopsAt (p : ascii -> bool) (s : string) : Prop :=
  match s with
  | EmptyString => True
  | String c _ => p c = false
  end.

(** A small section: a block, a [div] without class, a paragraph. *)
Module Example.

Definition element (tag cls : string) (kids : list Node) : Element :=
  mkElement (mkData tag (if cls =? "" then [] else [("class", cls)]) [] [])
            kids.

Definition hero : Element := element "DIV" "hero" [].
Definition plainDiv : Element := element "DIV" "" [].
Definition paragraph : Element := element "P" "" [TextNode "Hello"].
Definition heading : Element := element "H1" "" [TextNode "Title"].

(** [<div><div class="hero"></div><div></div></div>] *)
Definition blockThenDiv : Element :=
  element "DIV" "" [ElementNode hero; ElementNode plainDiv].

(** [<div><p>Hello</p><div class="hero"></div><div></div><h1>Title</h1></div>] *)
Definition mixed : Element :=
  element "DIV" ""
    [ElementNode paragraph; ElementNode hero; ElementNode plainDiv;
     ElementNode heading].

(** [<div><h1>Title</h1>text<p>Hello</p></div>] *)
Definition proseOnly : Element :=
  element "DIV" ""
    [ElementNode heading; TextNode "text"; ElementNode paragraph].

(** [<div>text<div class="section-metadata"></div></div>] *)
Definition metadataOnly : Element :=
  element "DIV" ""
    [TextNode "text"; ElementNode (element "DIV" "section-metadata" [])].

End Example.

Module Example3.

(** A section with two children, one of them with a scheme class. *)
Definition section : Element :=
  Example.element "DIV" "section"
    [ElementNode (Example.element "P" "light-scheme lead" []);
     TextNode "text";
     ElementNode Example.hero].

(** The section with an inline background. *)
Definition painted (background : string) : Element :=
  setStyle "background" background section.

End Example3.

Module Example5.

Definition cell (s : string) : Element := Example.element "DIV" "" [TextNode s].

Definition row (label value : string) : Element :=
  Example.element "DIV" "" [ElementNode (cell label); ElementNode (cell value)].

(** A metadata table with the key style in two of its rows. *)
Definition table : Element :=
  Example.element "DIV" "section-metadata"
    [ElementNode (row "Style" "dark");
     ElementNode (row " style " "Light");
     ElementNode (row "Grid" "3")].

End Example5.

Module Example4.

(** [<div class="section"><p></p><div class="hero"></div></div>] *)
Definition section : Element :=
  Example.element "DIV" "section"
    [ElementNode (Example.element "P" "" []); ElementNode Example.hero].

Definition background (value : string) : Entry :=
  mkEntry (Example5.cell value) value.

End Example4.

Module Example10.

Definition metadata : Element :=
  Example.element "DIV" "section-metadata"
    [ElementNode (Example5.row "Style" "dark, wide");
     ElementNode (Example5.row "Background" "rgb(0, 0, 0)");
     ElementNode (Example5.row "Theme" "ocean")].

(** The metadata table in a [div] that has not become a section. *)
Definition loose : Element :=
  Example.element "MAIN" ""
    [ElementNode (Example.element "DIV" ""
                    [ElementNode Example.paragraph; ElementNode metadata])].

(** The metadata table in a section. *)
Definition decorated : Element :=
  Example.element "MAIN" ""
    [ElementNode (Example.element "DIV" "section"
                    [ElementNode Example.paragraph; ElementNode metadata])].

End Example10.

Module ExampleLinks.

Definition link (target : string) : Element :=
  setAttribute "href" target (Example.element "A" "" [TextNode "link"]).

(** The configuration of the script, with the locales that it keeps in a
    comment, on a page of the German locale. *)
Definition german : Config :=
  mkConfig ["localhost"; "helms-charity.hlx.page"]
           [""; "/de"; "/es"; "/fr"] "/de"
           [("fragment", "/fragments/"); ("youtube", "https://www.youtube")].

(** The configuration of the script as it is. *)
Definition shipped : Config :=
  mkConfig ["localhost"; "helms-charity.hlx.page"] [""] ""
           [("fragment", "/fragments/"); ("youtube", "https://www.youtube")].

(** A paragraph with four anchors. *)
Definition paragraph : Element :=
  Example.element "P" ""
    [ElementNode (link "https://www.youtube.com/watch?v=1");
     TextNode " and ";
     ElementNode (link "https://example.com/about");
     ElementNode (link "http://[broken");
     ElementNode (Example.element "SPAN" ""
                    [ElementNode (link "https://example.com/fragments/foo")])].

End ExampleLinks.

(** Block-like in the words of the specification: a generic container
    element carrying at least one class name. *)
Definition blockLike (child : Element) : bool :=
  isDiv child
  && (0 <? List.length (ClassList.tokens (className child)))%nat.

Module ExampleBlank.

(** [<div class=" ">x</div>]: a class attribute without a class name. *)
Definition blank : Element := Example.element "DIV" " " [TextNode "x"].

(** [<div><div class=" ">x</div></div>] *)
Definition section : Element := Example.element "DIV" "" [ElementNode blank].

End ExampleBlank.






Module ExampleLast.

(** A section with the table of the fifth example, which has the key
    style in two of its rows. *)
Definition section : Element :=
  Example.element "DIV" "section"
    [ElementNode Example.paragraph; ElementNode Example5.table].

Definition document : Element :=
  Example.element "MAIN" "" [ElementNode section].


End ExampleLast.

(** * Vocabulary of the further properties *)

(** Whether [moveAttributes] moves the attribute [name] of [from] when
    [names] is the list of attributes it goes through. *)
Definition isMoved (names : list string) (from : Element) (name : string)
  : bool :=
  existsb (String.eqb name) names
  && match getAttribute name from with
     | Some value => JS.truthy value
     | None => false
     end.

(** Lengths that do not grow along the list. *)
Fixpoint descending (l : list string) : Prop :=
  match l with
  | [] => True
  | x :: rest =>
      (forall y, In y rest -> String.length y <= String.length x)
      /\ descending rest
  end.

(** Between white space of a class attribute and a space: a tab, a line
    feed, a form feed or a carriage return. *)
Definition isBreak (c : ascii) : bool :=
  ClassList.isAsciiSpace c && negb (Ascii.eqb c " ").

Fixpoint hasBreak (s : string) : bool :=
  match s with
  | EmptyString => false
  | String c s' => isBreak c || hasBreak s'
  end.

(** The row from which an entry of the metadata object comes. *)
Definition filedFrom (el : Element) (key : string) (e : Entry) : Prop :=
  exists row cell0 cell1 more,
    In (ElementNode row) (childNodes el)
    /\ children row = cell0 :: cell1 :: more
    /\ key = JS.toLowerCase (JS.trim (textContent cell0))
    /\ content e = cell1
    /\ text e = JS.toLowerCase (JS.trim (textContent cell1)).

Section DataStep.

Context {P : Platform}.

(** The callback of [forEach] over the keys in [handleSectionMetadata]. *)
Definition dataStep (metadata : Metadata) (s : Element) (key : string)
  : Element :=
  if existsb (String.eqb key) specialKeys then s
  else match Assoc.get key metadata with
       | Some e => setDataset (toCamelCase key) (text e) s
       | None => s
       end.

End DataStep.

(** The elements below a list of nodes with the given tag name, in
    document order. *)
Definition descendantsTag (tag : string) (ns : list Node) : list Element :=
  flat_map (fun n => match n with
                     | TextNode _ => []
                     | ElementNode c =>
                         (if tagName (props c) =? tag then [c] else [])
                           ++ querySelectorAllTag tag c
                     end) ns.

(** The text of a list of nodes. *)
Fixpoint textOfNodes (ns : list Node) : string :=
  match ns with
  | [] => ""
  | TextNode s :: rest => (s ++ textOfNodes rest)%string
  | ElementNode c :: rest => (textContent c ++ textOfNodes rest)%string
  end.

(** What [a11yLinks] makes of a child node. *)
Definition labelNode (n : Node) : Node :=
  match n with
  | TextNode s => TextNode s
  | ElementNode c =>
      ElementNode (if tagName (props c) =? "A"
                   then setAttribute "aria-label"
                          (toAttributeValue (a11yLabel c)) (a11yLinks c)
                   else a11yLinks c)
  end.

(** What [updateFirstTag] makes of a list of child nodes. *)
Fixpoint updateFirstNode (tag : string) (f : Element -> Element)
  (ns : list Node) : option (list Node) :=
  match ns with
  | [] => None
  | TextNode s :: rest => option_map (cons (TextNode s)) (updateFirstNode tag f rest)
  | ElementNode c :: rest =>
      if tagName (props c) =? tag then Some (ElementNode (f c) :: rest)
      else match updateFirstTag tag f c with
           | Some c' => Some (ElementNode c' :: rest)
           | None =>
               option_map (cons (ElementNode c)) (updateFirstNode tag f rest)
           end
  end.

(** No character of the text is a hyphen. *)
Definition noHyphen (s : string) : bool :=
  allChars (fun c => negb (Ascii.eqb c "-")) s.

(** Induction over an element and the elements below it. *)
Fixpoint Element_induction (Q : Element -> Prop)
  (step : forall d ns,
      Forall (fun n => match n with
                       | TextNode _ => True
                       | ElementNode c => Q c
                       end) ns ->
      Q (mkElement d ns))
  (e : Element) : Q e :=
  match e with
  | mkElement d ns =>
      step d ns
        ((fix go (l : list Node)
           : Forall (fun n => match n with
                              | TextNode _ => True
                              | ElementNode c => Q c
                              end) l :=
            match l with
            | [] => Forall_nil _
            | n :: rest =>
                Forall_cons n
                  (match n return match n with
                                  | TextNode _ => True
                                  | ElementNode c => Q c
                                  end with
                   | TextNode _ => I
                   | ElementNode c => Element_induction Q step c
                   end)
                  (go rest)
            end) ns)
  end.

Module ExampleLocales.

(** The locales that the script keeps in a comment, and a nested one. *)
Definition locales : list (string * Locale) :=
  [("", mkLocale (Some "en")); ("/de", mkLocale (Some "de"));
   ("/de/ch", mkLocale (Some "de-CH")); ("/fr", mkLocale (Some "fr"))].

End ExampleLocales.

Module ExampleImages.

(** The section of the fourth example with a desktop background image. *)
Definition withPicture : Element :=
  match handleBackgroundImages (P := Reference.platform)
          (Some "https://www.example.com/d.png") None Example4.section with
  | Some section => section
  | None => Example4.section
  end.

End ExampleImages.

Module ExampleRefused.

(** A table whose style has two lines. *)
Definition table : Element :=
  Example.element "DIV" "section-metadata"
    [ElementNode
       (Example.element "DIV" ""
          [ElementNode (Example5.cell "Style");
           ElementNode
             (Example.element "DIV" ""
                [ElementNode (Example.element "P" "" [TextNode "dark"]);
                 TextNode (String "010"%char "");
                 ElementNode (Example.element "P" "" [TextNode "wide"])])]);
     ElementNode (Example5.row "Background" "rgb(0, 0, 0)")].

Definition section : Element :=
  Example.element "DIV" "section"
    [ElementNode Example.paragraph; ElementNode table].

Definition document : Element :=
  Example.element "MAIN" "" [ElementNode section].

End ExampleRefused.

Module ExampleLabels.

Definition icon (classes : string) : Node :=
  ElementNode (Example.element "SPAN" classes []).

Definition anchor (kids : list Node) : Element := Example.element "A" "" kids.

End ExampleLabels.

Module ExampleEager.

Definition hero : Element :=
  setAttribute "loading" "lazy"
    (setAttribute "src" "/hero.png" (Example.element "IMG" "" [])).

Definition logo : Element :=
  setAttribute "loading" "lazy"
    (setAttribute "src" "/logo.png" (Example.element "IMG" "" [])).

(** [<main><p>Hello</p><div><picture><img hero></picture></div>text<img logo></main>] *)
Definition area : Element :=
  Example.element "MAIN" ""
    [ElementNode Example.paragraph;
     ElementNode
       (Example.element "DIV" ""
          [ElementNode (Example.element "PICTURE" "" [ElementNode hero])]);
     TextNode "text";
     ElementNode logo].

End ExampleEager.

(** * Properties *)

(** ** Child grouper *)

Lemma lastGroup_snoc (gs : list Element) (g : Element) :
  lastGroup (gs ++ [g]) = Some g.
Proof.
  induction gs as [|g' gs IH]; [reflexivity|].
  simpl. destruct (gs ++ [g]) eqn:E; [destruct gs; discriminate|exact IH].
Qed.

Lemma appendToLast_snoc (c : Element) (gs : list Element) (g : Element) :
  appendToLast c (gs ++ [g]) = gs ++ [append c g].
Proof.
  induction gs as [|g' gs IH]; [reflexivity|].
  simpl. destruct (gs ++ [g]) eqn:E; [destruct gs; discriminate|].
  now rewrite <- IH.
Qed.

Lemma wrapper_snoc (b : bool) (ms : list Element) (c : Element) :
  append c (wrapper b ms) = wrapper b (ms ++ [c]).
Proof. unfold wrapper. now rewrite fold_left_app. Qed.

Lemma props_fold_append (ms : list Element) (w : Element) :
  props (fold_left (fun w child => append child w) ms w) = props w.
Proof. revert w. induction ms as [|m ms IH]; intro w; simpl; [easy|now rewrite IH]. Qed.

Lemma childNodes_fold_append (ms : list Element) (w : Element) :
  childNodes (fold_left (fun w child => append child w) ms w)
  = childNodes w ++ map ElementNode ms.
Proof.
  revert w. induction ms as [|m ms IH]; intro w; simpl.
  - now rewrite app_nil_r.
  - rewrite IH. simpl. now rewrite <- app_assoc.
Qed.

Lemma elementsOf_map (ms : list Element) : elementsOf (map ElementNode ms) = ms.
Proof. induction ms as [|m ms IH]; simpl; [easy|now rewrite IH]. Qed.

Lemma children_wrapper (b : bool) (ms : list Element) : children (wrapper b ms) = ms.
Proof.
  unfold children, wrapper. rewrite childNodes_fold_append. simpl.
  apply elementsOf_map.
Qed.

Lemma className_wrapper (b : bool) (ms : list Element) :
  className (wrapper b ms) = if b then "block-content" else "default-content".
Proof.
  unfold className, getAttribute, wrapper. rewrite props_fold_append.
  now destruct b.
Qed.

Lemma tagName_wrapper (b : bool) (ms : list Element) :
  tagName (props (wrapper b ms)) = "DIV".
Proof. unfold wrapper. now rewrite props_fold_append. Qed.

Lemma contains_block_wrapper (b : bool) (ms : list Element) :
  ClassList.contains "block-content" (wrapper b ms) = b.
Proof. unfold ClassList.contains. rewrite className_wrapper. now destruct b. Qed.

(** The loop of [groupChildren] continues the run it is in. *)
Lemma groupLoop_runsFrom (cs : list Element) :
  forall (gs : list Element) (b : bool) (cur : list Element),
    fold_left groupStep cs (gs ++ [wrapper b cur])
    = gs ++ map (fun run => wrapper (fst run) (snd run)) (runsFrom b cur cs).
Proof.
  induction cs as [|c cs IH]; intros gs b cur; [reflexivity|].
  cbn [fold_left runsFrom]. unfold groupStep at 2.
  rewrite lastGroup_snoc, contains_block_wrapper.
  destruct (Bool.eqb b (isDiv c)) eqn:E; cbn [negb].
  - rewrite appendToLast_snoc, wrapper_snoc. apply IH.
  - rewrite appendToLast_snoc.
    change (append c (setClassName _ (createElement "div")))
      with (wrapper (isDiv c) [c]).
    rewrite IH. now rewrite <- app_assoc.
Qed.

Lemma groupLoop_runs (cs : list Element) :
  fold_left groupStep cs []
  = map (fun run => wrapper (fst run) (snd run)) (runs cs).
Proof.
  destruct cs as [|c cs]; [reflexivity|].
  cbn [fold_left runs].
  change (groupStep [] c) with ([] ++ [wrapper (isDiv c) [c]]).
  apply groupLoop_runsFrom.
Qed.

Lemma length_runsFrom (cs : list Element) :
  forall b cur, List.length (runsFrom b cur cs) = changes b (map isDiv cs) + 1.
Proof.
  induction cs as [|c cs IH]; intros b cur; [reflexivity|].
  cbn [runsFrom map changes].
  destruct (Bool.eqb b (isDiv c)) eqn:E.
  - rewrite IH. apply Bool.eqb_prop in E. now subst.
  - cbn [List.length]. rewrite IH. lia.
Qed.

Lemma concat_runsFrom (cs : list Element) :
  forall b cur, List.concat (map snd (runsFrom b cur cs)) = cur ++ cs.
Proof.
  induction cs as [|c cs IH]; intros b cur; cbn [runsFrom].
  - simpl. now rewrite app_nil_r.
  - destruct (Bool.eqb b (isDiv c)).
    + rewrite IH. now rewrite <- app_assoc.
    + cbn [map List.concat snd]. now rewrite IH.
Qed.

(** Every run is not empty and its members agree with its classification. *)
Lemma runsFrom_uniform (cs : list Element) :
  forall b cur,
    cur <> [] -> forallb (fun c => Bool.eqb (isDiv c) b) cur = true ->
    Forall (fun run => snd run <> []
                       /\ forallb (fun c => Bool.eqb (isDiv c) (fst run)) (snd run)
                          = true)
           (runsFrom b cur cs).
Proof.
  induction cs as [|c cs IH]; intros b cur Hne Hall; cbn [runsFrom].
  - constructor; [now split|constructor].
  - destruct (Bool.eqb b (isDiv c)) eqn:E.
    + apply IH.
      * destruct cur; discriminate.
      * rewrite forallb_app, Hall. simpl.
        apply Bool.eqb_prop in E. subst b. now rewrite Bool.eqb_reflx.
    + constructor; [now split|].
      apply IH; [discriminate|]. simpl. now rewrite Bool.eqb_reflx.
Qed.

(** C1, as stated, fails: with a block followed by a [div] without class
    the block-like classification changes once, which would make two
    groups, and [groupChildren] returns one, a block-content wrapper with
    both children. *)
Lemma groupChildren_not_by_block_class :
  existsb isBlock (contentChildren Example.blockThenDiv) = true
  /\ transitions isBlock (contentChildren Example.blockThenDiv) + 1 = 2
  /\ groupChildren Example.blockThenDiv
     = [wrapper true [Example.hero; Example.plainDiv]]
  /\ List.length (groupChildren Example.blockThenDiv)
     <> transitions isBlock (contentChildren Example.blockThenDiv) + 1.
Proof. repeat split; try reflexivity. discriminate. Qed.

(** C1, amended: in a section with at least one block-like child (a [div]
    with a class), the loop classifies a child by its tag name alone, [div]
    or not: every group is a [div] wrapper that is not empty, whose class is
    block-content when its members are [div]s and default-content when they
    are not; the number of groups is the number of transitions of that
    classification plus one; the children of the groups, one group after the
    other, are the children of the section in their order. *)
Theorem groupChildren_groups_by_div (section : Element) :
  existsb isBlock (contentChildren section) = true ->
  List.length (groupChildren section)
  = transitions isDiv (contentChildren section) + 1
  /\ List.concat (map children (groupChildren section)) = contentChildren section
  /\ Forall (fun group =>
               tagName (props group) = "DIV"
               /\ children group <> []
               /\ exists block : bool,
                   className group
                   = (if block then "block-content" else "default-content")
                   /\ forallb (fun c => Bool.eqb (isDiv c) block) (children group)
                      = true)
            (groupChildren section).
Proof.
  intro Hblocks. unfold groupChildren. rewrite Hblocks. cbn [negb].
  destruct (contentChildren section) as [|c cs] eqn:Ecs; [discriminate|].
  cbn [List.length Nat.eqb]. rewrite groupLoop_runs. cbn [runs].
  split; [|split].
  - rewrite length_map, length_runsFrom. reflexivity.
  - rewrite map_map.
    rewrite (map_ext _ snd) by (intros [b ms]; apply children_wrapper).
    apply (concat_runsFrom cs (isDiv c) [c]).
  - apply Forall_map.
    assert (Hu := runsFrom_uniform cs (isDiv c) [c]).
    eapply Forall_impl; [|apply Hu; [discriminate|simpl; now rewrite Bool.eqb_reflx]].
    intros [b ms] [Hne Hall]. cbn [fst snd] in *.
    rewrite tagName_wrapper, children_wrapper, className_wrapper.
    split; [reflexivity|]. split; [assumption|]. now exists b.
Qed.

Lemma groupChildren_groups_by_div_witness :
  List.length (groupChildren Example.mixed)
  = transitions isDiv (contentChildren Example.mixed) + 1
  /\ List.concat (map children (groupChildren Example.mixed))
     = contentChildren Example.mixed
  /\ Forall (fun group =>
               tagName (props group) = "DIV"
               /\ children group <> []
               /\ exists block : bool,
                   className group
                   = (if block then "block-content" else "default-content")
                   /\ forallb (fun c => Bool.eqb (isDiv c) block) (children group)
                      = true)
            (groupChildren Example.mixed).
Proof. apply (groupChildren_groups_by_div Example.mixed). reflexivity. Defined.

(** C2, as stated, fails: the only child of the section is a [div] whose
    class attribute is a space; it carries no class name, so the section
    has a child and no block-like child, yet the class attribute is a
    truthy string and [groupChildren] returns a block-content wrapper, not
    a default-content one. *)
Lemma groupChildren_blank_class_block :
  contentChildren ExampleBlank.section = [ExampleBlank.blank]
  /\ ClassList.tokens (className ExampleBlank.blank) = []
  /\ existsb blockLike (contentChildren ExampleBlank.section) = false
  /\ groupChildren ExampleBlank.section
     = [wrapper true [ExampleBlank.blank]]
  /\ className (wrapper true [ExampleBlank.blank]) = "block-content"
  /\ forall w, groupChildren ExampleBlank.section = [w] ->
               className w <> "default-content".
Proof.
  repeat split. intros w [= <-]. discriminate.
Qed.

(** C2, amended: a section with children, none of them a [div] with a
    class attribute that is not empty, gets one default-content wrapper
    with all the children in their order; a section without children,
    metadata elements aside, gets no group. *)
Theorem groupChildren_without_blocks (section : Element) :
  (contentChildren section <> [] ->
   existsb isBlock (contentChildren section) = false ->
   exists w : Element,
     groupChildren section = [w]
     /\ className w = "default-content"
     /\ children w = contentChildren section)
  /\ (contentChildren section = [] -> groupChildren section = []).
Proof.
  unfold groupChildren. split.
  - intros Hne Hnone. rewrite Hnone. cbn [negb].
    destruct (contentChildren section) as [|c cs] eqn:Ecs; [contradiction|].
    cbn [List.length Nat.eqb].
    exists (wrapper false (c :: cs)). split; [reflexivity|].
    now rewrite className_wrapper, children_wrapper.
  - intro Hnil. now rewrite Hnil.
Qed.

Lemma groupChildren_without_blocks_witness :
  (exists w : Element,
     groupChildren Example.proseOnly = [w]
     /\ className w = "default-content"
     /\ children w = contentChildren Example.proseOnly)
  /\ groupChildren Example.metadataOnly = [].
Proof.
  split.
  - apply (proj1 (groupChildren_without_blocks Example.proseOnly));
      [discriminate|reflexivity].
  - apply (proj2 (groupChildren_without_blocks Example.metadataOnly)).
    reflexivity.
Defined.

(** ** Class lists *)

Module ClassListFacts.

Import ClassList.

Lemma mem_In (t : string) (l : list string) : mem t l = true <-> In t l.
Proof.
  unfold mem. rewrite existsb_exists. split.
  - intros [x [Hin Heq]]. apply String.eqb_eq in Heq. now subst.
  - intro Hin. exists t. split; [assumption|apply String.eqb_refl].
Qed.

Lemma mem_app (t : string) (l1 l2 : list string) :
  mem t (l1 ++ l2) = mem t l1 || mem t l2.
Proof. apply existsb_app. Qed.

Lemma validToken_cons (c : ascii) (t : string) :
  isAsciiSpace c = false -> (t = "" \/ validToken t = true) ->
  validToken (String c t) = true.
Proof.
  intros Hc [->|Ht]; unfold validToken in *; simpl; rewrite Hc; [reflexivity|].
  apply andb_true_iff in Ht. destruct Ht as [_ Ht]. simpl. exact Ht.
Qed.

Lemma pieces_valid (s : string) : Forall (fun t => validToken t = true) (pieces s).
Proof.
  induction s as [|c s IH]; [constructor|].
  cbn [pieces]. destruct (isAsciiSpace c) eqn:Ec; [exact IH|].
  destruct s as [|c' s'].
  - constructor; [|constructor]. apply validToken_cons; auto.
  - destruct (isAsciiSpace c') eqn:Ec'.
    + constructor; [|exact IH]. apply validToken_cons; auto.
    + destruct (pieces (String c' s')) as [|t rest].
      * constructor; [|constructor]. apply validToken_cons; auto.
      * inversion IH; subst. constructor; [|assumption].
        apply validToken_cons; auto.
Qed.

Lemma dedup_spec (l : list string) :
  forall seen,
    NoDup (dedup seen l)
    /\ (forall t, In t (dedup seen l) <-> In t l /\ ~ In t seen).
Proof.
  induction l as [|x l IH]; intro seen; cbn [dedup].
  - split; [constructor|]. intro t. simpl. tauto.
  - destruct (mem x seen) eqn:Ex.
    + destruct (IH seen) as [Hnd Hin]. split; [exact Hnd|].
      intro t. rewrite Hin. apply mem_In in Ex. simpl.
      split; [tauto|]. intros [[->|H] Hs]; [contradiction|tauto].
    + destruct (IH (x :: seen)) as [Hnd Hin].
      assert (Hx : ~ In x seen).
      { intro H. apply mem_In in H. congruence. }
      split.
      * constructor; [|exact Hnd]. rewrite Hin. simpl. tauto.
      * intro t. simpl. rewrite Hin. simpl.
        destruct (String.eqb_spec x t) as [->|Hne]; tauto.
Qed.

Lemma dedup_id (l : list string) :
  forall seen, NoDup l -> (forall t, In t l -> ~ In t seen) ->
               dedup seen l = l.
Proof.
  induction l as [|x l IH]; intros seen Hnd Hfresh; [reflexivity|].
  cbn [dedup]. inversion Hnd as [|? ? Hx Hnd']; subst.
  destruct (mem x seen) eqn:Ex.
  - apply mem_In in Ex. exfalso. apply (Hfresh x); [now left|assumption].
  - f_equal. apply IH; [assumption|].
    intros t Ht [<-|Hs]; [contradiction|].
    apply (Hfresh t); [now right|assumption].
Qed.

Lemma tokens_wellFormed (cls : string) : wellFormed (tokens cls).
Proof.
  unfold wellFormed, tokens. destruct (dedup_spec (pieces cls) []) as [Hnd Hin].
  split; [|exact Hnd].
  apply Forall_forall. intros t Ht. apply Hin in Ht. destruct Ht as [Ht _].
  revert t Ht. apply Forall_forall. apply pieces_valid.
Qed.

Lemma validToken_inv (t : string) :
  validToken t = true ->
  exists c t', t = String c t' /\ isAsciiSpace c = false
               /\ (t' = "" \/ validToken t' = true).
Proof.
  unfold validToken. destruct t as [|c t']; [discriminate|].
  simpl. intro H. apply negb_true_iff, orb_false_iff in H.
  destruct H as [Hc Ht]. exists c, t'. split; [reflexivity|]. split; [assumption|].
  destruct t' as [|c' t'']; [now left|right].
  unfold validToken. now rewrite Ht.
Qed.

(** A token in front of nothing or of a white space is the first piece. *)
Lemma pieces_token (t : string) :
  validToken t = true ->
  forall rest,
    (rest = "" \/ exists c r, rest = String c r /\ isAsciiSpace c = true) ->
    pieces (t ++ rest)%string = t :: pieces rest.
Proof.
  induction t as [|c t IH]; [discriminate|].
  intros Hv rest Hrest.
  apply validToken_inv in Hv. destruct Hv as [c0 [t0 [E [Hc Ht]]]].
  injection E as <- <-.
  cbn [String.append pieces]. rewrite Hc.
  destruct Ht as [->|Ht].
  - cbn [String.append].
    destruct Hrest as [->|[c' [r [-> Hc']]]]; [reflexivity|].
    now rewrite Hc'.
  - specialize (IH Ht rest Hrest).
    destruct (validToken_inv t Ht) as [c1 [t1 [-> [Hc1 _]]]].
    cbn [String.append] in *. rewrite Hc1. now rewrite IH.
Qed.

Lemma pieces_join (set : list string) :
  Forall (fun t => validToken t = true) set ->
  pieces (JS.join " " set) = set.
Proof.
  unfold JS.join. induction set as [|t set IH]; intro Hv; [reflexivity|].
  inversion Hv as [|? ? Ht Hset]; subst.
  cbn [String.concat]. destruct set as [|t' set'].
  - change (pieces t = t :: pieces "").
    rewrite <- (pieces_token t Ht "") by now left.
    f_equal. clear. induction t; simpl; [reflexivity|now f_equal].
  - rewrite pieces_token; [|assumption|right; now exists " "%char, (String.concat " " (t' :: set'))].
    f_equal. change (pieces (String " " (String.concat " " (t' :: set'))))
      with (pieces (String.concat " " (t' :: set'))).
    now apply IH.
Qed.

Lemma tokens_join (set : list string) :
  wellFormed set -> tokens (JS.join " " set) = set.
Proof.
  intros [Hv Hnd]. unfold tokens. rewrite pieces_join by assumption.
  apply dedup_id; [assumption|]. intros t _ [].
Qed.

Lemma className_setClassName (c : string) (e : Element) :
  className (setClassName c e) = c.
Proof.
  unfold className, setClassName, getAttribute, setAttribute, withProps.
  cbn [props attributes].
  induction (attributes (props e)) as [|[k v] l IH]; simpl.
  - reflexivity.
  - destruct (k =? "class") eqn:E; simpl.
    + reflexivity.
    + now rewrite E.
Qed.

(** The class list reads back the set that the update steps wrote. *)
Lemma tokens_update (set : list string) (e : Element) :
  wellFormed set -> tokens (className (update set e)) = set.
Proof.
  intro Hwf. unfold update.
  destruct (getAttribute "class" e) eqn:Ea.
  - rewrite className_setClassName. now apply tokens_join.
  - destruct set as [|t set'].
    + unfold className. now rewrite Ea.
    + rewrite className_setClassName. now apply tokens_join.
Qed.

Lemma addTokens_wellFormed (ts : list string) :
  forall set, Forall (fun t => validToken t = true) ts -> wellFormed set ->
              wellFormed (addTokens ts set).
Proof.
  induction ts as [|t ts IH]; intros set Hts Hset; [exact Hset|].
  inversion Hts as [|? ? Ht Hts']; subst. cbn [addTokens].
  apply IH; [assumption|]. destruct (mem t set) eqn:Em; [exact Hset|].
  destruct Hset as [Hv Hnd]. split.
  - apply Forall_app. split; [assumption|]. now constructor.
  - apply NoDup_app; [assumption|constructor; [intros []|constructor]|].
    intros x Hx [<-|[]]. apply mem_In in Hx. congruence.
Qed.

Lemma mem_addTokens (t : string) (ts : list string) :
  forall set, mem t (addTokens ts set) = mem t ts || mem t set.
Proof.
  induction ts as [|x ts IH]; intro set; [reflexivity|].
  cbn [addTokens]. rewrite IH. cbn [mem existsb].
  destruct (mem x set) eqn:Ex.
  - destruct (String.eqb_spec t x) as [->|Hne].
    + fold (mem x set). rewrite Ex. now rewrite orb_true_r.
    + reflexivity.
  - rewrite mem_app. cbn [mem existsb]. rewrite orb_false_r.
    fold (mem t ts). fold (mem t set).
    destruct (t =? x), (mem t ts), (mem t set); reflexivity.
Qed.

Lemma removeTokens_wellFormed (ts set : list string) :
  wellFormed set -> wellFormed (removeTokens ts set).
Proof.
  intros [Hv Hnd]. unfold removeTokens. split.
  - apply Forall_forall. intros t Ht. apply filter_In in Ht.
    destruct Ht as [Ht _]. revert t Ht. now apply Forall_forall.
  - now apply NoDup_filter.
Qed.

Lemma mem_removeTokens (t : string) (ts set : list string) :
  mem t (removeTokens ts set) = mem t set && negb (mem t ts).
Proof.
  unfold removeTokens. induction set as [|x set IH]; [reflexivity|].
  cbn [filter]. destruct (mem x ts) eqn:Ex; cbn [negb].
  - rewrite IH. cbn [mem existsb]. fold (mem t set).
    destruct (String.eqb_spec t x) as [->|Hne]; [|reflexivity].
    rewrite Ex. simpl. now rewrite andb_false_r.
  - cbn [mem existsb]. fold (mem t (filter (fun t0 => negb (mem t0 ts)) set)).
    fold (mem t set). rewrite IH.
    destruct (String.eqb_spec t x) as [->|Hne]; [|reflexivity].
    now rewrite Ex.
Qed.

(** The class list after [add]: the tokens it had, then the new ones. *)
Lemma tokens_put (ts : list string) (e : Element) :
  Forall (fun t => validToken t = true) ts ->
  tokens (className (put ts e)) = addTokens ts (tokens (className e)).
Proof.
  intro Hts. unfold put. apply tokens_update.
  apply addTokens_wellFormed; [assumption|apply tokens_wellFormed].
Qed.

Lemma tokens_discard (ts : list string) (e : Element) :
  tokens (className (discard ts e)) = removeTokens ts (tokens (className e)).
Proof.
  unfold discard. apply tokens_update.
  apply removeTokens_wellFormed, tokens_wellFormed.
Qed.

Lemma contains_put (t : string) (ts : list string) (e : Element) :
  Forall (fun t => validToken t = true) ts ->
  contains t (put ts e) = mem t ts || contains t e.
Proof.
  intro Hts. unfold contains. rewrite tokens_put by assumption.
  apply mem_addTokens.
Qed.


End ClassListFacts.

(** ** Colour scheme analyser *)

Lemma append_assoc (s1 s2 s3 : string) :
  (s1 ++ (s2 ++ s3))%string = ((s1 ++ s2) ++ s3)%string.
Proof. induction s1 as [|c s1 IH]; simpl; [reflexivity|now rewrite IH]. Qed.

Lemma append_empty (s : string) : (s ++ "")%string = s.
Proof. induction s as [|c s IH]; simpl; [reflexivity|now rewrite IH]. Qed.

Lemma startsWith_app (p s : string) : JS.startsWith (p ++ s)%string p = true.
Proof.
  unfold JS.startsWith. induction p as [|c p IH]; cbn [String.append].
  - now destruct s.
  - cbn [String.prefix]. destruct (ascii_dec c c); [exact IH|contradiction].
Qed.

Module RgbRegexFacts.

Import RgbRegex.

Lemma startsWith_split (p s : string) :
  JS.startsWith s p = true -> s = (p ++ JS.drop (String.length p) s)%string.
Proof.
  unfold JS.startsWith. revert s.
  induction p as [|c p IH]; intros s H; [reflexivity|].
  destruct s as [|c' s']; [discriminate|].
  cbn [String.prefix] in H. destruct (ascii_dec c c') as [<-|]; [|discriminate].
  cbn [String.append String.length JS.drop]. f_equal. now apply IH.
Qed.

Lemma digit_not_space (c : ascii) :
  JS.isDigit c = true -> JS.isWhiteSpace c = false.
Proof.
  unfold JS.isDigit, JS.isWhiteSpace. generalize (nat_of_ascii c). intros n H.
  apply andb_true_iff in H. destruct H as [H1 H2].
  apply Nat.leb_le in H1. apply Nat.leb_le in H2.
  apply orb_false_iff. split; [apply orb_false_iff; split|].
  - apply andb_false_iff. right. apply Nat.leb_gt. lia.
  - apply Nat.eqb_neq. lia.
  - apply Nat.eqb_neq. lia.
Qed.

Lemma digits_sound (s : string) :
  forall d rest, digits s = (d, rest) ->
                 s = (d ++ rest)%string /\ allChars JS.isDigit d = true.
Proof.
  induction s as [|c s IH]; intros d rest H; cbn [digits] in H.
  - injection H as <- <-. now split.
  - destruct (JS.isDigit c) eqn:Ec.
    + destruct (digits s) as [d' rest'] eqn:Ed. injection H as <- <-.
      destruct (IH d' rest' eq_refl) as [-> Hd]. split; [reflexivity|].
      unfold allChars in *. simpl. now rewrite Ec.
    + injection H as <- <-. now split.
Qed.

Lemma digits_complete (d rest : string) :
  allChars JS.isDigit d = true -> stopsAt JS.isDigit rest ->
  digits (d ++ rest)%string = (d, rest).
Proof.
  unfold allChars. induction d as [|c d IH]; intros Hd Hrest.
  - cbn [String.append]. destruct rest as [|c r]; [reflexivity|].
    cbn [digits]. simpl in Hrest. now rewrite Hrest.
  - simpl in Hd. apply andb_true_iff in Hd. destruct Hd as [Hc Hd].
    cbn [String.append digits]. rewrite Hc. now rewrite IH.
Qed.

Lemma spaces_sound (s : string) :
  exists w, s = (w ++ spaces s)%string /\ allChars JS.isWhiteSpace w = true.
Proof.
  unfold spaces. induction s as [|c s [w [IH Hw]]].
  - now exists "".
  - cbn [JS.trimStart]. destruct (JS.isWhiteSpace c) eqn:Ec.
    + exists (String c w). cbn [String.append]. split; [now f_equal|].
      unfold allChars in *. simpl. now rewrite Ec.
    + now exists "".
Qed.

Lemma spaces_complete (w rest : string) :
  allChars JS.isWhiteSpace w = true -> stopsAt JS.isWhiteSpace rest ->
  spaces (w ++ rest)%string = rest.
Proof.
  unfold allChars, spaces. induction w as [|c w IH]; intros Hw Hrest.
  - cbn [String.append]. destruct rest as [|c r]; [reflexivity|].
    cbn [JS.trimStart]. simpl in Hrest. now rewrite Hrest.
  - simpl in Hw. apply andb_true_iff in Hw. destruct Hw as [Hc Hw].
    cbn [String.append JS.trimStart]. rewrite Hc. now apply IH.
Qed.

Lemma expect_sound (c : ascii) (s rest : string) :
  expect c s = Some rest -> s = String c rest.
Proof.
  destruct s as [|c' s']; [discriminate|]. cbn [expect].
  destruct (Ascii.eqb_spec c c') as [<-|]; [|discriminate].
  now intros [= <-].
Qed.

Lemma digits_then (d : string) (c : ascii) (rest : string) :
  d <> "" -> allChars JS.isDigit d = true ->
  stopsAt JS.isWhiteSpace (d ++ String c rest)%string.
Proof.
  destruct d as [|c0 d]; [contradiction|]. intros _ H.
  unfold allChars in H. simpl in H. apply andb_true_iff in H.
  simpl. now apply digit_not_space.
Qed.

Lemma matchHere_sound (s d1 d2 d3 : string) :
  matchHere s = Some (d1, d2, d3) -> rgbFormIn s d1 d2 d3.
Proof.
  unfold matchHere. destruct (JS.startsWith s "rgb(") eqn:Ep; [|discriminate].
  apply startsWith_split in Ep. cbn [String.length] in Ep.
  destruct (digits (JS.drop 4 s)) as [x1 s1] eqn:E1.
  destruct (x1 =? "") eqn:N1; [discriminate|].
  destruct (expect "," s1) as [s1'|] eqn:X1; [|discriminate].
  destruct (digits (spaces s1')) as [x2 s2] eqn:E2.
  destruct (x2 =? "") eqn:N2; [discriminate|].
  destruct (expect "," s2) as [s2'|] eqn:X2; [|discriminate].
  destruct (digits (spaces s2')) as [x3 s3] eqn:E3.
  destruct (x3 =? "") eqn:N3; [discriminate|].
  destruct (expect ")" s3) as [post|] eqn:X3; [|discriminate].
  intros [= <- <- <-].
  apply digits_sound in E1, E2, E3.
  destruct E1 as [E1 D1], E2 as [E2 D2], E3 as [E3 D3].
  apply expect_sound in X1, X2, X3. subst s1 s2 s3.
  destruct (spaces_sound s1') as [w1 [W1 HW1]].
  destruct (spaces_sound s2') as [w2 [W2 HW2]].
  exists "", w1, w2, post.
  apply String.eqb_neq in N1, N2, N3.
  repeat split; try assumption.
  rewrite Ep, E1, W1, E2, W2, E3. unfold rgbText. cbn [String.append].
  repeat (rewrite <- ?append_assoc; cbn [String.append]).
  reflexivity.
Qed.

Lemma matchHere_complete (d1 w1 d2 w2 d3 post : string) :
  d1 <> "" -> d2 <> "" -> d3 <> "" ->
  allChars JS.isDigit d1 = true -> allChars JS.isDigit d2 = true ->
  allChars JS.isDigit d3 = true ->
  allChars JS.isWhiteSpace w1 = true -> allChars JS.isWhiteSpace w2 = true ->
  matchHere (rgbText d1 w1 d2 w2 d3 ++ post)%string = Some (d1, d2, d3).
Proof.
  intros N1 N2 N3 D1 D2 D3 W1 W2. unfold rgbText, matchHere.
  repeat (rewrite <- ?append_assoc; cbn [String.append]).
  match goal with
  | |- context [JS.startsWith ?x "rgb("] =>
      replace (JS.startsWith x "rgb(") with true
        by (symmetry; apply (startsWith_app "rgb("))
  end.
  cbn [JS.drop].
  rewrite digits_complete; [|assumption|reflexivity].
  apply String.eqb_neq in N1 as B1. rewrite B1. cbn [expect Ascii.eqb Bool.eqb].
  rewrite spaces_complete; [|assumption|now apply digits_then].
  rewrite digits_complete; [|assumption|reflexivity].
  apply String.eqb_neq in N2 as B2. rewrite B2. cbn [expect Ascii.eqb Bool.eqb].
  rewrite spaces_complete; [|assumption|now apply digits_then].
  rewrite digits_complete; [|assumption|reflexivity].
  apply String.eqb_neq in N3 as B3. rewrite B3. cbn [expect Ascii.eqb Bool.eqb].
  reflexivity.
Qed.

Lemma exec_sound (s d1 d2 d3 : string) :
  exec s = Some (d1, d2, d3) -> rgbFormIn s d1 d2 d3.
Proof.
  induction s as [|c s IH]; cbn [exec].
  - destruct (matchHere "") as [[[x1 x2] x3]|] eqn:E; [|discriminate].
    intros [= <- <- <-]. now apply matchHere_sound.
  - destruct (matchHere (String c s)) as [[[x1 x2] x3]|] eqn:E.
    + intros [= <- <- <-]. now apply matchHere_sound.
    + intro H. destruct (IH H) as [pre [w1 [w2 [post [-> Hrest]]]]].
      now exists (String c pre), w1, w2, post.
Qed.

Lemma exec_here (s : string) (m : string * string * string) :
  matchHere s = Some m -> exec s = Some m.
Proof. intro H. destruct s; cbn [exec]; now rewrite H. Qed.

Lemma exec_complete (s : string) :
  containsRgbForm s -> exists m, exec s = Some m.
Proof.
  intros [d1 [d2 [d3 [pre [w1 [w2 [post [-> H]]]]]]]].
  destruct H as [N1 [N2 [N3 [D1 [D2 [D3 [W1 W2]]]]]]].
  assert (Hm := matchHere_complete d1 w1 d2 w2 d3 post N1 N2 N3 D1 D2 D3 W1 W2).
  induction pre as [|c pre IH].
  - cbn [String.append]. exists (d1, d2, d3).
    destruct (rgbText d1 w1 d2 w2 d3 ++ post)%string; cbn [exec]; now rewrite Hm.
  - cbn [String.append exec].
    destruct (matchHere (String c (pre ++ rgbText d1 w1 d2 w2 d3 ++ post)));
      [eexists; reflexivity|exact IH].
Qed.

End RgbRegexFacts.

Section ColorSchemeFacts.

Context {P : Platform}.

(** C3: when the computed background contains an [rgb(r,g,b)] form, the
    scheme is light exactly when the relative luminance of the leftmost
    such colour, by the sRGB formula, exceeds 0.5, and dark otherwise;
    white is light (the platform raising 1 to 2.4 gives 1), black is
    dark; without such a form the result is [null] and [setColorScheme]
    changes nothing. *)
Theorem getColorScheme_by_luminance (section : Element) :
  let linear (c : float) : float :=
    (if c <=? 0.03928 then c / 12.92 else pow ((c + 0.055) / 1.055) 2.4)%float in
  let luminance (red green blue : float) : float :=
    (0.2126 * linear (red / 255) + 0.7152 * linear (green / 255)
     + 0.0722 * linear (blue / 255))%float in
  (containsRgbForm (computedBackground section) ->
   exists d1 d2 d3 : string,
     rgbFormIn (computedBackground section) d1 d2 d3
     /\ getColorScheme section
        = Some (if (0.5 <? luminance (parseInt10 d1) (parseInt10 d2)
                                     (parseInt10 d3))%float
                then lightScheme else darkScheme))
  /\ (~ containsRgbForm (computedBackground section) ->
      getColorScheme section = None /\ setColorScheme section = section)
  /\ (forall rest : string,
        computedBackground section = ("rgb(255, 255, 255)" ++ rest)%string ->
        pow 1 2.4 = 1%float ->
        getColorScheme section = Some lightScheme)
  /\ (forall rest : string,
        computedBackground section = ("rgb(0, 0, 0)" ++ rest)%string ->
        getColorScheme section = Some darkScheme).
Proof.
  intros linear luminance. repeat split.
  - intro Hform. apply RgbRegexFacts.exec_complete in Hform.
    destruct Hform as [[[d1 d2] d3] Hexec].
    exists d1, d2, d3. split; [now apply RgbRegexFacts.exec_sound|].
    unfold getColorScheme, parseColor. now rewrite Hexec.
  - unfold getColorScheme, parseColor.
    destruct (RgbRegex.exec (computedBackground section))
      as [[[d1 d2] d3]|] eqn:Hexec; [|reflexivity].
    exfalso. apply H. exists d1, d2, d3. now apply RgbRegexFacts.exec_sound.
  - unfold setColorScheme, getColorScheme, parseColor.
    destruct (RgbRegex.exec (computedBackground section))
      as [[[d1 d2] d3]|] eqn:Hexec; [|reflexivity].
    exfalso. apply H. exists d1, d2, d3. now apply RgbRegexFacts.exec_sound.
  - intros rest Hbg Hpow. unfold getColorScheme, parseColor. rewrite Hbg.
    rewrite (RgbRegexFacts.exec_here _ ("255", "255", "255"))
      by (apply (RgbRegexFacts.matchHere_complete "255" " " "255" " " "255");
          (discriminate || reflexivity)).
    unfold getRelativeLuminance, linearize. cbn [r g b].
    change (parseInt10 "255" / 255)%float with 1%float.
    change (1 <=? 0.03928)%float with false.
    change ((1 + 0.055) / 1.055)%float with 1%float.
    rewrite Hpow. reflexivity.
  - intros rest Hbg. unfold getColorScheme, parseColor. rewrite Hbg.
    rewrite (RgbRegexFacts.exec_here _ ("0", "0", "0"))
      by (apply (RgbRegexFacts.matchHere_complete "0" " " "0" " " "0");
          (discriminate || reflexivity)).
    reflexivity.
Qed.

End ColorSchemeFacts.

Section ColorSchemeExamples.

#[local] Existing Instance Reference.platform.

Lemma getColorScheme_by_luminance_witness :
  getColorScheme (Example3.painted "rgb(255, 255, 255)") = Some lightScheme
  /\ getColorScheme (Example3.painted "rgb(0, 0, 0)") = Some darkScheme
  /\ (getColorScheme (Example3.painted "transparent") = None
      /\ setColorScheme (Example3.painted "transparent")
         = Example3.painted "transparent").
Proof.
  split; [|split].
  - eapply (proj1 (proj2 (proj2 (getColorScheme_by_luminance
                                   (Example3.painted "rgb(255, 255, 255)")))));
      reflexivity.
  - eapply (proj2 (proj2 (proj2 (getColorScheme_by_luminance
                                   (Example3.painted "rgb(0, 0, 0)")))));
      reflexivity.
  - apply (proj1 (proj2 (getColorScheme_by_luminance
                           (Example3.painted "transparent")))).
    intro H. apply RgbRegexFacts.exec_complete in H.
    destruct H as [m H]. discriminate H.
Defined.

End ColorSchemeExamples.

(** ** Section metadata interpreter *)

Module AssocFacts.

Lemma get_set_same {V} (k : string) (v : V) (l : list (string * V)) :
  Assoc.get k (Assoc.set k v l) = Some v.
Proof.
  induction l as [|[k' v'] l IH]; cbn [Assoc.set Assoc.get].
  - now rewrite String.eqb_refl.
  - destruct (k' =? k) eqn:E; cbn [Assoc.get].
    + now rewrite String.eqb_refl.
    + now rewrite E.
Qed.

Lemma get_set_other {V} (k k' : string) (v : V) (l : list (string * V)) :
  k' <> k -> Assoc.get k (Assoc.set k' v l) = Assoc.get k l.
Proof.
  intro Hne. apply String.eqb_neq in Hne.
  induction l as [|[k0 v0] l IH]; cbn [Assoc.set Assoc.get].
  - now rewrite Hne.
  - destruct (k0 =? k') eqn:E; cbn [Assoc.get].
    + apply String.eqb_eq in E. subst k0. now rewrite Hne.
    + now rewrite IH.
Qed.

End AssocFacts.

Lemma truthy_true (s : string) : s <> "" -> JS.truthy s = true.
Proof. intro H. unfold JS.truthy. apply String.eqb_neq in H. now rewrite H. Qed.




(** A row that is filed under another key, or not filed, leaves the entry
    of [key] alone. *)
Lemma metadataStep_other (key : string) (rdx : Metadata) (row : Node) :
  rowKey row <> Some key ->
  Assoc.get key (metadataStep rdx row) = Assoc.get key rdx.
Proof.
  unfold rowKey, metadataStep. destruct row as [s|rowEl]; [reflexivity|].
  destruct (children rowEl) as [|cell0 [|cell1 more]]; try reflexivity.
  destruct (JS.truthy (JS.toLowerCase (JS.trim (textContent cell0))));
    [|reflexivity].
  intro Hne. unfold objectSet.
  destruct (_ =? "__proto__"); [reflexivity|].
  apply AssocFacts.get_set_other. congruence.
Qed.

Lemma metadata_fold_other (key : string) (rows : list Node) :
  forall rdx,
    (forall row, In row rows -> rowKey row <> Some key) ->
    Assoc.get key (fold_left metadataStep rows rdx) = Assoc.get key rdx.
Proof.
  induction rows as [|row rows IH]; intros rdx Hrows; [reflexivity|].
  cbn [fold_left]. rewrite IH.
  - apply metadataStep_other. apply Hrows. now left.
  - intros r Hr. apply Hrows. now right.
Qed.


Section BackgroundFacts.

Context {P : Platform}.

Lemma getColorScheme_cases (section : Element) (scheme : string) :
  getColorScheme section = Some scheme ->
  scheme = lightScheme \/ scheme = darkScheme.
Proof.
  unfold getColorScheme. destruct (parseColor section) as [rgb|]; [|discriminate].
  destruct (0.5 <? getRelativeLuminance rgb)%float; intros [= <-]; auto.
Qed.



End BackgroundFacts.

Section BackgroundExamples.

#[local] Existing Instance Reference.platform.



End BackgroundExamples.

(** *** Elements outside a section *)

Lemma closestSection_none (el : Path) :
  forall doc : Element,
    (forall q rest e, el = q ++ rest -> elementAt q doc = Some e ->
                      ClassList.contains "section" e = false) ->
    closestSection el doc = None.
Proof.
  induction el as [|i el IH]; intros doc Hnone.
  - cbn [closestSection]. now rewrite (Hnone [] [] doc eq_refl eq_refl).
  - cbn [closestSection]. rewrite (Hnone [] (i :: el) doc eq_refl eq_refl).
    destruct (nth_error (childNodes doc) i) as [[s|c]|] eqn:Ei; try reflexivity.
    rewrite IH; [reflexivity|].
    intros q rest e -> He. apply (Hnone (i :: q) rest e); [reflexivity|].
    cbn [elementAt]. now rewrite Ei.
Qed.

Lemma closestSection_some (el : Path) :
  forall (doc : Element) (sp rel : Path),
    closestSection el doc = Some (sp, rel) ->
    el = sp ++ rel
    /\ exists e, elementAt sp doc = Some e
                 /\ ClassList.contains "section" e = true.
Proof.
  induction el as [|i el IH]; intros doc sp rel; cbn [closestSection].
  - destruct (ClassList.contains "section" doc) eqn:Ec; [|discriminate].
    intros [= <- <-]. split; [reflexivity|]. now exists doc.
  - assert (Hhere : (if ClassList.contains "section" doc
                     then Some ([], i :: el) else None) = Some (sp, rel) ->
                    i :: el = sp ++ rel
                    /\ exists e, elementAt sp doc = Some e
                                 /\ ClassList.contains "section" e = true).
    { destruct (ClassList.contains "section" doc) eqn:Ec; [|discriminate].
      intros [= <- <-]. split; [reflexivity|]. now exists doc. }
    destruct (nth_error (childNodes doc) i) as [[s|c]|] eqn:Ei; try exact Hhere.
    destruct (closestSection el c) as [[sp' rel']|] eqn:Ecl; [|exact Hhere].
    intros [= <- <-]. destruct (IH c sp' rel' Ecl) as [-> [e [He Hc]]].
    split; [reflexivity|]. exists e. cbn [elementAt]. rewrite Ei. now split.
Qed.

Section SectionMetadataFacts.

Context {P : Platform}.

(** C10: for an element without an enclosing element of class section,
    itself included, [handleSectionMetadata] returns the document as it
    got it: nothing is changed and the element is not removed; whenever the
    document is not returned as it was, an enclosing section exists. *)
Theorem handleSectionMetadata_outside_section (doc : Element) (el : Path) :
  ((forall q rest e, el = q ++ rest -> elementAt q doc = Some e ->
                     ClassList.contains "section" e = false) ->
   handleSectionMetadata doc el = Fulfilled doc)
  /\ (handleSectionMetadata doc el <> Fulfilled doc ->
      exists q rest e, el = q ++ rest /\ elementAt q doc = Some e
                       /\ ClassList.contains "section" e = true).
Proof.
  split.
  - intro Hnone. unfold handleSectionMetadata.
    now rewrite (closestSection_none el doc Hnone).
  - unfold handleSectionMetadata.
    destruct (closestSection el doc) as [[sp rel]|] eqn:Ecl;
      [|intro H; now contradiction H].
    intros _. destruct (closestSection_some el doc sp rel Ecl) as [-> [e He]].
    now exists sp, rel, e.
Qed.

End SectionMetadataFacts.

Section SectionMetadataExamples.

#[local] Existing Instance Reference.platform.

Lemma handleSectionMetadata_outside_section_witness :
  handleSectionMetadata Example10.loose [0; 1] = Fulfilled Example10.loose
  /\ exists q rest e,
      [0; 1] = q ++ rest /\ elementAt q Example10.decorated = Some e
      /\ ClassList.contains "section" e = true.
Proof.
  split.
  - apply (proj1 (handleSectionMetadata_outside_section Example10.loose [0; 1])).
    intros q rest e Hq He.
    destruct q as [|i [|j [|k q]]]; cbn in Hq; inversion Hq; subst;
      cbn in He; inversion He; reflexivity.
  - apply (proj2 (handleSectionMetadata_outside_section
                    Example10.decorated [0; 1])).
    intro H. vm_compute in H. discriminate H.
Defined.

(** On the normal path the section is decorated and the table removed. *)
Example handleSectionMetadata_in_section :
  handleSectionMetadata Example10.decorated [0; 1]
  = Fulfilled
      (Example.element "MAIN" ""
         [ElementNode
            (mkElement
               (mkData "DIV" [("class", "section dark wide")]
                       [("background", "rgb(0, 0, 0)")] [("theme", "ocean")])
               [ElementNode (Example.element "P" "dark-scheme"
                                             [TextNode "Hello"])])]).
Proof. reflexivity. Qed.

End SectionMetadataExamples.

(** ** Link decorator *)

Lemma getAttribute_setAttribute_other (name other value : string) (e : Element) :
  other <> name ->
  getAttribute name (setAttribute other value e) = getAttribute name e.
Proof.
  intro Hne. unfold getAttribute, setAttribute, withProps. cbn [props attributes].
  now apply AssocFacts.get_set_other.
Qed.

Lemma getAttribute_setAttribute_same (name value : string) (e : Element) :
  getAttribute name (setAttribute name value e) = Some value.
Proof.
  unfold getAttribute, setAttribute, withProps. cbn [props attributes].
  apply AssocFacts.get_set_same.
Qed.

(** [classList.add] writes the class attribute and no other. *)
Lemma getAttribute_put (name : string) (ts : list string) (e : Element) :
  name <> "class" ->
  getAttribute name (ClassList.put ts e) = getAttribute name e.
Proof.
  intro Hne. unfold ClassList.put, ClassList.update.
  destruct (getAttribute "class" e), (ClassList.addTokens ts _);
    try reflexivity; apply getAttribute_setAttribute_other; congruence.
Qed.

Lemma forallb_of_Forall {A} (p : A -> bool) (l : list A) :
  Forall (fun x => p x = true) l -> forallb p l = true.
Proof.
  intro H. apply forallb_forall. now apply Forall_forall.
Qed.

Lemma collectWidget_fold `{P : Platform} (config : Config) (anchors : list Element) :
  forall acc,
    fold_left (collectWidget config) anchors acc
    = acc ++ map anchor (filter isWidget (map (decorateLink config) anchors)).
Proof.
  induction anchors as [|a anchors IH]; intro acc; cbn [fold_left map filter].
  - now rewrite app_nil_r.
  - rewrite IH. unfold collectWidget.
    destruct (isWidget (decorateLink config a)); [|reflexivity].
    cbn [map]. now rewrite <- app_assoc.
Qed.

Lemma firstWidget_first `{P : Platform} (href0 key value : string)
  (before after : list (string * string)) :
  Forall (fun pattern => JS.includes href0 (snd pattern) = false) before ->
  JS.includes href0 value = true ->
  firstWidget href0 (before ++ (key, value) :: after) = Some key.
Proof.
  intros Hbefore Hvalue. induction before as [|[k v] before IH];
    cbn [app firstWidget].
  - now rewrite Hvalue.
  - inversion Hbefore as [|? ? Hv Hrest]; subst. cbn [snd] in Hv.
    rewrite Hv. now apply IH.
Qed.

Lemma firstWidget_none `{P : Platform} (href0 : string)
  (patterns : list (string * string)) :
  Forall (fun pattern => JS.includes href0 (snd pattern) = false) patterns ->
  firstWidget href0 patterns = None.
Proof.
  induction patterns as [|[k v] patterns IH]; intro H; [reflexivity|].
  inversion H as [|? ? Hv Hrest]; subst. cbn [snd] in Hv.
  cbn [firstWidget]. rewrite Hv. now apply IH.
Qed.

Lemma firstWidget_some `{P : Platform} (href0 key : string)
  (patterns : list (string * string)) :
  firstWidget href0 patterns = Some key ->
  exists value, In (key, value) patterns /\ JS.includes href0 value = true.
Proof.
  induction patterns as [|[k v] patterns IH]; [discriminate|].
  cbn [firstWidget]. destruct (JS.includes href0 v) eqn:Ev.
  - intros [= <-]. exists v. split; [now left|assumption].
  - intro H. destruct (IH H) as [value [Hin Hinc]].
    exists value. split; [now right|assumption].
Qed.

Lemma decorateHash_dnb `{P : Platform} (a : Element) (url : URL) :
  snd (decorateHash a url) = doNotBlock url.
Proof.
  unfold decorateHash, doNotBlock, findHash.
  destruct (JS.truthy (hash url)); [|reflexivity].
  destruct (hash url =? "#"); reflexivity.
Qed.

Lemma prepareLink_dnb `{P : Platform} (config : Config) (a a' : Element)
  (url : URL) (dnb : bool) :
  prepareLink config a url = Ready a' dnb -> dnb = doNotBlock url.
Proof.
  unfold prepareLink.
  match goal with
  | |- context [decorateHash ?x url] =>
      pose proof (decorateHash_dnb x url) as Hdnb;
      destruct (decorateHash x url) as [[a2 dnt] dnb2]
  end.
  cbn [snd] in Hdnb. subst dnb2.
  destruct dnt; [now intros [= _ <-]|].
  destruct (localizeUrl config url); try discriminate; now intros [= _ <-].
Qed.

Section LinkFacts.

Context {P : Platform}.

(** C9: an anchor whose href does not parse is left as it is, href, target
    and classes; the failure is logged and [null] returned; the pass goes on
    over the other anchors and its result holds no such anchor. *)
Theorem decorateLink_unparsable (config : Config) :
  (forall a : Element,
     URL_parse (getHref a) = None ->
     decorateLink config a = mkLinkResult a false couldNotDecorate)
  /\ (forall el : Element,
        List.length (decorateAnchors config el)
        = List.length (querySelectorAllTag "A" el)
        /\ forall widget,
            In widget (decorateLinks config el) ->
            exists a, In a (querySelectorAllTag "A" el)
                      /\ URL_parse (getHref a) <> None
                      /\ widget = anchor (decorateLink config a)).
Proof.
  split.
  - intros a Hparse. unfold decorateLink. now rewrite Hparse.
  - intro el. split; [apply length_map|].
    intros widget Hin. unfold decorateLinks in Hin.
    rewrite collectWidget_fold in Hin. cbn [app] in Hin.
    apply in_map_iff in Hin. destruct Hin as [result [<- Hres]].
    apply filter_In in Hres. destruct Hres as [Hres Hwidget].
    apply in_map_iff in Hres. destruct Hres as [a [<- Ha]].
    exists a. split; [assumption|]. split; [|reflexivity].
    intro Hparse. unfold decorateLink in Hwidget. rewrite Hparse in Hwidget.
    discriminate Hwidget.
Qed.

(** C8, amended: without the do-not-block directive the widget part takes
    the first pattern, in the order of the configuration, whose text the href
    includes: the class list of the anchor becomes the one it had with the
    key of that pattern and auto-block added, no other attribute changes,
    and the anchor is returned; no pattern matching, the anchor stays as it
    is and [null] is returned; with the directive nothing is tested.  The
    widget part receives the anchor when the href has parsed and
    [localizeUrl] has not thrown, and the directive is then the one of the
    fragment.  [decorateLinks] returns the anchors that [decorateLink]
    returned, in document order, and each of them carries auto-block and
    the key of a pattern that its href includes.  The keys are class names:
    tokens that [classList.add] accepts. *)
Theorem widget_classification (config : Config) :
  Forall (fun pattern => ClassList.validToken (fst pattern) = true)
         (widgets config) ->
  (forall (a : Element) (before after : list (string * string))
          (key value : string),
      widgets config = before ++ (key, value) :: after ->
      Forall (fun pattern => JS.includes (getHref a) (snd pattern) = false)
             before ->
      JS.includes (getHref a) value = true ->
      classifyWidget config false a
      = mkLinkResult (ClassList.put [key; "auto-block"] a) true []
      /\ ClassList.tokens (className (ClassList.put [key; "auto-block"] a))
         = ClassList.addTokens [key; "auto-block"]
             (ClassList.tokens (className a))
      /\ forall name, name <> "class" ->
                      getAttribute name (ClassList.put [key; "auto-block"] a)
                      = getAttribute name a)
  /\ (forall a : Element,
        Forall (fun pattern => JS.includes (getHref a) (snd pattern) = false)
               (widgets config) ->
        classifyWidget config false a = mkLinkResult a false [])
  /\ (forall a : Element, classifyWidget config true a = mkLinkResult a false [])
  /\ (forall (a a' : Element) (url : URL) (dnb : bool),
        URL_parse (getHref a) = Some url ->
        prepareLink config a url = Ready a' dnb ->
        dnb = doNotBlock url
        /\ decorateLink config a = classifyWidget config dnb a')
  /\ (forall el : Element,
        decorateLinks config el
        = map anchor
            (filter isWidget
               (map (decorateLink config) (querySelectorAllTag "A" el))))
  /\ (forall a : Element,
        isWidget (decorateLink config a) = true ->
        ClassList.contains "auto-block" (anchor (decorateLink config a)) = true
        /\ exists key value,
            In (key, value) (widgets config)
            /\ ClassList.contains key (anchor (decorateLink config a)) = true
            /\ JS.includes (getHref (anchor (decorateLink config a))) value
               = true).
Proof.
  intro Hkeys.
  assert (Hvalid : forall key value,
             In (key, value) (widgets config) ->
             Forall (fun t => ClassList.validToken t = true) [key; "auto-block"]).
  { intros key value Hin. rewrite Forall_forall in Hkeys.
    specialize (Hkeys _ Hin). repeat constructor. exact Hkeys. }
  assert (Hclass : forall a dnb,
             isWidget (classifyWidget config dnb a) = true ->
             exists key value,
               In (key, value) (widgets config)
               /\ JS.includes (getHref a) value = true
               /\ anchor (classifyWidget config dnb a)
                  = ClassList.put [key; "auto-block"] a).
  { intros a dnb. unfold classifyWidget. destruct dnb; [discriminate|].
    destruct (firstWidget (getHref a) (widgets config)) as [key|] eqn:Ef;
      [|discriminate].
    destruct (firstWidget_some _ _ _ Ef) as [value [Hin Hinc]].
    unfold ClassList.add.
    assert (Hv := Hvalid key value Hin). apply forallb_of_Forall in Hv.
    rewrite Hv. intros _. now exists key, value. }
  split; [|split; [|split; [|split; [|split]]]].
  - intros a before after key value Hw Hbefore Hvalue.
    assert (Hv : Forall (fun t => ClassList.validToken t = true)
                        [key; "auto-block"]).
    { apply (Hvalid key value). rewrite Hw. apply in_elt. }
    split; [|split].
    + unfold classifyWidget. rewrite Hw.
      rewrite (firstWidget_first _ _ _ _ _ Hbefore Hvalue).
      unfold ClassList.add. apply forallb_of_Forall in Hv. now rewrite Hv.
    + now apply ClassListFacts.tokens_put.
    + intros name Hname. now apply getAttribute_put.
  - intros a Hnone. unfold classifyWidget. now rewrite firstWidget_none.
  - reflexivity.
  - intros a a' url dnb Hparse Hready. split.
    + exact (prepareLink_dnb config a a' url dnb Hready).
    + unfold decorateLink. now rewrite Hparse, Hready.
  - intro el. unfold decorateLinks. now rewrite collectWidget_fold.
  - intros a Hwidget. unfold decorateLink in *.
    destruct (URL_parse (getHref a)) as [url|]; [|discriminate].
    destruct (prepareLink config a url) as [a' dnb|a']; [|discriminate].
    destruct (Hclass a' dnb Hwidget) as [key [value [Hin [Hinc Hanchor]]]].
    rewrite Hanchor. assert (Hv := Hvalid key value Hin). split.
    + rewrite ClassListFacts.contains_put by exact Hv.
      cbn [ClassList.mem existsb]. now rewrite String.eqb_refl, !orb_true_r.
    + exists key, value. split; [assumption|]. split.
      * rewrite ClassListFacts.contains_put by exact Hv.
        cbn [ClassList.mem existsb]. now rewrite String.eqb_refl.
      * unfold getHref in *. rewrite getAttribute_put by discriminate.
        exact Hinc.
Qed.

End LinkFacts.

Section LocalizationFacts.

Context {P : Platform}.

Lemma decorateHash_dnt (a : Element) (url : URL) :
  snd (fst (decorateHash a url)) = doNotTranslate url.
Proof.
  unfold decorateHash, doNotTranslate, findHash.
  destruct (JS.truthy (hash url)); [|reflexivity].
  destruct (hash url =? "#"); reflexivity.
Qed.

Lemma localizeUrl_prefixed (config : Config) (url : URL) :
  localePrefixed config url = true -> localizeUrl config url = NotLocalized.
Proof.
  unfold localePrefixed, localizeUrl. intro H.
  destruct (localePrefix config =? ""); [reflexivity|].
  destruct (JS.startsWith (pathname url) (localePrefix config ++ "/"));
    [reflexivity|].
  cbn [orb] in H. now rewrite H.
Qed.

Lemma localizeUrl_elsewhere (config : Config) (url : URL) :
  localePrefix config <> "" -> localePrefixed config url = false ->
  localizeUrl config url
  = match URL_parse (origin url ++ localePrefix config ++ pathname url
                       ++ search url ++ hash url)%string with
    | Some u => LocalizedTo u
    | None => LocalizeThrew
    end.
Proof.
  unfold localePrefixed, localizeUrl. intros Hroot H.
  apply String.eqb_neq in Hroot. rewrite Hroot.
  apply orb_false_iff in H. destruct H as [H1 H2]. now rewrite H1, H2.
Qed.

Lemma href_classifyWidget (config : Config) (dnb : bool) (a : Element) :
  getAttribute "href" (anchor (classifyWidget config dnb a))
  = getAttribute "href" a.
Proof.
  unfold classifyWidget. destruct dnb; [reflexivity|].
  destruct (firstWidget (getHref a) (widgets config)) as [key|]; [|reflexivity].
  unfold ClassList.add. destruct (forallb _ _); [|reflexivity].
  cbn [anchor]. now apply getAttribute_put.
Qed.

(** C6, amended: for an anchor whose href parses, in a locale that is not
    the root one, the href becomes the URL made of the origin, the locale
    prefix, the path, the query and the fragment exactly when the fragment
    does not carry #_dnt and the path starts neither with the prefix of the
    current locale nor with that of another configured one, and that URL
    parses; with #_dnt or with a prefixed path the decoration is the one of
    the root locale, in which no prefix is applied; when that URL does not
    parse the failure is logged, [null] is returned and the href is the one
    the root locale gives.  [decorateButtons] leaves the href alone. *)
Theorem decorateLink_localization (config : Config) (a : Element) (url : URL) :
  URL_parse (getHref a) = Some url ->
  localePrefix config <> "" ->
  (forall x, getAttribute "href" (decorateButtons x) = getAttribute "href" x) ->
  let rebuilt :=
    (origin url ++ localePrefix config ++ pathname url ++ search url
       ++ hash url)%string in
  (doNotTranslate url = false -> localePrefixed config url = false ->
   forall localized, URL_parse rebuilt = Some localized ->
     getAttribute "href" (anchor (decorateLink config a))
     = Some (href localized))
  /\ (doNotTranslate url = true \/ localePrefixed config url = true ->
      decorateLink config a = decorateLink (rootLocale config) a)
  /\ (doNotTranslate url = false -> localePrefixed config url = false ->
      URL_parse rebuilt = None ->
      isWidget (decorateLink config a) = false
      /\ logged (decorateLink config a) = couldNotDecorate
      /\ getAttribute "href" (anchor (decorateLink config a))
         = getAttribute "href" (anchor (decorateLink (rootLocale config) a))).
Proof.
  intros Hparse Hroot Hbuttons rebuilt.
  unfold decorateLink. rewrite Hparse. unfold prepareLink.
  change (hostnames (rootLocale config)) with (hostnames config).
  set (a1 := if existsb _ (hostnames config) then _ else a).
  pose proof (decorateHash_dnt a1 url) as Hdnt.
  destruct (decorateHash a1 url) as [[a2 dnt] dnb]. cbn [fst snd] in Hdnt.
  subst dnt.
  assert (Hrootloc : localizeUrl (rootLocale config) url = NotLocalized)
    by reflexivity.
  assert (Hrootwidget : forall d x, classifyWidget (rootLocale config) d x
                                    = classifyWidget config d x)
    by reflexivity.
  split; [|split].
  - intros Hnt Hnp localized Hloc. rewrite Hnt.
    rewrite (localizeUrl_elsewhere config url Hroot Hnp). fold rebuilt.
    rewrite Hloc. rewrite href_classifyWidget, Hbuttons.
    apply getAttribute_setAttribute_same.
  - intros [Hnt|Hp].
    + rewrite Hnt. reflexivity.
    + rewrite (localizeUrl_prefixed config url Hp), Hrootloc.
      destruct (doNotTranslate url); reflexivity.
  - intros Hnt Hnp Hloc. rewrite Hnt.
    rewrite (localizeUrl_elsewhere config url Hroot Hnp). fold rebuilt.
    rewrite Hloc, Hrootloc, Hrootwidget. cbn [isWidget logged anchor].
    repeat split. now rewrite href_classifyWidget, Hbuttons.
Qed.

End LocalizationFacts.

Section LinkExamples.

#[local] Existing Instance Reference.platform.

Import ExampleLinks.

(** C6, as stated, fails: the href [mailto:a@b.c] parses, its path
    [a@b.c] starts with no locale prefix, and the href is not rewritten:
    the URL [null/dea@b.c] that [localizeUrl] builds does not parse, the
    exception is caught and logged. *)
Lemma decorateLink_mailto_not_localized :
  URL_parse (getHref (link "mailto:a@b.c"))
  = Some (mkURL "mailto:a@b.c" "null" "" "a@b.c" "" "")
  /\ localePrefix german = "/de"
  /\ localePrefixed german (mkURL "mailto:a@b.c" "null" "" "a@b.c" "" "") = false
  /\ decorateLink german (link "mailto:a@b.c")
     = mkLinkResult (link "mailto:a@b.c") false couldNotDecorate.
Proof. repeat split. Qed.

Lemma decorateLink_localization_witness :
  getAttribute "href"
    (anchor (decorateLink german (link "https://example.com/products?x=1#top")))
  = Some "https://example.com/de/products?x=1#top"
  /\ decorateLink german (link "https://example.com/de/products")
     = decorateLink (rootLocale german) (link "https://example.com/de/products")
  /\ decorateLink german (link "https://example.com/products#_dnt")
     = decorateLink (rootLocale german) (link "https://example.com/products#_dnt").
Proof.
  split; [|split].
  - exact (proj1 (decorateLink_localization
                    (P := Reference.platform) german
                    (link "https://example.com/products?x=1#top")
                    (mkURL "https://example.com/products?x=1#top"
                           "https://example.com" "example.com" "/products"
                           "?x=1" "#top")
                    eq_refl ltac:(discriminate) (fun x => eq_refl))
                 eq_refl eq_refl
                 (mkURL "https://example.com/de/products?x=1#top"
                        "https://example.com" "example.com" "/de/products"
                        "?x=1" "#top")
                 eq_refl).
  - eapply (proj1 (proj2 (decorateLink_localization
                            (P := Reference.platform) german
                            (link "https://example.com/de/products")
                            (mkURL "https://example.com/de/products"
                                   "https://example.com" "example.com"
                                   "/de/products" "" "")
                            eq_refl ltac:(discriminate) (fun x => eq_refl)))).
    right. reflexivity.
  - eapply (proj1 (proj2 (decorateLink_localization
                            (P := Reference.platform) german
                            (link "https://example.com/products#_dnt")
                            (mkURL "https://example.com/products#_dnt"
                                   "https://example.com" "example.com"
                                   "/products" "" "#_dnt")
                            eq_refl ltac:(discriminate) (fun x => eq_refl)))).
    left. reflexivity.
Defined.

(** The three cases of the specification: [/products] becomes
    [/de/products], [/de/products] stays, [#_dnt] keeps the prefix away. *)
Example decorateLink_localization_cases :
  option_map pathname
    (URL_parse (getHref (anchor (decorateLink german
                                   (link "https://example.com/products")))))
  = Some "/de/products"
  /\ getAttribute "href"
       (anchor (decorateLink german (link "https://example.com/de/products")))
     = Some "https://example.com/de/products"
  /\ getAttribute "href"
       (anchor (decorateLink german (link "https://example.com/products#_dnt")))
     = Some "https://example.com/products".
Proof. repeat split. Qed.

(** C7 at its failing input: [#_blank] is found, the target is set and
    [decorateHash] strips the directive from the href; then the href is
    replaced by the localized URL, which was built from the URL parsed
    before, and the directive is in the href again. *)
Lemma decorateLink_restores_directive :
  let a := link "https://example.com/products#_blank" in
  let url := mkURL "https://example.com/products#_blank" "https://example.com"
                   "example.com" "/products" "" "#_blank" in
  URL_parse (getHref a) = Some url
  /\ JS.includes (hash url) "#_blank" = true
  /\ getAttribute "href" (fst (fst (decorateHash a url)))
     = Some "https://example.com/products"
  /\ getAttribute "target" (anchor (decorateLink german a)) = Some "_blank"
  /\ getAttribute "href" (anchor (decorateLink german a))
     = Some "https://example.com/de/products#_blank"
  /\ JS.includes "https://example.com/de/products#_blank" "#_blank" = true.
Proof. repeat split. Qed.

(** In the root locale a directive that occurs twice stays once:
    [replace] takes the first occurrence away. *)
Example decorateLink_repeated_directive :
  getAttribute "href"
    (anchor (decorateLink shipped (link "https://example.com/a#_blank#_blank")))
  = Some "https://example.com/a#_blank".
Proof. reflexivity. Qed.

(** In the root locale a directive that occurs once is gone. *)
Example decorateLink_strips_directives :
  decorateLink shipped (link "https://example.com/a#_blank#_dnt#_dnb")
  = mkLinkResult
      (setAttribute "target" "_blank" (link "https://example.com/a"))
      false [].
Proof. reflexivity. Qed.

Lemma decorateLink_unparsable_witness :
  decorateLink shipped (link "http://[broken")
  = mkLinkResult (link "http://[broken") false couldNotDecorate
  /\ List.length (decorateAnchors shipped paragraph) = 4.
Proof.
  split.
  - apply (proj1 (decorateLink_unparsable shipped)). reflexivity.
  - apply (proj2 (decorateLink_unparsable shipped) paragraph).
Defined.

Lemma widget_classification_witness :
  classifyWidget shipped false (link "https://www.youtube.com/fragments/foo")
  = mkLinkResult
      (ClassList.put ["fragment"; "auto-block"]
                     (link "https://www.youtube.com/fragments/foo")) true []
  /\ classifyWidget shipped false (link "https://example.com/about")
     = mkLinkResult (link "https://example.com/about") false []
  /\ decorateLinks shipped paragraph
     = [setAttribute "class" "youtube auto-block"
          (link "https://www.youtube.com/watch?v=1");
        setAttribute "class" "fragment auto-block"
          (link "https://example.com/fragments/foo")].
Proof.
  assert (Hkeys : Forall (fun pattern => ClassList.validToken (fst pattern) = true)
                         (widgets shipped)) by (repeat constructor).
  destruct (widget_classification shipped Hkeys)
    as [Hfirst [Hnone [_ [_ [Hall _]]]]].
  split; [|split].
  - apply (Hfirst (link "https://www.youtube.com/fragments/foo") []
                  [("youtube", "https://www.youtube")] "fragment" "/fragments/");
      [reflexivity|constructor|reflexivity].
  - apply Hnone. repeat constructor.
  - rewrite Hall. reflexivity.
Defined.

(** C8, as stated, fails: the href [mailto:a@b.c?x=/fragments/] parses,
    its fragment carries no directive and it includes the text of the
    pattern fragment, yet on a page of the German locale the anchor gets
    neither class and is not returned: [localizeUrl] throws before the
    widgets are tested, the exception is caught and logged. *)
Lemma widget_classification_mailto_unclassified :
  URL_parse (getHref (link "mailto:a@b.c?x=/fragments/"))
  = Some (mkURL "mailto:a@b.c?x=/fragments/" "null" "" "a@b.c"
                "?x=/fragments/" "")
  /\ doNotBlock (mkURL "mailto:a@b.c?x=/fragments/" "null" "" "a@b.c"
                       "?x=/fragments/" "") = false
  /\ firstWidget (getHref (link "mailto:a@b.c?x=/fragments/")) (widgets german)
     = Some "fragment"
  /\ decorateLink german (link "mailto:a@b.c?x=/fragments/")
     = mkLinkResult (link "mailto:a@b.c?x=/fragments/") false couldNotDecorate
  /\ ClassList.contains "fragment"
       (anchor (decorateLink german (link "mailto:a@b.c?x=/fragments/")))
     = false
  /\ ClassList.contains "auto-block"
       (anchor (decorateLink german (link "mailto:a@b.c?x=/fragments/")))
     = false
  /\ decorateLinks german
       (Example.element "P" "" [ElementNode (link "mailto:a@b.c?x=/fragments/")])
     = [].
Proof. repeat split. Qed.

End LinkExamples.

(** * Further properties *)

(** ** Attributes of instrumentation *)

Lemma get_removeKey_same {V} (k : string) (l : list (string * V)) :
  Assoc.get k (removeKey k l) = None.
Proof.
  induction l as [|[k' v] l IH]; cbn [removeKey Assoc.get]; [reflexivity|].
  destruct (k' =? k) eqn:E; [exact IH|]. cbn [Assoc.get]. now rewrite E.
Qed.

Lemma get_removeKey_other {V} (k k' : string) (l : list (string * V)) :
  k' <> k -> Assoc.get k (removeKey k' l) = Assoc.get k l.
Proof.
  intro Hne. induction l as [|[k0 v] l IH]; cbn [removeKey Assoc.get];
    [reflexivity|].
  destruct (k0 =? k') eqn:E.
  - apply String.eqb_eq in E. subst k0.
    apply String.eqb_neq in Hne. now rewrite Hne.
  - cbn [Assoc.get]. now rewrite IH.
Qed.

Lemma getAttribute_removeAttribute_same (name : string) (e : Element) :
  getAttribute name (removeAttribute name e) = None.
Proof.
  unfold getAttribute, removeAttribute, withProps. cbn [props attributes].
  apply get_removeKey_same.
Qed.

Lemma getAttribute_removeAttribute_other (name other : string) (e : Element) :
  other <> name ->
  getAttribute name (removeAttribute other e) = getAttribute name e.
Proof.
  intro Hne. unfold getAttribute, removeAttribute, withProps.
  cbn [props attributes]. now apply get_removeKey_other.
Qed.

Lemma get_In_keys {V} (k : string) (v : V) (l : list (string * V)) :
  Assoc.get k l = Some v -> In k (Assoc.keys l).
Proof.
  induction l as [|[k' v'] l IH]; cbn [Assoc.get Assoc.keys map fst];
    [discriminate|].
  destruct (String.eqb_spec k' k) as [->|Hne]; [now left|].
  intro H. right. now apply IH.
Qed.

Lemma In_keys_get {V} (k : string) (l : list (string * V)) :
  In k (Assoc.keys l) -> exists v, Assoc.get k l = Some v.
Proof.
  induction l as [|[k' v'] l IH]; cbn [Assoc.get Assoc.keys map fst];
    [intros []|].
  destruct (String.eqb_spec k' k) as [->|Hne]; [now exists v'|].
  intros [H|H]; [contradiction|now apply IH].
Qed.

Lemma moveAttribute_fold (names : list string) :
  forall (from : Element) (to : option Element) (name : string),
    getAttribute name (fst (fold_left moveAttribute names (from, to)))
    = (if isMoved names from name then None else getAttribute name from)
    /\ option_map (getAttribute name)
         (snd (fold_left moveAttribute names (from, to)))
       = (if isMoved names from name
          then option_map (fun _ => getAttribute name from) to
          else option_map (getAttribute name) to).
Proof.
  induction names as [|attr names IH]; intros from to name.
  - unfold isMoved. cbn [fold_left existsb andb fst snd]. now split.
  - cbn [fold_left]. unfold isMoved. cbn [existsb].
    destruct (IH (fst (moveAttribute (from, to) attr))
                 (snd (moveAttribute (from, to) attr)) name) as [IHf IHt].
    rewrite <- surjective_pairing in IHf, IHt. rewrite IHf, IHt. clear IHf IHt.
    unfold isMoved, moveAttribute.
    destruct (String.eqb_spec name attr) as [->|Hne].
    + destruct (getAttribute attr from) as [value|] eqn:Ea.
      * destruct (JS.truthy value) eqn:Et; cbn [fst snd orb andb].
        -- rewrite getAttribute_removeAttribute_same, andb_false_r.
           split; [reflexivity|]. destruct to as [t|]; cbn [option_map];
             [|reflexivity].
           now rewrite getAttribute_setAttribute_same.
        -- rewrite Ea, Et, andb_false_r. now split.
      * cbn [fst snd orb andb]. rewrite Ea, andb_false_r. now split.
    + cbn [orb].
      assert (Hkeep :
                getAttribute name
                  (fst match getAttribute attr from with
                       | Some value =>
                           if JS.truthy value
                           then (removeAttribute attr from,
                                 option_map (setAttribute attr value) to)
                           else (from, to)
                       | None => (from, to)
                       end) = getAttribute name from
                /\ option_map (getAttribute name)
                     (snd match getAttribute attr from with
                          | Some value =>
                              if JS.truthy value
                              then (removeAttribute attr from,
                                    option_map (setAttribute attr value) to)
                              else (from, to)
                          | None => (from, to)
                          end) = option_map (getAttribute name) to).
      { destruct (getAttribute attr from) as [value|]; [|now split].
        destruct (JS.truthy value); [|now split]. cbn [fst snd]. split.
        - apply getAttribute_removeAttribute_other. congruence.
        - destruct to as [t|]; cbn [option_map]; [|reflexivity].
          f_equal. apply getAttribute_setAttribute_other. congruence. }
      destruct Hkeep as [Hf Ht]. rewrite Hf, Ht.
      destruct (existsb (String.eqb name) names
                && match getAttribute name from with
                   | Some value => JS.truthy value
                   | None => false
                   end); split; try reflexivity.
      destruct (getAttribute attr from) as [value|];
        [destruct (JS.truthy value)|]; destruct to; reflexivity.
Qed.

(** X1: [moveAttributes(from, to)] without a list of names leaves in
    [from] the attributes whose value is the empty string and no other;
    [to] gets every attribute of [from] that has a value, with that value,
    and keeps its other attributes; when [to] is [null] it stays [null] and
    the attributes are removed from [from] all the same. *)
Theorem moveAttributes_all (from : Element) (to : option Element)
  (name : string) :
  let result := moveAttributes from to None in
  getAttribute name (fst result)
  = match getAttribute name from with
    | Some value => if JS.truthy value then None else Some value
    | None => None
    end
  /\ option_map (getAttribute name) (snd result)
     = option_map
         (fun target =>
            match getAttribute name from with
            | Some value =>
                if JS.truthy value then Some value
                else getAttribute name target
            | None => getAttribute name target
            end) to.
Proof.
  intro result. unfold result, moveAttributes.
  destruct (moveAttribute_fold (attributeNames from) from to name) as [Hf Ht].
  assert (Hmoved : isMoved (attributeNames from) from name
                   = match getAttribute name from with
                     | Some value => JS.truthy value
                     | None => false
                     end).
  { unfold isMoved. destruct (getAttribute name from) as [value|] eqn:Ea;
      [|apply andb_false_r].
    replace (existsb (String.eqb name) (attributeNames from)) with true;
      [reflexivity|].
    symmetry. apply existsb_exists. exists name.
    split; [|apply String.eqb_refl].
    unfold attributeNames. eapply get_In_keys. exact Ea. }
  rewrite Hmoved in Hf, Ht. rewrite Hf, Ht.
  destruct (getAttribute name from) as [value|];
    [destruct (JS.truthy value)|]; split; reflexivity.
Qed.

(** X2: [moveInstrumentation(from, to)] moves the attributes of [from]
    whose name starts with data-aue- or data-richtext- and that have a
    value; every other attribute of [from] and of [to] is as before. *)
Theorem moveInstrumentation_only (from target : Element) (name : string) :
  let result := moveInstrumentation from (Some target) in
  let moved :=
    isInstrumentation name
    && match getAttribute name from with
       | Some value => JS.truthy value
       | None => false
       end in
  getAttribute name (fst result)
  = (if moved then None else getAttribute name from)
  /\ exists target',
      snd result = Some target'
      /\ getAttribute name target'
         = (if moved then getAttribute name from
            else getAttribute name target).
Proof.
  intros result moved. unfold result, moveInstrumentation, moveAttributes.
  set (names := filter isInstrumentation (attributeNames from)).
  destruct (moveAttribute_fold names from (Some target) name) as [Hf Ht].
  assert (Hmoved : isMoved names from name = moved).
  { unfold isMoved, moved, names.
    destruct (getAttribute name from) as [value|] eqn:Ea;
      [|now rewrite !andb_false_r].
    f_equal. destruct (isInstrumentation name) eqn:Ei.
    - apply existsb_exists. exists name. split; [|apply String.eqb_refl].
      apply filter_In. split; [|exact Ei].
      unfold attributeNames. eapply get_In_keys. exact Ea.
    - destruct (existsb _ _) eqn:Ex; [|reflexivity].
      apply existsb_exists in Ex. destruct Ex as [x [Hin Hx]].
      apply String.eqb_eq in Hx. subst x.
      apply filter_In in Hin. destruct Hin as [_ Hin]. congruence. }
  rewrite Hmoved in Hf, Ht. split; [exact Hf|].
  destruct (snd (fold_left moveAttribute names (from, Some target)))
    as [target'|]; cbn [option_map] in Ht.
  - exists target'. split; [reflexivity|]. destruct moved; congruence.
  - destruct moved; discriminate.
Qed.

(** ** Locale and configuration *)

Lemma In_insertIndex (x k : N * string) (l : list (N * string)) :
  In x (insertIndex k l) <-> x = k \/ In x l.
Proof.
  induction l as [|k' l IH]; cbn [insertIndex].
  - simpl. intuition.
  - destruct (fst k <? fst k')%N; simpl; [intuition|].
    rewrite IH. simpl. intuition.
Qed.

Lemma In_ownKeys {V} (k : string) (o : list (string * V)) :
  In k (ownKeys o) <-> In k (Assoc.keys o).
Proof.
  unfold ownKeys. set (ks := Assoc.keys o). rewrite in_app_iff, filter_In.
  assert (Hidx : forall n x,
             In (n, x)
                (fold_right
                   (fun k acc => match arrayIndex k with
                                 | Some n => insertIndex (n, k) acc
                                 | None => acc
                                 end) [] ks)
             <-> In x ks /\ arrayIndex x = Some n).
  { intros n x. induction ks as [|k0 ks0 IH]; cbn [fold_right].
    - simpl. intuition.
    - destruct (arrayIndex k0) as [n0|] eqn:E.
      + rewrite In_insertIndex, IH. simpl. split.
        * intros [[= <- <-]|[H1 H2]]; auto.
        * intros [[<-|H1] H2]; [left; congruence|auto].
      + rewrite IH. simpl. split; [intuition|].
        intros [[<-|H1] H2]; [congruence|auto]. }
  rewrite in_map_iff. split.
  - intros [[[n x] [Hx Hin]]|[Hin _]]; [|exact Hin].
    cbn [snd] in Hx. subst x. now apply Hidx in Hin.
  - intro Hin. destruct (arrayIndex k) as [n|] eqn:E.
    + left. exists (n, k). split; [reflexivity|]. now apply Hidx.
    + right. now split.
Qed.

Lemma insertByLength_spec (x : string) (sorted : list string) :
  descending sorted ->
  descending (insertByLength x sorted)
  /\ forall y, In y (insertByLength x sorted) <-> y = x \/ In y sorted.
Proof.
  induction sorted as [|z sorted IH]; intro Hd; cbn [insertByLength].
  - split; [|simpl; intuition]. cbn [descending]. split; [intros y []|exact I].
  - destruct Hd as [Hz Hd]. destruct (IH Hd) as [IHd IHin].
    destruct (Nat.ltb_spec (String.length z) (String.length x)) as [Hlt|Hge].
    + split; [|simpl; intuition]. cbn [descending]. split; [|now split].
      intros y [<-|Hy]; [lia|]. specialize (Hz y Hy). lia.
    + split.
      * cbn [descending]. split; [|exact IHd].
        intros y Hy. apply IHin in Hy. destruct Hy as [->|Hy]; [lia|auto].
      * intro y. simpl. rewrite IHin. intuition.
Qed.

Lemma sortByLength_spec (matches : list string) :
  descending (sortByLength matches)
  /\ forall y, In y (sortByLength matches) <-> In y matches.
Proof.
  unfold sortByLength.
  assert (H : forall acc,
             descending acc ->
             descending (fold_left (fun sorted x => insertByLength x sorted)
                                   matches acc)
             /\ forall y,
                 In y (fold_left (fun sorted x => insertByLength x sorted)
                                 matches acc)
                 <-> In y acc \/ In y matches).
  { induction matches as [|x matches IH]; intros acc Hd; cbn [fold_left].
    - split; [exact Hd|]. simpl. intuition.
    - destruct (insertByLength_spec x acc Hd) as [Hd' Hin'].
      destruct (IH _ Hd') as [Hd'' Hin'']. split; [exact Hd''|].
      intro y. rewrite Hin'', Hin'. simpl. intuition. }
  destruct (H [] I) as [Hd Hin]. split; [exact Hd|].
  intro y. rewrite Hin. simpl. intuition.
Qed.

(** Without locale metadata the prefix is a key of the locales object,
    provided the root locale is one. *)
Lemma getLocale_returns (pathname : string) (locales : list (string * Locale)) :
  Assoc.get "" locales <> None ->
  exists result,
    getLocale pathname "" locales = Some result
    /\ In (prefix result) (Assoc.keys locales).
Proof.
  intro Hroot. unfold getLocale. cbn [JS.truthy String.eqb negb].
  set (matches := filter (fun locale => JS.startsWith pathname (locale ++ "/"))
                         (ownKeys locales)).
  destruct (sortByLength_spec matches) as [_ Hin].
  destruct (sortByLength matches) as [|longest rest] eqn:Es.
  - destruct (Assoc.get "" locales) as [l|] eqn:El; [|contradiction].
    unfold localeOf. rewrite El. eexists. split; [reflexivity|].
    eapply get_In_keys. exact El.
  - assert (Hl : In longest matches) by (apply Hin; now left).
    unfold matches in Hl. apply filter_In in Hl. destruct Hl as [Hkey _].
    apply In_ownKeys in Hkey. destruct (In_keys_get _ _ Hkey) as [l El].
    unfold localeOf. rewrite El. eexists. split; [reflexivity|exact Hkey].
Qed.

(** X3: without locale metadata, and with the root locale among the
    locales, [getLocale] does not throw; the prefix it returns is a key of
    the locales object, it is the empty one or the path starts with it and a
    slash, and no key that the path starts with in that way is longer. *)
Theorem getLocale_longest_prefix (pathname : string)
  (locales : list (string * Locale)) :
  Assoc.get "" locales <> None ->
  exists result,
    getLocale pathname "" locales = Some result
    /\ In (prefix result) (Assoc.keys locales)
    /\ (prefix result = ""
        \/ JS.startsWith pathname (prefix result ++ "/")%string = true)
    /\ forall key,
        In key (Assoc.keys locales) ->
        JS.startsWith pathname (key ++ "/")%string = true ->
        String.length key <= String.length (prefix result).
Proof.
  intro Hroot. unfold getLocale. cbn [JS.truthy String.eqb negb].
  set (matches := filter (fun locale => JS.startsWith pathname (locale ++ "/"))
                         (ownKeys locales)).
  destruct (sortByLength_spec matches) as [Hd Hin].
  assert (Hmatch : forall key,
             In key matches
             <-> In key (Assoc.keys locales)
                 /\ JS.startsWith pathname (key ++ "/")%string = true).
  { intro key. unfold matches. rewrite filter_In, In_ownKeys. reflexivity. }
  destruct (sortByLength matches) as [|longest rest] eqn:Es.
  - destruct (Assoc.get "" locales) as [l|] eqn:El; [|contradiction].
    unfold localeOf. rewrite El. eexists. split; [reflexivity|]. cbn [prefix].
    split; [eapply get_In_keys; exact El|]. split; [now left|].
    intros key Hkey Hstart. exfalso.
    assert (Hk : In key matches) by now apply Hmatch.
    apply Hin in Hk. exact Hk.
  - assert (Hl : In longest matches) by (apply Hin; now left).
    apply Hmatch in Hl. destruct Hl as [Hkey Hstart].
    destruct (In_keys_get _ _ Hkey) as [l El].
    unfold localeOf. rewrite El. eexists. split; [reflexivity|]. cbn [prefix].
    split; [exact Hkey|]. split; [now right|].
    intros key Hk Hs.
    assert (Hm : In key (longest :: rest)) by (apply Hin; now apply Hmatch).
    destruct Hm as [<-|Hm]; [lia|]. destruct Hd as [Hd _]. now apply Hd.
Qed.

Lemma getLocale_longest_prefix_witness :
  exists result,
    getLocale "/de/ch/products" "" ExampleLocales.locales = Some result
    /\ In (prefix result) (Assoc.keys ExampleLocales.locales)
    /\ (prefix result = ""
        \/ JS.startsWith "/de/ch/products" (prefix result ++ "/")%string = true)
    /\ forall key,
        In key (Assoc.keys ExampleLocales.locales) ->
        JS.startsWith "/de/ch/products" (key ++ "/")%string = true ->
        String.length key <= String.length (prefix result).
Proof.
  apply (getLocale_longest_prefix "/de/ch/products" ExampleLocales.locales).
  discriminate.
Defined.

(** X4: locale metadata decides the prefix whatever the path is; the call
    throws exactly when the metadata names neither a key of the locales
    object nor a property that every object inherits. *)
Theorem getLocale_metadata (pathname metaLocale : string)
  (locales : list (string * Locale)) :
  metaLocale <> "" ->
  (forall result,
     getLocale pathname metaLocale locales = Some result ->
     prefix result = metaLocale)
  /\ (getLocale pathname metaLocale locales = None
      <-> Assoc.get metaLocale locales = None
          /\ existsb (String.eqb metaLocale) inheritedNames = false).
Proof.
  intro Hmeta. unfold getLocale. rewrite (truthy_true _ Hmeta).
  unfold localeOf. destruct (Assoc.get metaLocale locales) as [l|].
  - split; [now intros result [= <-]|]. split; [discriminate|now intros [H _]].
  - destruct (existsb (String.eqb metaLocale) inheritedNames).
    + split; [now intros result [= <-]|].
      split; [discriminate|now intros [_ H]].
    + split; [discriminate|]. now split.
Qed.

Lemma getLocale_metadata_witness :
  (forall result,
     getLocale "/fr/page" "/de" ExampleLocales.locales = Some result ->
     prefix result = "/de")
  /\ (getLocale "/fr/page" "/es" ExampleLocales.locales = None
      <-> Assoc.get "/es" ExampleLocales.locales = None
          /\ existsb (String.eqb "/es") inheritedNames = false).
Proof.
  split.
  - apply (getLocale_metadata "/fr/page" "/de" ExampleLocales.locales).
    discriminate.
  - apply (getLocale_metadata "/fr/page" "/es" ExampleLocales.locales).
    discriminate.
Defined.

(** X5: [getConfig] before any successful [setConfig] throws and leaves
    the store empty; a [setConfig] that throws leaves the store as it was;
    after a [setConfig] that returns, [getConfig] returns the same
    configuration, on every page, and does not touch the store. *)
Theorem getConfig_after_setConfig (pathname metaLocale : string) (conf : Conf)
  (store : ConfigStore) :
  getConfig pathname metaLocale None = (None, None)
  /\ match setConfig pathname metaLocale conf store with
     | (store', Some config) =>
         store' = Some config
         /\ forall pathname' metaLocale',
             getConfig pathname' metaLocale' store' = (store', Some config)
     | (store', None) =>
         store' = store
         /\ (confLocales conf = None
             \/ exists locales,
                 confLocales conf = Some locales
                 /\ getLocale pathname metaLocale locales = None)
     end.
Proof.
  split; [reflexivity|]. unfold setConfig, buildConfig.
  destruct (confLocales conf) as [locales|]; [|split; [reflexivity|now left]].
  destruct (getLocale pathname metaLocale locales) as [locale|] eqn:El.
  - split; [reflexivity|]. reflexivity.
  - split; [reflexivity|]. right. now exists locales.
Qed.

Section ConfigFacts.

Context {P : Platform}.

(** X6: with the root locale as the only locale and no locale metadata,
    [setConfig] returns on every page, the current locale is the root one,
    and [localizeUrl] localizes no URL. *)
Theorem setConfig_root_only (pathname : string) (conf : Conf)
  (store : ConfigStore) (locales : list (string * Locale)) :
  confLocales conf = Some locales ->
  Assoc.keys locales = [""] ->
  exists config,
    setConfig pathname "" conf store = (Some config, Some config)
    /\ localePrefix config = ""
    /\ hostnames config = confHostnames conf
    /\ widgets config = confWidgets conf
    /\ forall url, localizeUrl config url = NotLocalized.
Proof.
  intros Hconf Hkeys.
  assert (Hroot : Assoc.get "" locales <> None).
  { destruct (In_keys_get "" locales) as [l Hl];
      [rewrite Hkeys; now left|congruence]. }
  destruct (getLocale_returns pathname locales Hroot)
    as [result [Hget Hin]].
  rewrite Hkeys in Hin. destruct Hin as [Hp|[]].
  unfold setConfig, buildConfig. rewrite Hconf, Hget.
  eexists. split; [reflexivity|]. cbn [localePrefix hostnames widgets].
  split; [now symmetry|]. split; [reflexivity|]. split; [reflexivity|].
  intro url. unfold localizeUrl. cbn [localePrefix]. now rewrite <- Hp.
Qed.

End ConfigFacts.

Lemma setConfig_root_only_witness :
  exists config,
    setConfig "/products/overview" ""
              (mkConf ["localhost"; "helms-charity.hlx.page"]
                      (Some [("", mkLocale (Some "en"))])
                      [("fragment", "/fragments/")]) None
    = (Some config, Some config)
    /\ localePrefix config = ""
    /\ hostnames config = ["localhost"; "helms-charity.hlx.page"]
    /\ widgets config = [("fragment", "/fragments/")]
    /\ forall url, localizeUrl (P := Reference.platform) config url
                   = NotLocalized.
Proof.
  apply (setConfig_root_only
           (P := Reference.platform) "/products/overview"
           (mkConf ["localhost"; "helms-charity.hlx.page"]
                   (Some [("", mkLocale (Some "en"))])
                   [("fragment", "/fragments/")]) None
           [("", mkLocale (Some "en"))]);
    reflexivity.
Defined.

(** ** Scheme classes *)

Lemma set_set {V} (k : string) (v v' : V) (l : list (string * V)) :
  Assoc.set k v (Assoc.set k v' l) = Assoc.set k v l.
Proof.
  induction l as [|[k0 v0] l IH]; cbn [Assoc.set].
  - now rewrite String.eqb_refl.
  - destruct (k0 =? k) eqn:E; cbn [Assoc.set].
    + now rewrite String.eqb_refl.
    + now rewrite E, IH.
Qed.

Lemma setClassName_absorb (c c' : string) (e : Element) :
  setClassName c (setClassName c' e) = setClassName c e.
Proof.
  unfold setClassName, setAttribute, withProps. cbn [props childNodes].
  cbn [tagName attributes style dataset]. now rewrite set_set.
Qed.

Lemma update_written (set : list string) (c : string) (e : Element) :
  ClassList.update set (setClassName c e)
  = setClassName (JS.join " " set) e.
Proof.
  unfold ClassList.update. unfold setClassName at 1.
  rewrite getAttribute_setAttribute_same. apply setClassName_absorb.
Qed.

Lemma update_nonempty (t : string) (set : list string) (e : Element) :
  ClassList.update (set ++ [t]) e = setClassName (JS.join " " (set ++ [t])) e.
Proof.
  unfold ClassList.update. destruct (getAttribute "class" e); [reflexivity|].
  destruct (set ++ [t]) eqn:E; [|reflexivity]. now destruct set.
Qed.

Lemma removeTokens_idempotent (ts set : list string) :
  ClassList.removeTokens ts (ClassList.removeTokens ts set)
  = ClassList.removeTokens ts set.
Proof.
  unfold ClassList.removeTokens. induction set as [|x set IH]; [reflexivity|].
  cbn [filter]. destruct (negb (ClassList.mem x ts)) eqn:E; [|exact IH].
  cbn [filter]. now rewrite E, IH.
Qed.

(** The scheme classes are no tokens of a class list from which they have
    been removed, so [add] puts the scheme at the end. *)
Lemma applyScheme_written (scheme : string) (el : Element) :
  scheme = lightScheme \/ scheme = darkScheme ->
  let rest := ClassList.removeTokens [lightScheme; darkScheme]
                (ClassList.tokens (className el)) in
  applyScheme scheme el
  = setClassName (JS.join " " (rest ++ [scheme]))
                 (ClassList.discard [lightScheme; darkScheme] el)
  /\ ClassList.tokens (className (applyScheme scheme el)) = rest ++ [scheme].
Proof.
  intros Hs rest.
  assert (Hv : Forall (fun t => ClassList.validToken t = true) [scheme])
    by (constructor; [destruct Hs as [->| ->]; reflexivity|constructor]).
  assert (Hadd : ClassList.addTokens [scheme]
                   (ClassList.tokens
                      (className (ClassList.discard [lightScheme; darkScheme] el)))
                 = rest ++ [scheme]).
  { rewrite ClassListFacts.tokens_discard. fold rest. cbn [ClassList.addTokens].
    replace (ClassList.mem scheme rest) with false; [reflexivity|].
    symmetry. unfold rest. rewrite ClassListFacts.mem_removeTokens.
    destruct Hs as [->| ->]; cbn [ClassList.mem existsb];
      rewrite ?String.eqb_refl, ?orb_true_r; apply andb_false_r. }
  split.
  - unfold applyScheme, ClassList.put. rewrite Hadd. apply update_nonempty.
  - unfold applyScheme. rewrite ClassListFacts.tokens_put by exact Hv.
    exact Hadd.
Qed.

Lemma mapChildren_compose (f g : Element -> Element) (e : Element) :
  mapChildren f (mapChildren g e) = mapChildren (fun c => f (g c)) e.
Proof.
  unfold mapChildren, withChildNodes. cbn [props childNodes]. f_equal.
  rewrite map_map. apply map_ext. now intros [s|c].
Qed.

Lemma mapChildren_ext (f g : Element -> Element) (e : Element) :
  (forall c, f c = g c) -> mapChildren f e = mapChildren g e.
Proof.
  intro H. unfold mapChildren, withChildNodes. f_equal. apply map_ext.
  intros [s|c]; [reflexivity|]. now rewrite H.
Qed.

Section SchemeFacts.

Context {P : Platform}.

(** X7: the scheme class that [setColorScheme] gives a child replaces the
    one given before: setting a scheme after another one leaves the child
    as setting it alone does, and setting the scheme of a section a second
    time, its computed background being the same, changes nothing. *)
Theorem setColorScheme_replaces (section : Element) :
  (forall scheme scheme' child,
      scheme = lightScheme \/ scheme = darkScheme ->
      scheme' = lightScheme \/ scheme' = darkScheme ->
      applyScheme scheme' (applyScheme scheme child)
      = applyScheme scheme' child)
  /\ (computedBackground (setColorScheme section) = computedBackground section ->
      setColorScheme (setColorScheme section) = setColorScheme section).
Proof.
  assert (Hreplace : forall scheme scheme' child,
             scheme = lightScheme \/ scheme = darkScheme ->
             scheme' = lightScheme \/ scheme' = darkScheme ->
             applyScheme scheme' (applyScheme scheme child)
             = applyScheme scheme' child).
  { intros scheme scheme' child Hs Hs'.
    destruct (applyScheme_written scheme child Hs) as [Hfirst Htokens].
    destruct (applyScheme_written scheme' (applyScheme scheme child) Hs')
      as [Hsecond _].
    destruct (applyScheme_written scheme' child Hs') as [Halone _].
    rewrite Hsecond, Halone. clear Hsecond Halone.
    rewrite Htokens.
    assert (Hrest : ClassList.removeTokens [lightScheme; darkScheme]
                      (ClassList.removeTokens [lightScheme; darkScheme]
                         (ClassList.tokens (className child)) ++ [scheme])
                    = ClassList.removeTokens [lightScheme; darkScheme]
                        (ClassList.tokens (className child))).
    { unfold ClassList.removeTokens at 1. rewrite filter_app.
      fold (ClassList.removeTokens [lightScheme; darkScheme]
              (ClassList.removeTokens [lightScheme; darkScheme]
                 (ClassList.tokens (className child)))).
      rewrite removeTokens_idempotent.
      replace (filter _ [scheme]) with (@nil string); [apply app_nil_r|].
      destruct Hs as [->| ->]; reflexivity. }
    rewrite Hrest. unfold ClassList.discard at 1. rewrite Htokens, Hrest.
    rewrite Hfirst, update_written. apply setClassName_absorb. }
  split; [exact Hreplace|].
  intro Hbg. unfold setColorScheme at 1. unfold getColorScheme, parseColor.
  rewrite Hbg. fold (parseColor section). fold (getColorScheme section).
  unfold setColorScheme.
  destruct (getColorScheme section) as [scheme|] eqn:Eg; [|reflexivity].
  rewrite mapChildren_compose. apply mapChildren_ext. intro c.
  apply Hreplace; eapply getColorScheme_cases; exact Eg.
Qed.

End SchemeFacts.

Lemma setColorScheme_replaces_witness :
  setColorScheme (P := Reference.platform)
    (setColorScheme (P := Reference.platform)
       (Example3.painted "rgb(0, 0, 0)"))
  = setColorScheme (P := Reference.platform) (Example3.painted "rgb(0, 0, 0)").
Proof.
  apply (proj2 (setColorScheme_replaces
                  (P := Reference.platform) (Example3.painted "rgb(0, 0, 0)"))).
  reflexivity.
Defined.

(** ** Background images, styles and layouts *)

Lemma childNodes_put (ts : list string) (e : Element) :
  childNodes (ClassList.put ts e) = childNodes e.
Proof.
  unfold ClassList.put, ClassList.update.
  destruct (getAttribute "class" e), (ClassList.addTokens ts _); reflexivity.
Qed.

Section BackgroundImageFacts.

Context {P : Platform}.

(** X8: without a desktop image [handleBackgroundImages] leaves the
    section as it is, a mobile image alone builds nothing; when it returns
    with a desktop image, the section has one more child node, in front of
    the others: a picture of class bg-images with two sources and an image
    whose source is the mobile image, or the desktop one when there is no
    mobile image; the section has the class has-bg-images and the classes
    it had. *)
Theorem handleBackgroundImages_picture (desktopUrl mobileUrl : option string)
  (section : Element) :
  (truthyOpt desktopUrl = false ->
   handleBackgroundImages desktopUrl mobileUrl section = Some section)
  /\ (forall section',
        truthyOpt desktopUrl = true ->
        handleBackgroundImages desktopUrl mobileUrl section = Some section' ->
        exists picture source1 source2 img,
          childNodes section' = ElementNode picture :: childNodes section
          /\ tagName (props picture) = "PICTURE"
          /\ className picture = "bg-images"
          /\ childNodes picture
             = [ElementNode source1; ElementNode source2; ElementNode img]
          /\ tagName (props source1) = "SOURCE"
          /\ tagName (props source2) = "SOURCE"
          /\ tagName (props img) = "IMG"
          /\ getAttribute "src" img
             = (if truthyOpt mobileUrl then mobileUrl else desktopUrl)
          /\ getAttribute "loading" img = Some "lazy"
          /\ forall t, ClassList.contains t section'
                       = (t =? "has-bg-images") || ClassList.contains t section).
Proof.
  unfold handleBackgroundImages. split.
  - destruct desktopUrl as [desktop|]; [|reflexivity]. cbn [truthyOpt].
    now intros ->.
  - intros section' Hd. destruct desktopUrl as [desktop|]; [|discriminate].
    cbn [truthyOpt] in Hd. rewrite Hd. cbn [negb].
    remember (match mobileUrl with
              | Some mobile =>
                  if JS.truthy mobile then createSource mobile 600 mediaMobile
                  else createSource desktop 899 mediaTablet
              | None => createSource desktop 899 mediaTablet
              end) as first eqn:E1.
    destruct first as [source1|]; [|discriminate]. symmetry in E1.
    destruct (createSource desktop 1920 mediaDesktop) as [source2|] eqn:E2;
      [|discriminate].
    intros [= <-].
    assert (Htag : forall src w m source,
               createSource src w m = Some source ->
               tagName (props source) = "SOURCE").
    { intros src w m source. unfold createSource.
      destruct (URL_parseInPage src); [|discriminate]. now intros [= <-]. }
    eexists _, source1, source2, _.
    split; [cbn [prepend withChildNodes childNodes];
            rewrite childNodes_put; reflexivity|].
    split; [reflexivity|]. split; [reflexivity|]. split; [reflexivity|].
    split.
    { destruct mobileUrl as [mobile|];
        [destruct (JS.truthy mobile)|]; eapply Htag; exact E1. }
    split; [eapply Htag; exact E2|]. split; [reflexivity|].
    split.
    { destruct mobileUrl as [mobile|]; cbn [truthyOpt];
        [destruct (JS.truthy mobile)|]; reflexivity. }
    split; [reflexivity|].
    intro t. unfold ClassList.contains, className, getAttribute.
    cbn [prepend withChildNodes props].
    fold (getAttribute "class" (ClassList.put ["has-bg-images"] section)).
    fold (className (ClassList.put ["has-bg-images"] section)).
    fold (ClassList.contains t (ClassList.put ["has-bg-images"] section)).
    rewrite ClassListFacts.contains_put by (repeat constructor).
    cbn [ClassList.mem existsb]. now rewrite orb_false_r.
Qed.

End BackgroundImageFacts.

Lemma handleBackgroundImages_picture_witness :
  handleBackgroundImages (P := Reference.platform)
    None (Some "https://www.example.com/m.png") Example4.section
  = Some Example4.section
  /\ exists picture source1 source2 img,
      childNodes ExampleImages.withPicture
      = ElementNode picture :: childNodes Example4.section
      /\ tagName (props picture) = "PICTURE"
      /\ className picture = "bg-images"
      /\ childNodes picture
         = [ElementNode source1; ElementNode source2; ElementNode img]
      /\ tagName (props source1) = "SOURCE"
      /\ tagName (props source2) = "SOURCE"
      /\ tagName (props img) = "IMG"
      /\ getAttribute "src" img = Some "https://www.example.com/d.png"
      /\ getAttribute "loading" img = Some "lazy"
      /\ forall t,
          ClassList.contains t ExampleImages.withPicture
          = (t =? "has-bg-images") || ClassList.contains t Example4.section.
Proof.
  split.
  - apply (proj1 (handleBackgroundImages_picture
                    (P := Reference.platform)
                    None (Some "https://www.example.com/m.png")
                    Example4.section)).
    reflexivity.
  - apply (proj2 (handleBackgroundImages_picture
                    (P := Reference.platform)
                    (Some "https://www.example.com/d.png") None
                    Example4.section) ExampleImages.withPicture);
      reflexivity.
Defined.

Lemma replaceAll_space (s : string) :
  ClassList.hasSpace (JS.replaceAll s " " "-") = hasBreak s
  /\ (JS.replaceAll s " " "-" =? "") = (s =? "").
Proof.
  unfold JS.replaceAll. induction s as [|c s [IH1 IH2]]; [now split|].
  cbn [JS.replaceAll_from String.length Nat.sub].
  unfold JS.startsWith. cbn [String.prefix].
  destruct (ascii_dec " " c) as [<-|Hne].
  - replace (String.prefix "" s) with true by now destruct s.
    cbn [String.append ClassList.hasSpace hasBreak]. split; [exact IH1|].
    reflexivity.
  - cbn [ClassList.hasSpace hasBreak]. rewrite IH1. split; [|reflexivity].
    unfold isBreak. replace (Ascii.eqb c " ") with false;
      [now rewrite andb_true_r|].
    symmetry. apply Ascii.eqb_neq. congruence.
Qed.

Lemma validToken_style (style : string) :
  ClassList.validToken (JS.replaceAll style " " "-")
  = negb (style =? "") && negb (hasBreak style).
Proof.
  unfold ClassList.validToken. destruct (replaceAll_space style) as [H1 H2].
  now rewrite H1, H2.
Qed.

(** X9: [handleStyle] throws exactly when one of the pieces between the
    separators comma-space of the text is empty or holds a tab, a line
    feed, a form feed or a carriage return; otherwise the classes of the
    section are those it had and the pieces, with a hyphen for each
    space. *)
Theorem handleStyle_classes (text : string) (section : Element) :
  let pieces := JS.split text ", " in
  let styles := map (fun style => JS.replaceAll style " " "-") pieces in
  (handleStyle text section = None
   <-> exists piece,
        In piece pieces /\ (piece = "" \/ hasBreak piece = true))
  /\ forall section',
      handleStyle text section = Some section' ->
      forall t, ClassList.contains t section'
                = ClassList.mem t styles || ClassList.contains t section.
Proof.
  intros pieces styles. unfold handleStyle, ClassList.add.
  fold pieces. fold styles.
  destruct (forallb ClassList.validToken styles) eqn:Ev.
  - split.
    + split; [discriminate|]. intros [piece [Hin Hbad]]. exfalso.
      rewrite forallb_forall in Ev.
      specialize (Ev (JS.replaceAll piece " " "-")).
      rewrite validToken_style in Ev.
      assert (Hs : In (JS.replaceAll piece " " "-") styles)
        by exact (in_map (fun style => JS.replaceAll style " " "-")
                         pieces piece Hin).
      specialize (Ev Hs). apply andb_true_iff in Ev. destruct Ev as [E1 E2].
      destruct Hbad as [->|Hb]; [discriminate|]. rewrite Hb in E2.
      discriminate.
    + intros section' [= <-] t. apply ClassListFacts.contains_put.
      apply Forall_forall. now apply forallb_forall.
  - split; [|discriminate]. split; [|reflexivity]. intros _.
    assert (Hex : existsb (fun s => negb (ClassList.validToken s)) styles = true).
    { clear -Ev. induction styles as [|x l IH]; [discriminate|].
      cbn [forallb existsb] in *. destruct (ClassList.validToken x);
        [now apply IH|reflexivity]. }
    apply existsb_exists in Hex. destruct Hex as [style [Hin Hbad]].
    unfold styles in Hin. apply in_map_iff in Hin.
    destruct Hin as [piece [<- Hin]]. exists piece. split; [exact Hin|].
    rewrite validToken_style in Hbad.
    destruct (String.eqb_spec piece "") as [->|Hne]; [now left|right].
    cbn [negb andb] in Hbad. now apply negb_true_iff, negb_false_iff in Hbad.
Qed.

Lemma handleStyle_classes_witness :
  (handleStyle "dark, , wide" Example4.section = None
   <-> exists piece,
        In piece (JS.split "dark, , wide" ", ")
        /\ (piece = "" \/ hasBreak piece = true))
  /\ forall t,
      ClassList.contains t
        (setClassName "section dark full-width" Example4.section)
      = ClassList.mem t ["dark"; "full-width"]
        || ClassList.contains t Example4.section.
Proof.
  split.
  - apply (proj1 (handleStyle_classes "dark, , wide" Example4.section)).
  - apply (proj2 (handleStyle_classes "dark, full width" Example4.section)).
    reflexivity.
Defined.

(** X10: [handleLayout] does nothing for the text 0; for another text
    without white space the section gets the class made of the type, a
    hyphen and the text, and for the type grid the class grid as well, and
    keeps the classes it had; for a text with white space the second class
    is refused and only the class grid, for the type grid, has been
    added. *)
Theorem handleLayout_classes (text type : string) (section : Element) :
  In type ["grid"; "gap"; "spacing"; "container"] ->
  (text = "0" -> handleLayout text section type = section)
  /\ (text <> "0" -> ClassList.hasSpace text = false ->
      forall t,
        ClassList.contains t (handleLayout text section type)
        = (t =? (type ++ "-" ++ text)%string)
          || ((type =? "grid") && (t =? "grid"))
          || ClassList.contains t section)
  /\ (text <> "0" -> ClassList.hasSpace text = true ->
      handleLayout text section type
      = if type =? "grid" then ClassList.put ["grid"] section else section).
Proof.
  intro Htype. unfold handleLayout.
  assert (Hvalid : ClassList.validToken (type ++ "-" ++ text)%string
                   = negb (ClassList.hasSpace text)).
  { destruct Htype as [<-|[<-|[<-|[<-|[]]]]]; reflexivity. }
  split; [now intros ->|]. split.
  - intros Hne Hsp t. apply String.eqb_neq in Hne. rewrite Hne.
    unfold ClassList.add. cbn [forallb]. rewrite Hvalid, Hsp. cbn [negb andb].
    rewrite ClassListFacts.contains_put
      by (constructor; [now rewrite Hvalid, Hsp|constructor]).
    cbn [ClassList.mem existsb]. rewrite orb_false_r.
    destruct (type =? "grid").
    + rewrite ClassListFacts.contains_put by (repeat constructor).
      cbn [ClassList.mem existsb andb]. now rewrite orb_false_r, orb_assoc.
    + cbn [andb]. now rewrite orb_false_r.
  - intros Hne Hsp. apply String.eqb_neq in Hne. rewrite Hne.
    unfold ClassList.add. cbn [forallb]. rewrite Hvalid, Hsp. reflexivity.
Qed.

Lemma handleLayout_classes_witness :
  handleLayout "0" Example4.section "gap" = Example4.section
  /\ (forall t,
        ClassList.contains t (handleLayout "3" Example4.section "grid")
        = (t =? "grid-3") || (true && (t =? "grid"))
          || ClassList.contains t Example4.section)
  /\ handleLayout "2 3" Example4.section "grid"
     = ClassList.put ["grid"] Example4.section.
Proof.
  split; [|split].
  - apply (proj1 (handleLayout_classes "0" "gap" Example4.section
                    ltac:(simpl; tauto))).
    reflexivity.
  - apply (proj1 (proj2 (handleLayout_classes "3" "grid" Example4.section
                           ltac:(simpl; tauto))));
      [discriminate|reflexivity].
  - apply (proj2 (proj2 (handleLayout_classes "2 3" "grid" Example4.section
                           ltac:(simpl; tauto))));
      [discriminate|reflexivity].
Defined.

(** ** Metadata entries and data attributes *)

Lemma keys_set {V} (k : string) (v : V) (l : list (string * V)) :
  forall x, In x (Assoc.keys (Assoc.set k v l)) <-> x = k \/ In x (Assoc.keys l).
Proof.
  intro x. induction l as [|[k0 v0] l IH]; cbn [Assoc.set Assoc.keys map fst].
  - simpl. intuition.
  - destruct (String.eqb_spec k0 k) as [->|Hne]; cbn [map fst].
    + simpl. intuition.
    + fold (Assoc.keys (Assoc.set k v l)). fold (Assoc.keys l).
      simpl. rewrite IH. intuition.
Qed.

Lemma NoDup_keys_set {V} (k : string) (v : V) (l : list (string * V)) :
  NoDup (Assoc.keys l) -> NoDup (Assoc.keys (Assoc.set k v l)).
Proof.
  induction l as [|[k0 v0] l IH]; intro Hnd; cbn [Assoc.set].
  - repeat constructor. intros [].
  - cbn [Assoc.keys map fst] in Hnd. inversion Hnd as [|? ? Hk0 Hl]; subst.
    destruct (String.eqb_spec k0 k) as [->|Hne]; cbn [Assoc.keys map fst].
    + now constructor.
    + constructor; [|now apply IH].
      fold (Assoc.keys (Assoc.set k v l)). rewrite keys_set.
      intros [->|H]; [congruence|contradiction].
Qed.

(** X11: the metadata object has an entry under a key only if a row of
    the table is filed under it, and the entry is the second cell of such a
    row with its text, trimmed and in lower case; a key for which no row is
    filed has no entry; no key is empty or [__proto__], and no key occurs
    twice. *)
Theorem getSectionMetadata_entries (el : Element) :
  (forall key e,
     Assoc.get key (getSectionMetadata el) = Some e ->
     key <> "" /\ key <> "__proto__" /\ filedFrom el key e)
  /\ (forall key,
        (forall row, In row (childNodes el) -> rowKey row <> Some key) ->
        Assoc.get key (getSectionMetadata el) = None)
  /\ NoDup (Assoc.keys (getSectionMetadata el)).
Proof.
  unfold getSectionMetadata, filedFrom.
  assert (Hfold : forall rows rdx,
             (forall row, In row rows -> In row (childNodes el)) ->
             (forall key e,
                 Assoc.get key (fold_left metadataStep rows rdx) = Some e ->
                 Assoc.get key rdx = Some e
                 \/ (key <> "" /\ key <> "__proto__"
                     /\ exists row cell0 cell1 more,
                         In (ElementNode row) (childNodes el)
                         /\ children row = cell0 :: cell1 :: more
                         /\ key = JS.toLowerCase (JS.trim (textContent cell0))
                         /\ content e = cell1
                         /\ text e
                            = JS.toLowerCase (JS.trim (textContent cell1))))
             /\ (NoDup (Assoc.keys rdx) ->
                 NoDup (Assoc.keys (fold_left metadataStep rows rdx)))).
  { induction rows as [|row rows IH]; intros rdx Hrows.
    - cbn [fold_left]. split; [intros key e H; now left|auto].
    - cbn [fold_left].
      destruct (IH (metadataStep rdx row)
                   (fun r Hr => Hrows r (or_intror Hr))) as [IHe IHn].
      assert (Hrow : In row (childNodes el)) by (apply Hrows; now left).
      split.
      + intros key e Hget. destruct (IHe key e Hget) as [Hstep|Hfound];
          [|now right].
        unfold metadataStep in Hstep. destruct row as [s|rowEl]; [now left|].
        destruct (children rowEl) as [|cell0 [|cell1 more]] eqn:Ec;
          try (now left).
        destruct (JS.truthy (JS.toLowerCase (JS.trim (textContent cell0))))
          eqn:Et; [|now left].
        unfold objectSet in Hstep.
        destruct (String.eqb_spec
                    (JS.toLowerCase (JS.trim (textContent cell0))) "__proto__")
          as [Hp|Hp]; [now left|].
        destruct (String.eqb_spec
                    (JS.toLowerCase (JS.trim (textContent cell0))) key)
          as [Hk|Hk].
        * right. subst key. rewrite AssocFacts.get_set_same in Hstep.
          injection Hstep as <-. split.
          { intro H0. rewrite H0 in Et. discriminate. }
          split; [exact Hp|]. exists rowEl, cell0, cell1, more.
          repeat split; assumption.
        * left. now rewrite AssocFacts.get_set_other in Hstep.
      + intro Hnd. apply IHn. unfold metadataStep.
        destruct row as [s|rowEl]; [exact Hnd|].
        destruct (children rowEl) as [|cell0 [|cell1 more]]; try exact Hnd.
        destruct (JS.truthy _); [|exact Hnd]. unfold objectSet.
        destruct (_ =? "__proto__"); [exact Hnd|]. now apply NoDup_keys_set. }
  destruct (Hfold (childNodes el) [] (fun r Hr => Hr)) as [He Hn].
  split; [|split].
  - intros key e Hget. destruct (He key e Hget) as [H|H]; [discriminate|].
    exact H.
  - intros key Hnone. now rewrite metadata_fold_other.
  - apply Hn. constructor.
Qed.

Lemma dataset_setDataset_other (p q v : string) (e : Element) :
  q <> p ->
  Assoc.get p (dataset (props (setDataset q v e)))
  = Assoc.get p (dataset (props e)).
Proof.
  intro Hne. unfold setDataset, withProps. cbn [props dataset].
  now apply AssocFacts.get_set_other.
Qed.

Lemma dataset_setDataset_same (p v : string) (e : Element) :
  Assoc.get p (dataset (props (setDataset p v e))) = Some v.
Proof.
  unfold setDataset, withProps. cbn [props dataset].
  apply AssocFacts.get_set_same.
Qed.

Section DataAttributeFacts.

Context {P : Platform}.

Lemma dataStep_frame (metadata : Metadata) (keys : list string) :
  forall s,
    tagName (props (fold_left (dataStep metadata) keys s)) = tagName (props s)
    /\ attributes (props (fold_left (dataStep metadata) keys s))
       = attributes (props s)
    /\ style (props (fold_left (dataStep metadata) keys s)) = style (props s)
    /\ childNodes (fold_left (dataStep metadata) keys s) = childNodes s.
Proof.
  induction keys as [|key keys IH]; intro s; [now repeat split|].
  cbn [fold_left]. destruct (IH (dataStep metadata s key)) as [H1 [H2 [H3 H4]]].
  rewrite H1, H2, H3, H4. unfold dataStep.
  destruct (existsb _ specialKeys); [now repeat split|].
  destruct (Assoc.get key metadata); now repeat split.
Qed.

Lemma dataStep_origin (metadata : Metadata) (keys : list string) :
  forall s p v,
    Assoc.get p (dataset (props (fold_left (dataStep metadata) keys s))) = Some v ->
    Assoc.get p (dataset (props s)) = Some v
    \/ exists key e,
        In key keys /\ Assoc.get key metadata = Some e
        /\ existsb (String.eqb key) specialKeys = false
        /\ toCamelCase key = p /\ text e = v.
Proof.
  induction keys as [|key keys IH]; intros s p v Hget; [now left|].
  cbn [fold_left] in Hget. destruct (IH _ p v Hget) as [Hs|Hk].
  - unfold dataStep in Hs.
    destruct (existsb (String.eqb key) specialKeys) eqn:Es; [now left|].
    destruct (Assoc.get key metadata) as [e|] eqn:Ee; [|now left].
    destruct (String.eqb_spec (toCamelCase key) p) as [Hp|Hp].
    + right. subst p. rewrite dataset_setDataset_same in Hs.
      injection Hs as <-. exists key, e. repeat split; auto. now left.
    + left. now rewrite dataset_setDataset_other in Hs.
  - right. destruct Hk as [k [e [Hin H]]]. exists k, e. split; [now right|exact H].
Qed.

Lemma dataStep_written (metadata : Metadata) (key : string) (e : Entry)
  (keys : list string) :
  Assoc.get key metadata = Some e ->
  existsb (String.eqb key) specialKeys = false ->
  (forall other, In other keys -> toCamelCase other = toCamelCase key ->
                 other = key) ->
  forall s,
    In key keys
    \/ Assoc.get (toCamelCase key) (dataset (props s)) = Some (text e) ->
    Assoc.get (toCamelCase key)
              (dataset (props (fold_left (dataStep metadata) keys s)))
    = Some (text e).
Proof.
  intros He Hs. induction keys as [|k keys IH]; intros Hcol s Hin.
  - destruct Hin as [[]|H]. exact H.
  - cbn [fold_left]. apply IH; [intros o Ho; apply Hcol; now right|].
    destruct (String.eqb_spec k key) as [->|Hne].
    + right. unfold dataStep. rewrite Hs, He. apply dataset_setDataset_same.
    + destruct Hin as [[Hk|Hin]|Hset]; [congruence|now left|right].
      unfold dataStep. destruct (existsb (String.eqb k) specialKeys);
        [exact Hset|].
      destruct (Assoc.get k metadata) as [e'|]; [|exact Hset].
      rewrite dataset_setDataset_other; [exact Hset|].
      intro Hc. apply Hne. apply Hcol; [now left|exact Hc].
Qed.

(** X12: the catch-all of [handleSectionMetadata] writes the dataset of
    the section and nothing else; a data attribute that the section has
    afterwards and had not before is the text of a key that is not special,
    under the camel-cased key; a key that is not special, and whose
    camel-cased form no other key shares, is there with its text. *)
Theorem setDataAttributes_dataset (metadata : Metadata) (section : Element) :
  (tagName (props (setDataAttributes metadata section)) = tagName (props section)
   /\ attributes (props (setDataAttributes metadata section))
      = attributes (props section)
   /\ style (props (setDataAttributes metadata section)) = style (props section)
   /\ childNodes (setDataAttributes metadata section) = childNodes section)
  /\ (forall p v,
        Assoc.get p (dataset (props (setDataAttributes metadata section)))
        = Some v ->
        Assoc.get p (dataset (props section)) = Some v
        \/ exists key e,
            Assoc.get key metadata = Some e
            /\ existsb (String.eqb key) specialKeys = false
            /\ toCamelCase key = p /\ text e = v)
  /\ (forall key e,
        Assoc.get key metadata = Some e ->
        existsb (String.eqb key) specialKeys = false ->
        (forall other, In other (Assoc.keys metadata) ->
                       toCamelCase other = toCamelCase key -> other = key) ->
        Assoc.get (toCamelCase key)
                  (dataset (props (setDataAttributes metadata section)))
        = Some (text e)).
Proof.
  change (setDataAttributes metadata section)
    with (fold_left (dataStep metadata) (objectKeys metadata) section).
  split; [apply dataStep_frame|]. split.
  - intros p v Hget. destruct (dataStep_origin _ _ _ _ _ Hget) as [H|H];
      [now left|right].
    destruct H as [key [e [_ H]]]. now exists key, e.
  - intros key e He Hs Hcol.
    apply (dataStep_written metadata key e (objectKeys metadata) He Hs).
    + intros other Ho. apply Hcol.
      change (objectKeys metadata) with (ownKeys metadata) in Ho.
      now apply In_ownKeys in Ho.
    + left. change (objectKeys metadata) with (ownKeys metadata).
      apply In_ownKeys. eapply get_In_keys. exact He.
Qed.

End DataAttributeFacts.

Lemma getSectionMetadata_entries_witness :
  (Assoc.get "style" (getSectionMetadata Example5.table)
   = Some (mkEntry (Example5.cell "Light") "light") ->
   "style" <> "" /\ "style" <> "__proto__"
   /\ filedFrom Example5.table "style" (mkEntry (Example5.cell "Light") "light"))
  /\ Assoc.get "gap" (getSectionMetadata Example5.table) = None.
Proof.
  split.
  - apply (proj1 (getSectionMetadata_entries Example5.table)).
  - apply (proj1 (proj2 (getSectionMetadata_entries Example5.table))).
    intros row [<-|[<-|[<-|[]]]]; discriminate.
Defined.

Lemma setDataAttributes_dataset_witness :
  Assoc.get "theme"
    (dataset (props (setDataAttributes
                       (P := Reference.platform)
                       (getSectionMetadata Example10.metadata)
                       Example4.section)))
  = Some "ocean".
Proof.
  apply (proj2 (proj2 (setDataAttributes_dataset
                         (P := Reference.platform)
                         (getSectionMetadata Example10.metadata)
                         Example4.section))
           "theme" (mkEntry (Example5.cell "ocean") "ocean")).
  - reflexivity.
  - reflexivity.
  - intros other [<-|[<-|[<-|[]]]]; intro H; try reflexivity;
      vm_compute in H; discriminate H.
Defined.

(** ** A style that is refused *)

Lemma updateNth_same (i : nat) (c : Element) (f : Element -> Element)
  (ns : list Node) :
  nth_error ns i = Some (ElementNode c) -> f c = c -> updateNth i f ns = ns.
Proof.
  revert i. induction ns as [|n ns IH]; intros i Hn Hf.
  - now destruct i.
  - destruct i as [|i]; cbn [nth_error] in Hn.
    + injection Hn as ->. cbn [updateNth]. now rewrite Hf.
    + cbn [updateNth]. destruct n; now rewrite (IH i Hn Hf).
Qed.

Lemma updateAt_same (p : Path) :
  forall (doc section : Element),
    elementAt p doc = Some section ->
    updateAt p (fun _ => section) doc = doc.
Proof.
  induction p as [|i p IH]; intros doc section Hat; cbn [updateAt].
  - cbn [elementAt] in Hat. now injection Hat as ->.
  - cbn [elementAt] in Hat.
    destruct (nth_error (childNodes doc) i) as [[s|c]|] eqn:Ei;
      try discriminate.
    unfold updateChild, withChildNodes.
    rewrite (updateNth_same i c _ _ Ei (IH c section Hat)).
    now destruct doc.
Qed.

Lemma closestSection_elementAt (el : Path) :
  forall (doc : Element) (sp rel : Path),
    closestSection el doc = Some (sp, rel) ->
    exists section, elementAt sp doc = Some section.
Proof.
  intros doc sp rel H.
  destruct (closestSection_some el doc sp rel H) as [_ [e [He _]]].
  now exists e.
Qed.

Section RefusedStyleFacts.

Context {P : Platform}.

(** X13: when the style of the metadata table is refused, because a piece
    of it is empty or holds a line break or a tab, [handleSectionMetadata]
    is rejected and the document is as before: no other key of the table
    has been applied and the table has not been removed. *)
Theorem handleSectionMetadata_refused_style (doc section table : Element)
  (el sp rel : Path) (styleText : string) :
  closestSection el doc = Some (sp, rel) ->
  elementAt sp doc = Some section ->
  elementAt rel section = Some table ->
  metadataText "style" (getSectionMetadata table) = Some styleText ->
  (exists piece,
      In piece (JS.split styleText ", ")
      /\ (piece = "" \/ hasBreak piece = true)) ->
  handleSectionMetadata doc el = Rejected doc.
Proof.
  intros Hcl Hsec Htab Hstyle Hbad.
  assert (Hthrow : handleStyle styleText section = None).
  { unfold handleStyle, ClassList.add.
    destruct (forallb ClassList.validToken _) eqn:Ev; [|reflexivity].
    exfalso. destruct Hbad as [piece [Hin Hp]].
    rewrite forallb_forall in Ev.
    specialize (Ev (JS.replaceAll piece " " "-")
                   (in_map (fun style => JS.replaceAll style " " "-")
                           _ piece Hin)).
    rewrite validToken_style in Ev. apply andb_true_iff in Ev.
    destruct Ev as [E1 E2]. destruct Hp as [->|Hb]; [discriminate|].
    rewrite Hb in E2. discriminate. }
  unfold handleSectionMetadata. rewrite Hcl, Hsec, Htab.
  unfold applyMetadata. rewrite Hstyle, Hthrow.
  now rewrite (updateAt_same sp doc section Hsec).
Qed.

End RefusedStyleFacts.

Lemma handleSectionMetadata_refused_style_witness :
  handleSectionMetadata (P := Reference.platform)
    ExampleRefused.document [0; 1]
  = Rejected ExampleRefused.document.
Proof.
  apply (handleSectionMetadata_refused_style
           (P := Reference.platform)
           ExampleRefused.document ExampleRefused.section ExampleRefused.table
           [0; 1] [0] [1]
           (String "d" (String "a" (String "r" (String "k"
              (String "010"%char "wide")))))).
  - reflexivity.
  - reflexivity.
  - reflexivity.
  - reflexivity.
  - eexists. split; [left; reflexivity|]. right. reflexivity.
Defined.

(** ** The last row of a key *)

















Section LastRowFacts.

Context {P : Platform}.











End LastRowFacts.

(** *** The block-content groups *)








Lemma style_setDataset (p v : string) (e : Element) :
  style (props (setDataset p v e)) = style (props e).
Proof. reflexivity. Qed.

Section BlockContentFacts.

Context {P : Platform}.


End BlockContentFacts.

Section LastRowWins.

Context {P : Platform}.



End LastRowWins.


(** ** Directives and what a link keeps *)

Lemma length_append (s1 s2 : string) :
  String.length (s1 ++ s2)%string = String.length s1 + String.length s2.
Proof. induction s1 as [|c s1 IH]; simpl; [reflexivity|now rewrite IH]. Qed.

Lemma includes_length (s sub : string) :
  JS.includes s sub = true -> String.length sub <= String.length s.
Proof.
  induction s as [|c s IH]; cbn [JS.includes]; intro H;
    apply orb_true_iff in H; destruct H as [H|H]; try discriminate.
  - apply RgbRegexFacts.startsWith_split in H.
    apply (f_equal String.length) in H. rewrite length_append in H. lia.
  - apply RgbRegexFacts.startsWith_split in H.
    apply (f_equal String.length) in H. rewrite length_append in H. lia.
  - specialize (IH H). cbn [String.length]. lia.
Qed.

Lemma includes_directive (h name : string) :
  In name ["#_blank"; "#_dnt"; "#_dnb"] ->
  JS.includes h name = true -> JS.truthy h = true /\ (h =? "#") = false.
Proof.
  intros Hname Hinc. apply includes_length in Hinc.
  assert (Hlen : 5 <= String.length name)
    by (destruct Hname as [<-|[<-|[<-|[]]]]; cbn [String.length]; lia).
  destruct h as [|c [|c' h]]; cbn [String.length] in Hinc; try lia.
  split; [reflexivity|].
  change (String c (String c' h) =? "#") with (Ascii.eqb c "#" && false).
  apply andb_false_r.
Qed.

Lemma guard_no_directive (h name : string) :
  In name ["#_blank"; "#_dnt"; "#_dnb"] ->
  negb (JS.truthy h) || (h =? "#") = true ->
  JS.includes h name = false.
Proof.
  intros Hname Hg. destruct (JS.includes h name) eqn:Ei; [|reflexivity].
  destruct (includes_directive _ _ Hname Ei) as [H1 H2].
  rewrite H1, H2 in Hg. discriminate.
Qed.

Section HashFacts.

Context {P : Platform}.

Lemma findHash_frame (h name attr : string) (a : Element) :
  attr <> "href" ->
  getAttribute attr (fst (findHash h name a)) = getAttribute attr a.
Proof.
  intro Hne. unfold findHash. destruct (JS.includes h name); cbn [fst];
    [|reflexivity].
  apply getAttribute_setAttribute_other. congruence.
Qed.

Lemma decorateHash_frame (a : Element) (url : URL) (attr : string) :
  attr <> "href" -> attr <> "target" ->
  getAttribute attr (fst (fst (decorateHash a url))) = getAttribute attr a.
Proof.
  intros Hh Ht. unfold decorateHash.
  destruct (negb (JS.truthy (hash url)) || (hash url =? "#")); [reflexivity|].
  unfold findHash, setHref. cbn [fst].
  destruct (JS.includes (hash url) "#_blank");
    destruct (JS.includes (hash url) "#_dnt");
    destruct (JS.includes (hash url) "#_dnb");
    repeat rewrite (getAttribute_setAttribute_other attr) by congruence;
    reflexivity.
Qed.

(** X14: [decorateHash] reports #_dnt and #_dnb exactly when the fragment
    includes them, sets the target to _blank exactly when the fragment
    includes #_blank and leaves it alone otherwise, touches no attribute
    other than href and target, and leaves an anchor whose fragment
    includes none of the three directives as it is. *)
Theorem decorateHash_effects (a : Element) (url : URL) :
  let result := decorateHash a url in
  snd (fst result) = JS.includes (hash url) "#_dnt"
  /\ snd result = JS.includes (hash url) "#_dnb"
  /\ getAttribute "target" (fst (fst result))
     = (if JS.includes (hash url) "#_blank" then Some "_blank"
        else getAttribute "target" a)
  /\ (forall attr, attr <> "href" -> attr <> "target" ->
                   getAttribute attr (fst (fst result)) = getAttribute attr a)
  /\ (JS.includes (hash url) "#_blank" = false ->
      JS.includes (hash url) "#_dnt" = false ->
      JS.includes (hash url) "#_dnb" = false ->
      fst (fst result) = a).
Proof.
  intro result. subst result.
  split; [|split; [|split; [|split]]].
  - unfold decorateHash.
    destruct (negb (JS.truthy (hash url)) || (hash url =? "#")) eqn:Eg.
    + cbn [fst snd]. symmetry. apply guard_no_directive; [simpl; tauto|exact Eg].
    + reflexivity.
  - unfold decorateHash.
    destruct (negb (JS.truthy (hash url)) || (hash url =? "#")) eqn:Eg.
    + cbn [fst snd]. symmetry. apply guard_no_directive; [simpl; tauto|exact Eg].
    + reflexivity.
  - unfold decorateHash.
    destruct (negb (JS.truthy (hash url)) || (hash url =? "#")) eqn:Eg.
    + cbn [fst snd]. rewrite guard_no_directive; [reflexivity|simpl; tauto|exact Eg].
    + unfold findHash, setHref. cbn [fst].
      destruct (JS.includes (hash url) "#_blank");
        destruct (JS.includes (hash url) "#_dnt");
        destruct (JS.includes (hash url) "#_dnb");
        repeat rewrite (getAttribute_setAttribute_other "target" "href")
          by discriminate;
        rewrite ?(getAttribute_setAttribute_same "target");
        reflexivity.
  - intros attr Hh Ht. now apply decorateHash_frame.
  - intros Hb Ht Hd. unfold decorateHash, findHash.
    rewrite Hb, Ht, Hd.
    destruct (negb (JS.truthy (hash url)) || (hash url =? "#")); reflexivity.
Qed.

Lemma classifyWidget_frame (config : Config) (dnb : bool) (a : Element)
  (attr : string) :
  attr <> "class" ->
  getAttribute attr (anchor (classifyWidget config dnb a)) = getAttribute attr a.
Proof.
  intro Hne. unfold classifyWidget. destruct dnb; [reflexivity|].
  destruct (firstWidget (getHref a) (widgets config)) as [key|]; [|reflexivity].
  unfold ClassList.add. destruct (forallb _ _); [|reflexivity].
  cbn [anchor]. now apply getAttribute_put.
Qed.

Lemma classifyWidget_logged (config : Config) (dnb : bool) (a : Element) :
  logged (classifyWidget config dnb a) = []
  \/ (logged (classifyWidget config dnb a) = couldNotDecorate
      /\ isWidget (classifyWidget config dnb a) = false).
Proof.
  unfold classifyWidget. destruct dnb; [now left|].
  destruct (firstWidget _ _); [|now left].
  destruct (ClassList.add _ a); [now left|now right].
Qed.

(** X15: a call of [decorateLink] either logs nothing or logs the failure
    and returns [null]; an anchor whose fragment includes #_dnb is not
    returned; and no attribute other than href, target and class changes,
    as far as [decorateButtons] leaves it alone. *)
Theorem decorateLink_keeps (config : Config) (a : Element) :
  (logged (decorateLink config a) = []
   \/ (logged (decorateLink config a) = couldNotDecorate
       /\ isWidget (decorateLink config a) = false))
  /\ (forall url,
        URL_parse (getHref a) = Some url ->
        JS.includes (hash url) "#_dnb" = true ->
        isWidget (decorateLink config a) = false)
  /\ (forall attr,
        attr <> "href" -> attr <> "target" -> attr <> "class" ->
        (forall x, getAttribute attr (decorateButtons x) = getAttribute attr x) ->
        getAttribute attr (anchor (decorateLink config a))
        = getAttribute attr a).
Proof.
  split; [|split].
  - unfold decorateLink. destruct (URL_parse (getHref a)) as [url|];
      [|now right].
    destruct (prepareLink config a url) as [a' dnb|a']; [|now right].
    apply classifyWidget_logged.
  - intros url Hparse Hdnb. unfold decorateLink. rewrite Hparse.
    destruct (prepareLink config a url) as [a' dnb|a'] eqn:Ep; [|reflexivity].
    apply prepareLink_dnb in Ep. subst dnb.
    destruct (includes_directive _ "#_dnb" ltac:(simpl; tauto) Hdnb)
      as [H1 H2].
    unfold doNotBlock. rewrite H1, H2, Hdnb. reflexivity.
  - intros attr Hh Ht Hc Hbuttons. unfold decorateLink.
    destruct (URL_parse (getHref a)) as [url|]; [|reflexivity].
    unfold prepareLink.
    set (a1 := if existsb _ (hostnames config) then _ else a).
    assert (H1 : getAttribute attr a1 = getAttribute attr a).
    { subst a1. destruct (existsb _ (hostnames config)); [|reflexivity].
      apply getAttribute_setAttribute_other. congruence. }
    pose proof (decorateHash_frame a1 url attr Hh Ht) as H2.
    destruct (decorateHash a1 url) as [[a2 dnt] dnb]. cbn [fst] in H2.
    destruct dnt.
    + rewrite classifyWidget_frame, Hbuttons by exact Hc. congruence.
    + destruct (localizeUrl config url) as [|localized|].
      * rewrite classifyWidget_frame, Hbuttons by exact Hc. congruence.
      * rewrite classifyWidget_frame, Hbuttons by exact Hc.
        unfold setHref. rewrite getAttribute_setAttribute_other by congruence.
        congruence.
      * cbn [anchor]. congruence.
Qed.

End HashFacts.

Lemma decorateHash_effects_witness :
  getAttribute "title"
    (fst (fst (decorateHash (P := Reference.platform)
                 (setAttribute "title" "About"
                    (ExampleLinks.link "https://example.com/a#_blank"))
                 (mkURL "https://example.com/a#_blank" "https://example.com"
                        "example.com" "/a" "" "#_blank"))))
  = Some "About"
  /\ fst (fst (decorateHash (P := Reference.platform)
                 (ExampleLinks.link "https://example.com/a#top")
                 (mkURL "https://example.com/a#top" "https://example.com"
                        "example.com" "/a" "" "#top")))
     = ExampleLinks.link "https://example.com/a#top".
Proof.
  split.
  - rewrite (proj1 (proj2 (proj2 (proj2
               (decorateHash_effects (P := Reference.platform)
                  (setAttribute "title" "About"
                     (ExampleLinks.link "https://example.com/a#_blank"))
                  (mkURL "https://example.com/a#_blank" "https://example.com"
                         "example.com" "/a" "" "#_blank")))))
               "title");
      try discriminate; reflexivity.
  - apply (proj2 (proj2 (proj2 (proj2
             (decorateHash_effects (P := Reference.platform)
                (ExampleLinks.link "https://example.com/a#top")
                (mkURL "https://example.com/a#top" "https://example.com"
                       "example.com" "/a" "" "#top"))))));
      reflexivity.
Defined.

Lemma decorateLink_keeps_witness :
  isWidget (decorateLink (P := Reference.platform) ExampleLinks.shipped
              (ExampleLinks.link "https://example.com/fragments/a#_dnb"))
  = false
  /\ getAttribute "title"
       (anchor (decorateLink (P := Reference.platform) ExampleLinks.shipped
                  (setAttribute "title" "About"
                     (ExampleLinks.link "https://example.com/fragments/a"))))
     = Some "About".
Proof.
  split.
  - apply (proj1 (proj2 (decorateLink_keeps
                           (P := Reference.platform) ExampleLinks.shipped
                           (ExampleLinks.link
                              "https://example.com/fragments/a#_dnb")))
             (mkURL "https://example.com/fragments/a#_dnb"
                    "https://example.com" "example.com" "/fragments/a" ""
                    "#_dnb"));
      reflexivity.
  - rewrite (proj2 (proj2 (decorateLink_keeps
                             (P := Reference.platform) ExampleLinks.shipped
                             (setAttribute "title" "About"
                                (ExampleLinks.link
                                   "https://example.com/fragments/a"))))
               "title");
      try discriminate; reflexivity.
Defined.

(** ** Groups of a section *)

Lemma runsFrom_head (cs : list Element) :
  forall b cur, exists cur' rest, runsFrom b cur cs = (b, cur') :: rest.
Proof.
  induction cs as [|c cs IH]; intros b cur; cbn [runsFrom].
  - now exists cur, [].
  - destruct (Bool.eqb b (isDiv c)); [apply IH|].
    now exists cur, (runsFrom (isDiv c) [c] cs).
Qed.

Lemma runsFrom_alternate (cs : list Element) :
  forall b cur i r1 r2,
    nth_error (runsFrom b cur cs) i = Some r1 ->
    nth_error (runsFrom b cur cs) (S i) = Some r2 ->
    fst r1 <> fst r2.
Proof.
  induction cs as [|c cs IH]; intros b cur i r1 r2; cbn [runsFrom].
  - destruct i; discriminate.
  - destruct (Bool.eqb b (isDiv c)) eqn:E; [apply IH|].
    destruct i as [|i]; [|apply IH].
    cbn [nth_error]. intros [= <-].
    destruct (runsFrom_head cs (isDiv c) [c]) as [cur' [rest ->]].
    cbn [nth_error]. intros [= <-]. cbn [fst]. intros ->.
    now rewrite Bool.eqb_reflx in E.
Qed.

Lemma runsFrom_all_div (cs : list Element) :
  forall cur, forallb isDiv cs = true ->
              runsFrom true cur cs = [(true, cur ++ cs)].
Proof.
  induction cs as [|c cs IH]; intros cur Hall; cbn [runsFrom].
  - now rewrite app_nil_r.
  - cbn [forallb] in Hall. apply andb_true_iff in Hall. destruct Hall as [Hc Hall].
    rewrite Hc. cbn [Bool.eqb]. rewrite IH by exact Hall.
    now rewrite <- app_assoc.
Qed.

(** The groups of a section are the wrappers of a list of runs that
    partitions its content children. *)
Lemma groupChildren_wrappers (section : Element) :
  exists rs : list (bool * list Element),
    groupChildren section = map (fun run => wrapper (fst run) (snd run)) rs
    /\ List.concat (map snd rs) = contentChildren section
    /\ (contentChildren section <> [] -> rs <> [])
    /\ forall i r1 r2, nth_error rs i = Some r1 ->
                       nth_error rs (S i) = Some r2 -> fst r1 <> fst r2.
Proof.
  unfold groupChildren. destruct (contentChildren section) as [|c cs] eqn:Ecs.
  - exists []. repeat split; try reflexivity; try contradiction.
    intros i r1 r2 H. now destruct i.
  - cbn [List.length Nat.eqb].
    destruct (existsb isBlock (c :: cs)); cbn [negb].
    + exists (runs (c :: cs)). rewrite groupLoop_runs. cbn [runs].
      split; [reflexivity|]. split; [apply (concat_runsFrom cs (isDiv c) [c])|].
      split.
      * intros _. destruct (runsFrom_head cs (isDiv c) [c]) as [cur' [rest ->]].
        discriminate.
      * apply runsFrom_alternate.
    + exists [(false, c :: cs)]. split; [reflexivity|].
      split; [cbn; now rewrite app_nil_r|]. split; [discriminate|].
      intros i r1 r2 H1 H2. destruct i as [|[|i]]; discriminate.
Qed.

(** X16: in the list that [groupChildren] returns, a group and the next
    one never have the same class: block-content and default-content
    alternate. *)
Theorem groupChildren_alternates (section : Element) (i : nat)
  (group next : Element) :
  nth_error (groupChildren section) i = Some group ->
  nth_error (groupChildren section) (S i) = Some next ->
  className group <> className next.
Proof.
  destruct (groupChildren_wrappers section) as [rs [-> [_ [_ Halt]]]].
  rewrite !nth_error_map.
  destruct (nth_error rs i) as [r1|] eqn:E1; [|discriminate].
  destruct (nth_error rs (S i)) as [r2|] eqn:E2; [|discriminate].
  cbn [option_map]. intros [= <-] [= <-].
  rewrite !className_wrapper. specialize (Halt i r1 r2 E1 E2).
  destruct (fst r1), (fst r2); try discriminate; now contradiction Halt.
Qed.

Lemma groupChildren_alternates_witness :
  className (wrapper false [Example.paragraph])
  <> className (wrapper true [Example.hero; Example.plainDiv]).
Proof.
  apply (groupChildren_alternates Example.mixed 0); reflexivity.
Defined.

Lemma elementsOf_app (l1 l2 : list Node) :
  elementsOf (l1 ++ l2) = elementsOf l1 ++ elementsOf l2.
Proof.
  induction l1 as [|[s|c] l1 IH]; cbn [app elementsOf];
    [reflexivity|exact IH|now rewrite IH].
Qed.

Lemma elementsOf_kept (ns : list Node) :
  elementsOf
    (filter (fun n => match n with
                      | TextNode _ => true
                      | ElementNode c => ClassList.contains "section-metadata" c
                      end) ns)
  = filter (ClassList.contains "section-metadata") (elementsOf ns).
Proof.
  induction ns as [|[s|c] ns IH]; cbn [filter elementsOf];
    [reflexivity|exact IH|].
  destruct (ClassList.contains "section-metadata" c); cbn [elementsOf];
    now rewrite IH.
Qed.

Lemma wrapper_no_metadata (b : bool) (ms : list Element) :
  ClassList.contains "section-metadata" (wrapper b ms) = false.
Proof. unfold ClassList.contains. rewrite className_wrapper. now destruct b. Qed.

Lemma wrapper_isBlock (b : bool) (ms : list Element) :
  isDiv (wrapper b ms) = true /\ isBlock (wrapper b ms) = true.
Proof.
  unfold isBlock, isDiv. rewrite tagName_wrapper, className_wrapper.
  now destruct b.
Qed.

Lemma children_wrapSection (section : Element) :
  children (wrapSection section)
  = filter (ClassList.contains "section-metadata") (children section)
    ++ groupChildren section.
Proof.
  unfold wrapSection, children. rewrite childNodes_put.
  rewrite childNodes_fold_append, elementsOf_app, elementsOf_map.
  unfold sectionAfterGrouping, withChildNodes. cbn [childNodes].
  now rewrite elementsOf_kept.
Qed.

Lemma contentChildren_wrapSection (section : Element) :
  contentChildren (wrapSection section) = groupChildren section.
Proof.
  unfold contentChildren at 1. rewrite children_wrapSection, filter_app.
  replace (filter _ (filter _ (children section))) with (@nil Element).
  - cbn [app]. destruct (groupChildren_wrappers section) as [rs [-> _]].
    induction rs as [|r rs IH]; [reflexivity|].
    cbn [map filter]. rewrite wrapper_no_metadata. cbn [negb]. now rewrite IH.
  - induction (children section) as [|c cs IH]; [reflexivity|].
    cbn [filter]. destruct (ClassList.contains "section-metadata" c) eqn:E;
      [|exact IH].
    cbn [filter]. rewrite E. exact IH.
Qed.

Section WrapFacts.

Context {P : Platform}.

(** X17: after the first statements of the callback of [decorateSections]
    the section carries the class section; its element children are its
    metadata elements, then the groups; the children of the groups, one
    group after the other, are the former content children in their order;
    and [handleSectionMetadata], called for any element below the section,
    finds an enclosing section. *)
Theorem wrapSection_structure (section : Element) :
  ClassList.contains "section" (wrapSection section) = true
  /\ children (wrapSection section)
     = filter (ClassList.contains "section-metadata") (children section)
       ++ groupChildren section
  /\ contentChildren (wrapSection section) = groupChildren section
  /\ List.concat (map children (groupChildren section))
     = contentChildren section
  /\ forall el : Path, closestSection el (wrapSection section) <> None.
Proof.
  assert (Hclass : ClassList.contains "section" (wrapSection section) = true).
  { unfold wrapSection.
    rewrite ClassListFacts.contains_put by (repeat constructor). reflexivity. }
  split; [exact Hclass|]. split; [apply children_wrapSection|].
  split; [apply contentChildren_wrapSection|]. split.
  - destruct (groupChildren_wrappers section) as [rs [-> [Hc _]]].
    rewrite map_map.
    rewrite (map_ext _ snd) by (intros [b ms]; apply children_wrapper).
    exact Hc.
  - intro el. destruct el as [|i el]; cbn [closestSection]; rewrite Hclass;
      [discriminate|].
    destruct (nth_error _ i) as [[s|c]|]; try discriminate.
    destruct (closestSection el c) as [[sp rel]|]; discriminate.
Qed.

End WrapFacts.

(** X18: decorating a section a second time does not give the same
    groups: the groups of the first time are content children of the
    section now, each a [div] with a class, and [groupChildren] puts them
    all into one new block-content group; a section without content
    children gets no group either time. *)
Theorem groupChildren_again (section : Element) :
  (contentChildren section <> [] ->
   groupChildren (wrapSection section)
   = [wrapper true (groupChildren section)])
  /\ (contentChildren section = [] ->
      groupChildren (wrapSection section) = []).
Proof.
  unfold groupChildren at 1 3. rewrite contentChildren_wrapSection. split.
  - intro Hne.
    destruct (groupChildren_wrappers section) as [rs [Hgs [_ [Hrs _]]]].
    specialize (Hrs Hne). rewrite Hgs.
    destruct rs as [|r rs]; [contradiction|]. cbn [map List.length Nat.eqb].
    assert (Hall : forall l : list (bool * list Element),
               forallb isDiv (map (fun run => wrapper (fst run) (snd run)) l)
               = true).
    { induction l as [|x l IH]; [reflexivity|]. cbn [map forallb].
      now rewrite (proj1 (wrapper_isBlock (fst x) (snd x))), IH. }
    cbn [existsb]. rewrite (proj2 (wrapper_isBlock (fst r) (snd r))).
    cbn [orb negb]. rewrite groupLoop_runs. cbn [runs].
    rewrite (proj1 (wrapper_isBlock (fst r) (snd r))).
    rewrite runsFrom_all_div by apply Hall. reflexivity.
  - intro Hnil. unfold groupChildren. now rewrite Hnil.
Qed.

Lemma groupChildren_again_witness :
  groupChildren (wrapSection Example.mixed)
  = [wrapper true (groupChildren Example.mixed)]
  /\ groupChildren (wrapSection Example.metadataOnly) = [].
Proof.
  split.
  - apply (proj1 (groupChildren_again Example.mixed)). discriminate.
  - apply (proj2 (groupChildren_again Example.metadataOnly)). reflexivity.
Defined.

(** ** Labels of links *)

Lemma querySelectorAllTag_nodes (tag : string) (d : ElementData)
  (ns : list Node) :
  querySelectorAllTag tag (mkElement d ns) = descendantsTag tag ns.
Proof.
  cbn [querySelectorAllTag]. unfold descendantsTag.
  induction ns as [|[s|c] ns IH]; cbn [flat_map];
    [reflexivity|exact IH|].
  rewrite IH. now rewrite <- app_assoc.
Qed.

Lemma textContent_nodes (d : ElementData) (ns : list Node) :
  textContent (mkElement d ns) = textOfNodes ns.
Proof.
  cbn [textContent]. induction ns as [|[s|c] ns IH]; cbn [textOfNodes];
    [reflexivity|now rewrite IH|now rewrite IH].
Qed.

Lemma a11yLinks_nodes (d : ElementData) (ns : list Node) :
  a11yLinks (mkElement d ns) = mkElement d (map labelNode ns).
Proof.
  cbn [a11yLinks]. f_equal.
  induction ns as [|[s|c] ns IH]; cbn [map labelNode];
    [reflexivity|now rewrite IH|now rewrite IH].
Qed.

Lemma props_a11yLinks (e : Element) : props (a11yLinks e) = props e.
Proof. now destruct e. Qed.

Lemma textContent_setAttribute (k v : string) (e : Element) :
  textContent (setAttribute k v e) = textContent e.
Proof. now destruct e. Qed.

Lemma querySelectorAllTag_setAttribute (tag k v : string) (e : Element) :
  querySelectorAllTag tag (setAttribute k v e) = querySelectorAllTag tag e.
Proof. now destruct e. Qed.

Lemma tagName_setAttribute (k v : string) (e : Element) :
  tagName (props (setAttribute k v e)) = tagName (props e).
Proof. reflexivity. Qed.

(** X19: [a11yLinks] changes no text, and afterwards every anchor below
    the element has the attribute aria-label: the anchors are the same in
    number and order, and the label of each is the one computed from the
    anchor as it was, its text or, for an anchor without text, what the
    icon in it gives. *)
Theorem a11yLinks_labels (main : Element) :
  textContent (a11yLinks main) = textContent main
  /\ map (getAttribute "aria-label") (querySelectorAllTag "A" (a11yLinks main))
     = map (fun link => Some (toAttributeValue (a11yLabel link)))
           (querySelectorAllTag "A" main).
Proof.
  induction main as [d ns IH] using Element_induction.
  rewrite a11yLinks_nodes, !textContent_nodes, !querySelectorAllTag_nodes.
  induction ns as [|n ns IHns]; [now split|].
  inversion IH as [|? ? Hn Hns]; subst. destruct (IHns Hns) as [Ht Hq].
  destruct n as [s|c].
  - cbn [map labelNode textOfNodes]. unfold descendantsTag in *.
    cbn [flat_map app]. now rewrite Ht.
  - destruct Hn as [Hct Hcq].
    cbn [map labelNode textOfNodes]. unfold descendantsTag in *.
    cbn [flat_map]. rewrite !map_app, Hq. split.
    + rewrite <- Ht. f_equal.
      destruct (tagName (props c) =? "A");
        rewrite ?textContent_setAttribute; exact Hct.
    + f_equal. destruct (tagName (props c) =? "A") eqn:Etag.
      * rewrite tagName_setAttribute, props_a11yLinks, Etag.
        rewrite querySelectorAllTag_setAttribute. cbn [map app].
        rewrite getAttribute_setAttribute_same. now rewrite Hcq.
      * rewrite props_a11yLinks, Etag. cbn [map app]. exact Hcq.
Qed.

Lemma rev_onto_rev_onto (s : string) :
  forall acc acc',
    JS.rev_onto (JS.rev_onto s acc) acc' = JS.rev_onto acc (s ++ acc')%string.
Proof.
  induction s as [|c s IH]; intros acc acc'; [reflexivity|].
  cbn [JS.rev_onto String.append]. now rewrite IH.
Qed.

Lemma rev_rev_onto (s : string) : JS.rev (JS.rev_onto s "") = s.
Proof.
  unfold JS.rev. rewrite rev_onto_rev_onto. cbn [JS.rev_onto].
  apply append_empty.
Qed.

Lemma split_from_run (a : string) :
  forall cur rest,
    noHyphen a = true ->
    JS.split_from 0 cur (a ++ rest)%string "-"
    = JS.split_from 0 (JS.rev_onto a cur) rest "-".
Proof.
  unfold noHyphen, allChars. induction a as [|c a IH]; intros cur rest Hn;
    [reflexivity|].
  cbn [list_ascii_of_string forallb] in Hn. apply andb_true_iff in Hn.
  destruct Hn as [Hc Hn]. cbn [String.append JS.split_from JS.rev_onto].
  unfold JS.startsWith. cbn [String.prefix].
  destruct (ascii_dec "-" c) as [<-|Hne]; [discriminate|]. now apply IH.
Qed.

Lemma split_from_hyphen (cur rest : string) :
  JS.split_from 0 cur (String "-" rest) "-"
  = JS.rev cur :: JS.split_from 0 "" rest "-".
Proof.
  cbn [JS.split_from String.length Nat.sub]. unfold JS.startsWith.
  cbn [String.prefix]. destruct (ascii_dec "-" "-"); [|contradiction].
  now destruct rest.
Qed.

Lemma split_no_hyphen (s : string) :
  noHyphen s = true -> JS.split s "-" = [s].
Proof.
  intro Hn. unfold JS.split.
  rewrite <- (append_empty s) at 1. rewrite split_from_run by exact Hn.
  cbn [JS.split_from]. now rewrite rev_rev_onto.
Qed.

Lemma split_hyphen (pre rest : string) :
  noHyphen pre = true ->
  JS.split (pre ++ String "-" rest)%string "-" = pre :: JS.split rest "-".
Proof.
  intro Hn. unfold JS.split. rewrite split_from_run by exact Hn.
  now rewrite split_from_hyphen, rev_rev_onto.
Qed.

(** X20: the label of an anchor with text is its text; an anchor without
    text and without icon gets the empty label; for an anchor without text
    whose first [span.icon] has a second class of the form
    [icon-name], or [icon-name-more], the label is [name]; when that span
    has no second class, or one without hyphen, the label is the text
    undefined. *)
Theorem a11yLabel_cases (link : Element) :
  (textContent link <> "" -> a11yLabel link = Some (textContent link))
  /\ (textContent link = "" -> querySelectorBy isSpanIcon link = None ->
      a11yLabel link = Some "")
  /\ (forall icon,
        textContent link = "" ->
        querySelectorBy isSpanIcon link = Some icon ->
        (forall pre name more,
            nth_error (ClassList.tokens (className icon)) 1
            = Some (pre ++ String "-" (name ++ more))%string ->
            noHyphen pre = true -> noHyphen name = true ->
            (more = "" \/ exists rest, more = String "-" rest) ->
            a11yLabel link = Some name)
        /\ (nth_error (ClassList.tokens (className icon)) 1 = None ->
            toAttributeValue (a11yLabel link) = "undefined")
        /\ (forall cls,
              nth_error (ClassList.tokens (className icon)) 1 = Some cls ->
              noHyphen cls = true ->
              toAttributeValue (a11yLabel link) = "undefined")).
Proof.
  unfold a11yLabel. split; [|split].
  - intro Ht. now rewrite (truthy_true _ Ht).
  - intros Ht Hq. rewrite Ht, Hq. reflexivity.
  - intros icon Ht Hq. rewrite Ht, Hq. cbn [JS.truthy String.eqb negb].
    split; [|split].
    + intros pre name more Hcls Hpre Hname Hmore. rewrite Hcls.
      rewrite split_hyphen by exact Hpre. cbn [nth_error].
      destruct Hmore as [->|[rest ->]].
      * rewrite append_empty, split_no_hyphen by exact Hname. reflexivity.
      * rewrite split_hyphen by exact Hname. reflexivity.
    + intros ->. reflexivity.
    + intros cls -> Hn. now rewrite split_no_hyphen by exact Hn.
Qed.

Lemma a11yLabel_cases_witness :
  a11yLabel (ExampleLabels.anchor [TextNode "Read more"]) = Some "Read more"
  /\ a11yLabel (ExampleLabels.anchor []) = Some ""
  /\ a11yLabel (ExampleLabels.anchor [ExampleLabels.icon "icon icon-arrow-right"])
     = Some "arrow"
  /\ toAttributeValue (a11yLabel (ExampleLabels.anchor [ExampleLabels.icon "icon"]))
     = "undefined"
  /\ toAttributeValue
       (a11yLabel (ExampleLabels.anchor [ExampleLabels.icon "icon search"]))
     = "undefined".
Proof.
  split; [|split; [|split; [|split]]].
  - apply (proj1 (a11yLabel_cases (ExampleLabels.anchor [TextNode "Read more"]))).
    discriminate.
  - apply (proj1 (proj2 (a11yLabel_cases (ExampleLabels.anchor []))));
      reflexivity.
  - apply (proj1 (proj2 (proj2 (a11yLabel_cases
                                  (ExampleLabels.anchor
                                     [ExampleLabels.icon "icon icon-arrow-right"])))
                        (Example.element "SPAN" "icon icon-arrow-right" [])
                        eq_refl eq_refl)
             "icon" "arrow" "-right");
      [reflexivity|reflexivity|reflexivity|right; now exists "right"].
  - apply (proj1 (proj2 (proj2 (proj2 (a11yLabel_cases
                                         (ExampleLabels.anchor
                                            [ExampleLabels.icon "icon"])))
                               (Example.element "SPAN" "icon" [])
                               eq_refl eq_refl))).
    reflexivity.
  - apply (proj2 (proj2 (proj2 (proj2 (a11yLabel_cases
                                         (ExampleLabels.anchor
                                            [ExampleLabels.icon "icon search"])))
                               (Example.element "SPAN" "icon search" [])
                               eq_refl eq_refl))
             "search");
      reflexivity.
Defined.

(** ** Eager images *)

Lemma updateFirstTag_nodes (tag : string) (f : Element -> Element)
  (d : ElementData) (ns : list Node) :
  updateFirstTag tag f (mkElement d ns)
  = option_map (mkElement d) (updateFirstNode tag f ns).
Proof.
  cbn [updateFirstTag]. f_equal.
  induction ns as [|[s|c] ns IH]; cbn [updateFirstNode];
    [reflexivity|now rewrite IH|now rewrite IH].
Qed.

Lemma updateFirstTag_images (tag : string) (f : Element -> Element) :
  (forall c, tagName (props (f c)) = tagName (props c)) ->
  (forall c, childNodes (f c) = childNodes c) ->
  forall e,
    match updateFirstTag tag f e with
    | Some e' =>
        tagName (props e') = tagName (props e)
        /\ exists img rest,
            querySelectorAllTag tag e = img :: rest
            /\ querySelectorAllTag tag e' = f img :: rest
    | None => querySelectorAllTag tag e = []
    end.
Proof.
  intros Htag Hkids e.
  assert (Hf : forall c, querySelectorAllTag tag (f c) = querySelectorAllTag tag c).
  { intro c. specialize (Hkids c). destruct (f c) as [d' ns'], c as [d ns].
    cbn [childNodes] in Hkids. subst ns'. now rewrite !querySelectorAllTag_nodes. }
  induction e as [d ns IH] using Element_induction.
  rewrite updateFirstTag_nodes, querySelectorAllTag_nodes.
  assert (Hns : match updateFirstNode tag f ns with
                | Some ns' =>
                    exists img rest,
                      descendantsTag tag ns = img :: rest
                      /\ descendantsTag tag ns' = f img :: rest
                | None => descendantsTag tag ns = []
                end).
  { induction ns as [|n ns IHns]; [reflexivity|].
    inversion IH as [|? ? Hn Hrest]; subst. specialize (IHns Hrest).
    destruct n as [s|c]; cbn [updateFirstNode].
    - destruct (updateFirstNode tag f ns) as [ns'|]; cbn [option_map];
        exact IHns.
    - unfold descendantsTag. cbn [flat_map].
      destruct (tagName (props c) =? tag) eqn:Ec.
      + exists c, (querySelectorAllTag tag c ++ descendantsTag tag ns).
        split; [reflexivity|]. cbn [flat_map]. rewrite Htag, Ec, Hf.
        reflexivity.
      + cbn [app]. destruct (updateFirstTag tag f c) as [c'|].
        * destruct Hn as [Ht [img [rest [Hq Hq']]]].
          exists img, (rest ++ descendantsTag tag ns).
          split; [fold (descendantsTag tag ns); now rewrite Hq|].
          cbn [flat_map]. rewrite Ht, Ec. cbn [app].
          fold (descendantsTag tag ns). now rewrite Hq'.
        * rewrite Hn. cbn [app]. fold (descendantsTag tag ns).
          destruct (updateFirstNode tag f ns) as [ns'|]; cbn [option_map];
            [|exact IHns].
          destruct IHns as [img [rest [Hq Hq']]]. exists img, rest.
          split; [exact Hq|]. unfold descendantsTag. cbn [flat_map].
          rewrite Ec, Hn. exact Hq'. }
  destruct (updateFirstNode tag f ns) as [ns'|]; cbn [option_map].
  - split; [reflexivity|]. rewrite querySelectorAllTag_nodes. exact Hns.
  - exact Hns.
Qed.

Lemma hd_error_app {A} (l l' : list A) (x : A) :
  hd_error l = Some x -> hd_error (l ++ l') = Some x.
Proof. destruct l; [discriminate|]. intro H. exact H. Qed.

(** The element that [updateFirstTag] replaces is the first one with the
    tag in document order, and nothing else is replaced. *)
Lemma updateFirstTag_path (tag : string) (f : Element -> Element) :
  forall e,
    match updateFirstTag tag f e with
    | Some e' =>
        exists p img,
          p <> [] /\ elementAt p e = Some img
          /\ hd_error (querySelectorAllTag tag e) = Some img
          /\ e' = updateAt p f e
    | None => querySelectorAllTag tag e = []
    end.
Proof.
  intro e. induction e as [d ns IH] using Element_induction.
  rewrite updateFirstTag_nodes, querySelectorAllTag_nodes.
  assert (Hns : match updateFirstNode tag f ns with
                | Some ns' =>
                    exists i p c img,
                      nth_error ns i = Some (ElementNode c)
                      /\ elementAt p c = Some img
                      /\ hd_error (descendantsTag tag ns) = Some img
                      /\ ns' = updateNth i (updateAt p f) ns
                | None => descendantsTag tag ns = []
                end).
  { induction ns as [|n ns IHns]; [reflexivity|].
    inversion IH as [|? ? Hn Hrest]; subst. specialize (IHns Hrest).
    destruct n as [s|c]; cbn [updateFirstNode].
    - destruct (updateFirstNode tag f ns) as [ns'|]; cbn [option_map];
        [|exact IHns].
      destruct IHns as [i [p [c [img [Hi [Hp [Hh ->]]]]]]].
      exists (S i), p, c, img. repeat split; assumption.
    - unfold descendantsTag. cbn [flat_map].
      fold (descendantsTag tag ns).
      destruct (tagName (props c) =? tag) eqn:Ec.
      + exists 0%nat, [], c, c. repeat split.
      + cbn [app]. destruct (updateFirstTag tag f c) as [c'|].
        * destruct Hn as [p [img [_ [Hp [Hh ->]]]]].
          exists 0%nat, p, c, img. repeat split; [exact Hp|].
          now apply hd_error_app.
        * rewrite Hn. cbn [app].
          destruct (updateFirstNode tag f ns) as [ns'|]; cbn [option_map];
            [|exact IHns].
          destruct IHns as [i [p [c0 [img [Hi [Hp [Hh ->]]]]]]].
          exists (S i), p, c0, img. repeat split; assumption. }
  destruct (updateFirstNode tag f ns) as [ns'|]; cbn [option_map];
    [|exact Hns].
  destruct Hns as [i [p [c [img [Hi [Hp [Hh ->]]]]]]].
  exists (i :: p), img. split; [discriminate|]. split; [|split].
  - cbn [elementAt childNodes]. now rewrite Hi.
  - exact Hh.
  - reflexivity.
Qed.

(** X21: [decorateArea] changes only the first image of the area in
    document order: the area it returns is the area with the element at
    the path of that image replaced by the eager image, which has lost the
    attribute loading, has the fetch priority high and is as the image was
    in everything else; every other image, and everything else in the
    area, is as it was; an area without image is returned as it is. *)
Theorem decorateArea_first_image (area : Element) :
  querySelectorAllTag "IMG" (decorateArea area)
  = match querySelectorAllTag "IMG" area with
    | [] => []
    | img :: rest => makeEager img :: rest
    end
  /\ (querySelectorAllTag "IMG" area = [] -> decorateArea area = area)
  /\ (forall img,
        getAttribute "loading" (makeEager img) = None
        /\ getAttribute "fetchpriority" (makeEager img) = Some "high"
        /\ forall attr, attr <> "loading" -> attr <> "fetchpriority" ->
                        getAttribute attr (makeEager img) = getAttribute attr img)
  /\ (forall img rest,
        querySelectorAllTag "IMG" area = img :: rest ->
        exists p,
          p <> [] /\ elementAt p area = Some img
          /\ decorateArea area = updateAt p makeEager area)
  /\ forall img,
      tagName (props (makeEager img)) = tagName (props img)
      /\ style (props (makeEager img)) = style (props img)
      /\ dataset (props (makeEager img)) = dataset (props img)
      /\ childNodes (makeEager img) = childNodes img.
Proof.
  assert (H := updateFirstTag_images "IMG" makeEager
                 (fun c => eq_refl) (fun c => eq_refl) area).
  assert (Hp := updateFirstTag_path "IMG" makeEager area).
  unfold decorateArea. split; [|split; [|split; [|split]]].
  - destruct (updateFirstTag "IMG" makeEager area) as [area'|].
    + destruct H as [_ [img [rest [-> ->]]]]. reflexivity.
    + now rewrite H.
  - intro Hnone. destruct (updateFirstTag "IMG" makeEager area) as [area'|];
      [|reflexivity].
    destruct H as [_ [img [rest [Hq _]]]]. congruence.
  - intro img. unfold makeEager. split; [|split].
    + rewrite getAttribute_setAttribute_other by discriminate.
      apply getAttribute_removeAttribute_same.
    + apply getAttribute_setAttribute_same.
    + intros attr Hl Hf.
      rewrite getAttribute_setAttribute_other by congruence.
      apply getAttribute_removeAttribute_other. congruence.
  - intros img rest Hq.
    destruct (updateFirstTag "IMG" makeEager area) as [area'|].
    + destruct Hp as [p [img' [Hne [Hat [Hh ->]]]]].
      rewrite Hq in Hh. injection Hh as <-. now exists p.
    + congruence.
  - intro img. repeat split.
Qed.

Lemma decorateArea_first_image_witness :
  decorateArea (Example.element "MAIN" "" [ElementNode Example.paragraph])
  = Example.element "MAIN" "" [ElementNode Example.paragraph]
  /\ getAttribute "alt"
       (makeEager (setAttribute "alt" "Hero" (Example.element "IMG" "" [])))
     = Some "Hero"
  /\ querySelectorAllTag "IMG" (decorateArea ExampleEager.area)
     = [setAttribute "fetchpriority" "high"
          (setAttribute "src" "/hero.png" (Example.element "IMG" "" []));
        ExampleEager.logo]
  /\ exists p,
      p <> [] /\ elementAt p ExampleEager.area = Some ExampleEager.hero
      /\ decorateArea ExampleEager.area
         = updateAt p makeEager ExampleEager.area.
Proof.
  split; [|split; [|split]].
  - apply (proj1 (proj2 (decorateArea_first_image
                           (Example.element "MAIN" ""
                              [ElementNode Example.paragraph])))).
    reflexivity.
  - rewrite (proj2 (proj2 (proj1 (proj2 (proj2 (decorateArea_first_image
                                           (Example.element "MAIN" "" []))))
                                 (setAttribute "alt" "Hero"
                                    (Example.element "IMG" "" []))))
               "alt");
      try discriminate; reflexivity.
  - exact (proj1 (decorateArea_first_image ExampleEager.area)).
  - exact (proj1 (proj2 (proj2 (proj2 (decorateArea_first_image
                                         ExampleEager.area))))
             ExampleEager.hero [ExampleEager.logo] eq_refl).
Defined.
